(** * Persistence_202501: the record stores of the two services

    Project_1/jogos keeps games, friends and loans in one CSV file per
    entity (database.py, models.py, main.py).  Project_2/blog keeps users,
    posts, categories and likes in relational tables behind an ORM session
    (routers/*.py, models/*.py, schemas/*.py).

    The development embeds the operations of both stores as executable
    functions over an explicit persisted state and proves the properties
    of the specification about them. *)

From Stdlib Require Import ZArith Ascii DecimalString DecimalZ DecimalPos Lia.
From stdpp Require Import gmap strings list sorting.

Local Open Scope Z_scope.

(** ** Python values and the built-in conversions the stores rely on *)

Module Py.

(** A value held by a dict read from a CSV file, dumped from a model or
    received in a request body. *)
Inductive valor :=
  | VNone
  | VStr (s : string)
  | VInt (z : Z)
  | VBool (b : bool).

#[global] Instance valor_eq_dec : EqDecision valor.
Proof. solve_decision. Defined.

Inductive excecao :=
  | ValueError (msg : string)
  | TypeError (msg : string)
  | StopIteration.

#[global] Instance excecao_eq_dec : EqDecision excecao.
Proof. solve_decision. Defined.

(** The outcome of a call: a value, or a raised exception. *)
Inductive resultado (A : Type) :=
  | Ok (a : A)
  | Erro (e : excecao).
Arguments Ok {A} a.
Arguments Erro {A} e.

(** Text is a sequence of characters with code points below 256. *)

(** [str(z)] for an int. *)
Definition str_int (z : Z) : string := NilEmpty.string_of_int (Z.to_int z).

(** [str(b)] for a bool. *)
Definition str_bool (b : bool) : string := if b then "True" else "False".

(** The characters [int()] skips around a literal: the ASCII white space
    and, of the code points up to 255, NEL and the no-break space. *)
Definition espaco (a : ascii) : bool :=
  let n := nat_of_ascii a in
  (Nat.leb 9 n && Nat.leb n 13) || Nat.eqb n 32 || Nat.eqb n 133 || Nat.eqb n 160.

Fixpoint lstrip (s : string) : string :=
  match s with
  | EmptyString => EmptyString
  | String a r => if espaco a then lstrip r else s
  end.

Fixpoint rstrip (s : string) : string :=
  match s with
  | EmptyString => EmptyString
  | String a r =>
      match rstrip r with
      | EmptyString => if espaco a then EmptyString else String a EmptyString
      | r' => String a r'
      end
  end.

Definition strip (s : string) : string := rstrip (lstrip s).

(** Underscores of an int literal: single, and only between two digits.
    [ant] tells whether the previous character was not an underscore. *)
Fixpoint sem_sublinhados (ant : bool) (s : string) : option string :=
  match s with
  | EmptyString => if ant then Some EmptyString else None
  | String a r =>
      if Ascii.eqb a "_"
      then (if ant then sem_sublinhados false r else None)
      else String a <$> sem_sublinhados true r
  end.

Definition int_digitos (s : string) : option Z :=
  d ← sem_sublinhados false s;
  Z.of_uint <$> NilEmpty.uint_of_string d.

(** [int(s)] for a text, base 10; [None] stands for the ValueError. *)
Definition int_str (s : string) : option Z :=
  match strip s with
  | String "-" r => Z.opp <$> int_digitos r
  | String "+" r => int_digitos r
  | r => int_digitos r
  end.

Definition msg_int_invalido (s : string) : string :=
  "invalid literal for int() with base 10: '" +:+ s +:+ "'".

Definition msg_int_none : string :=
  "int() argument must be a string, a bytes-like object or a real number, not 'NoneType'".

(** [int(v)] for the value [d.get('id')] of a dict ([None] when the key
    is missing). *)
Definition int (v : option valor) : resultado Z :=
  match v with
  | Some (VInt z) => Ok z
  | Some (VBool b) => Ok (Z.b2z b)
  | Some (VStr s) =>
      match int_str s with
      | Some z => Ok z
      | None => Erro (ValueError (msg_int_invalido s))
      end
  | Some VNone | None => Erro (TypeError msg_int_none)
  end.

(** [s.lower()] on the ASCII letters. *)
Definition lower_ascii (a : ascii) : ascii :=
  let n := nat_of_ascii a in
  if Nat.leb 65 n && Nat.leb n 90 then ascii_of_nat (n + 32) else a.

Fixpoint lower (s : string) : string :=
  match s with
  | EmptyString => EmptyString
  | String a r => String (lower_ascii a) (lower r)
  end.

(** [s.capitalize()]. *)
Definition upper_ascii (a : ascii) : ascii :=
  let n := nat_of_ascii a in
  if Nat.leb 97 n && Nat.leb n 122 then ascii_of_nat (n - 32) else a.

Definition capitalize (s : string) : string :=
  match s with
  | EmptyString => EmptyString
  | String a r => String (upper_ascii a) (lower r)
  end.

(** [str(v)] as the csv writer renders a value in a cell: [None] is the
    empty cell. *)
Definition celula (v : valor) : string :=
  match v with
  | VNone => ""
  | VStr s => s
  | VInt z => str_int z
  | VBool b => str_bool b
  end.

(** What a file opened in text mode without [newline=''] hands to its
    reader: a carriage return, alone or followed by a line feed, is a line
    feed.  [cr] tells whether the previous character was a carriage
    return. *)
Definition CR : ascii := "013".
Definition LF : ascii := "010".

Fixpoint traduzir (cr : bool) (s : string) : string :=
  match s with
  | EmptyString => EmptyString
  | String a r =>
      if Ascii.eqb a CR then String LF (traduzir true r)
      else if Ascii.eqb a LF
      then (if cr then traduzir false r else String LF (traduzir false r))
      else String a (traduzir false r)
  end.

Definition universal_newlines (s : string) : string := traduzir false s.

(** A text with a given character, and a text with a character that is
    not white space. *)
Fixpoint contem_char (c : ascii) (s : string) : bool :=
  match s with
  | EmptyString => false
  | String a r => Ascii.eqb a c || contem_char c r
  end.

Fixpoint tem_texto (s : string) : bool :=
  match s with
  | EmptyString => false
  | String a r => negb (espaco a) || tem_texto r
  end.

(** A text made of decimal digits only. *)
Fixpoint so_digitos (s : string) : bool :=
  match s with
  | EmptyString => true
  | String a r =>
      (Nat.leb 48 (nat_of_ascii a) && Nat.leb (nat_of_ascii a) 57) && so_digitos r
  end.

End Py.

(** ** Project_1/jogos/models.py *)

Module Models.
Import Py.

(** What the process fixes outside the code: the year and the date that
    [datetime.now()] gives, and pydantic's lax reading of a text handed to
    an [int] field (only texts that [int()] refused, or empty ones, reach
    it from a CSV file). *)
Record ambiente := {
  ano_atual : Z;
  hoje : string;
  coagir_int : string → option Z;
}.

(** The interface of a pydantic model that database.py uses. *)
Class Modelo (T : Type) := {
  model_fields : list string;
  model_dump : T → gmap string valor;
  model_validate : ambiente → gmap string valor → option T;
  id_de : T → Z;
}.

(** Validation of one field, lax mode.  [None] is a validation error. *)
Definition val_int (amb : ambiente) (v : valor) : option Z :=
  match v with
  | VInt z => Some z
  | VBool b => Some (Z.b2z b)
  | VStr s => coagir_int amb s
  | VNone => None
  end.

Definition val_str (max_length : option nat) (v : valor) : option string :=
  match v with
  | VStr s =>
      match max_length with
      | Some n => if Nat.leb (String.length s) n then Some s else None
      | None => Some s
      end
  | _ => None
  end.

Definition val_bool (v : valor) : option bool :=
  match v with
  | VBool b => Some b
  | VInt 0 => Some false
  | VInt 1 => Some true
  | VStr s =>
      let t := lower s in
      if bool_decide (t ∈ ["1"; "on"; "t"; "true"; "y"; "yes"]) then Some true
      else if bool_decide (t ∈ ["0"; "off"; "f"; "false"; "n"; "no"]) then Some false
      else None
  | _ => None
  end.

(** A required field ([Field(...)]) and a field with a default. *)
Definition obrigatorio {A} (val : valor → option A) (v : option valor) : option A :=
  v ≫= val.

Definition com_default {A} (dflt : A) (val : valor → option A) (v : option valor) : option A :=
  match v with
  | Some x => val x
  | None => Some dflt
  end.

Definition val_opcional {A} (val : valor → option A) (v : valor) : option (option A) :=
  match v with
  | VNone => Some None
  | _ => Some <$> val v
  end.

Definition entre (lo hi z : Z) : option Z :=
  if (lo <=? z) && (z <=? hi) then Some z else None.

Record Jogo := {
  jogo_id_ : Z;
  titulo : string;
  genero : string;
  plataforma : string;
  ano_lancamento : Z;
  disponivel : bool;
}.

Definition Jogo_dump (j : Jogo) : gmap string valor :=
  {[ "id" := VInt (jogo_id_ j);
     "titulo" := VStr (titulo j);
     "genero" := VStr (genero j);
     "plataforma" := VStr (plataforma j);
     "ano_lancamento" := VInt (ano_lancamento j);
     "disponivel" := VBool (disponivel j) ]}.

Definition Jogo_validate (amb : ambiente) (d : gmap string valor) : option Jogo :=
  i ← obrigatorio (val_int amb) (d !! "id");
  t ← obrigatorio (val_str (Some 100%nat)) (d !! "titulo");
  g ← obrigatorio (val_str (Some 50%nat)) (d !! "genero");
  p ← obrigatorio (val_str (Some 50%nat)) (d !! "plataforma");
  a ← obrigatorio (val_int amb) (d !! "ano_lancamento") ≫= entre 1950 (ano_atual amb);
  b ← com_default true val_bool (d !! "disponivel");
  Some {| jogo_id_ := i; titulo := t; genero := g; plataforma := p;
          ano_lancamento := a; disponivel := b |}.

#[global] Instance Jogo_modelo : Modelo Jogo := {|
  model_fields := ["id"; "titulo"; "genero"; "plataforma"; "ano_lancamento"; "disponivel"];
  model_dump := Jogo_dump;
  model_validate := Jogo_validate;
  id_de := jogo_id_;
|}.

Record Amigo := {
  amigo_id_ : Z;
  nome : string;
  telefone : string;
  email : option string;
  data_cadastro : string;
}.

Definition Amigo_dump (a : Amigo) : gmap string valor :=
  {[ "id" := VInt (amigo_id_ a);
     "nome" := VStr (nome a);
     "telefone" := VStr (telefone a);
     "email" := from_option VStr VNone (email a);
     "data_cadastro" := VStr (data_cadastro a) ]}.

Definition Amigo_validate (amb : ambiente) (d : gmap string valor) : option Amigo :=
  i ← obrigatorio (val_int amb) (d !! "id");
  n ← obrigatorio (val_str (Some 100%nat)) (d !! "nome");
  t ← obrigatorio (val_str (Some 20%nat)) (d !! "telefone");
  e ← com_default None (val_opcional (val_str (Some 100%nat))) (d !! "email");
  c ← com_default (hoje amb) (val_str None) (d !! "data_cadastro");
  Some {| amigo_id_ := i; nome := n; telefone := t; email := e; data_cadastro := c |}.

#[global] Instance Amigo_modelo : Modelo Amigo := {|
  model_fields := ["id"; "nome"; "telefone"; "email"; "data_cadastro"];
  model_dump := Amigo_dump;
  model_validate := Amigo_validate;
  id_de := amigo_id_;
|}.

Record Emprestimo := {
  emprestimo_id_ : Z;
  jogo_id : Z;
  amigo_id : Z;
  data_emprestimo : string;
  data_devolucao : string;
}.

Definition Emprestimo_dump (e : Emprestimo) : gmap string valor :=
  {[ "id" := VInt (emprestimo_id_ e);
     "jogo_id" := VInt (jogo_id e);
     "amigo_id" := VInt (amigo_id e);
     "data_emprestimo" := VStr (data_emprestimo e);
     "data_devolucao" := VStr (data_devolucao e) ]}.

Definition Emprestimo_validate (amb : ambiente) (d : gmap string valor) : option Emprestimo :=
  i ← obrigatorio (val_int amb) (d !! "id");
  j ← obrigatorio (val_int amb) (d !! "jogo_id");
  a ← obrigatorio (val_int amb) (d !! "amigo_id");
  e ← com_default (hoje amb) (val_str None) (d !! "data_emprestimo");
  v ← obrigatorio (val_str None) (d !! "data_devolucao");
  Some {| emprestimo_id_ := i; jogo_id := j; amigo_id := a;
          data_emprestimo := e; data_devolucao := v |}.

#[global] Instance Emprestimo_modelo : Modelo Emprestimo := {|
  model_fields := ["id"; "jogo_id"; "amigo_id"; "data_emprestimo"; "data_devolucao"];
  model_dump := Emprestimo_dump;
  model_validate := Emprestimo_validate;
  id_de := emprestimo_id_;
|}.

#[global] Instance Jogo_eq_dec : EqDecision Jogo.
Proof. solve_decision. Defined.
#[global] Instance Amigo_eq_dec : EqDecision Amigo.
Proof. solve_decision. Defined.
#[global] Instance Emprestimo_eq_dec : EqDecision Emprestimo.
Proof. solve_decision. Defined.

End Models.

(** ** Project_1/jogos/database.py *)

Module Database.
Import Py Models.

Inductive entidade := jogos | amigos | emprestimos.

#[global] Instance entidade_eq_dec : EqDecision entidade.
Proof. solve_decision. Defined.

Definition nome_de (ent : entidade) : string :=
  match ent with
  | jogos => "jogos"
  | amigos => "amigos"
  | emprestimos => "emprestimos"
  end.

(** [MODEL_POR_ENTIDADE[entidade].model_fields.keys()]. *)
Definition campos_de (ent : entidade) : list string :=
  match ent with
  | jogos => model_fields (T := Jogo)
  | amigos => model_fields (T := Amigo)
  | emprestimos => model_fields (T := Emprestimo)
  end.

(** The persisted state: the records of data/jogos.csv, data/amigos.csv
    and data/emprestimos.csv, each record giving the text of its cells by
    header field (a file that does not exist yet holds no record), and
    the journal of the rewrites done so far, oldest first.  The cells are
    the texts as the file stores them, each within the field size limit
    of the csv module (131072 characters), beyond which its reader
    raises. *)
Record disco := {
  arq_jogos : list (gmap string string);
  arq_amigos : list (gmap string string);
  arq_emprestimos : list (gmap string string);
  escritas : list entidade;
}.

Definition arquivo (ent : entidade) (d : disco) : list (gmap string string) :=
  match ent with
  | jogos => arq_jogos d
  | amigos => arq_amigos d
  | emprestimos => arq_emprestimos d
  end.

Definition gravar (ent : entidade) (ls : list (gmap string string)) (d : disco) : disco :=
  match ent with
  | jogos =>
      {| arq_jogos := ls; arq_amigos := arq_amigos d;
         arq_emprestimos := arq_emprestimos d; escritas := escritas d ++ [ent] |}
  | amigos =>
      {| arq_jogos := arq_jogos d; arq_amigos := ls;
         arq_emprestimos := arq_emprestimos d; escritas := escritas d ++ [ent] |}
  | emprestimos =>
      {| arq_jogos := arq_jogos d; arq_amigos := arq_amigos d;
         arq_emprestimos := ls; escritas := escritas d ++ [ent] |}
  end.

(** Calls read and rewrite the files and may raise; what was written
    before an exception stays written. *)
Definition M (A : Type) : Type := disco → resultado A * disco.

Definition ret {A} (a : A) : M A := λ d, (Ok a, d).
Definition raise {A} (e : excecao) : M A := λ d, (Erro e, d).
Definition bind {A B} (m : M A) (k : A → M B) : M B :=
  λ d, match m d with
       | (Ok a, d') => k a d'
       | (Erro e, d') => (Erro e, d')
       end.
Definition lift {A} (r : resultado A) : M A := λ d, (r, d).

#[global] Instance M_ret : MRet M := @ret.
#[global] Instance M_bind : MBind M := λ A B k m, bind m k.

(** One entry of [type_conversions] applied under the guard
    [item[field] not in (None, '')], the ValueError of the converter
    leaving the value as it was. *)
Definition conv_int (v : valor) : valor :=
  match v with
  | VNone | VStr EmptyString => v
  | _ => match int (Some v) with
         | Ok z => VInt z
         | Erro _ => v
         end
  end.

Definition conv_bool (v : valor) : valor :=
  match v with
  | VNone | VStr EmptyString => v
  | _ => VBool (bool_decide (lower (celula v) = "true"))
  end.

Definition type_conversions : list (string * (valor → valor)) :=
  [("id", conv_int); ("jogo_id", conv_int); ("amigo_id", conv_int);
   ("ano_lancamento", conv_int); ("disponivel", conv_bool)].

Definition _converter_tipos (item : gmap string valor) : gmap string valor :=
  foldl (λ it fc, alter (snd fc) (fst fc) it) item type_conversions.

(** [csv.DictReader] over [arquivo.open(mode="r")]: every cell of a
    record is a text.  The file was written with [newline=''] and is read
    without it, so a carriage return stored in a cell reaches the reader
    as a line feed. *)
Definition ler_csv (ent : entidade) : M (list (gmap string valor)) :=
  λ d, (Ok ((λ l, _converter_tipos ((λ s, VStr (universal_newlines s)) <$> l))
              <$> arquivo ent d), d).

(** The message of [csv.DictWriter] for a dict with keys outside
    [fieldnames]: the keys follow, each as [repr] prints a text that has
    no quote and no escape, in the order in which Python walks the set of
    them, which the language does not fix when there are several. *)
Definition repr_str (s : string) : string := "'" +:+ s +:+ "'".

Fixpoint lista_repr (l : list string) : string :=
  match l with
  | [] => ""
  | [s] => repr_str s
  | s :: r => repr_str s +:+ ", " +:+ lista_repr r
  end.

Definition msg_campos (fora : list string) : string :=
  "dict contains fields not in fieldnames: " +:+ lista_repr fora.

(** [csv.DictWriter]: a key outside [fieldnames] raises ValueError, a
    missing key is written as the empty cell. *)
Definition _dict_to_list (campos : list string) (item : gmap string valor)
    : option (gmap string string) :=
  if decide (dom item ⊆ list_to_set campos)
  then Some (list_to_map ((λ f, (f, from_option celula "" (item !! f))) <$> campos))
  else None.

(** [writer.writerows]: the records before the one that raises are in
    the file already. *)
Fixpoint writerows (campos : list string) (dados : list (gmap string valor))
    : list (gmap string string) * option excecao :=
  match dados with
  | [] => ([], None)
  | item :: r =>
      match _dict_to_list campos item with
      | None =>
          ([], Some (ValueError
                       (msg_campos (elements (dom item ∖ list_to_set campos)))))
      | Some l => let '(ls, e) := writerows campos r in (l :: ls, e)
      end
  end.

Definition escrever_csv (ent : entidade) (dados : list (gmap string valor))
    (campos : list string) : M unit :=
  λ d, let '(ls, e) := writerows campos dados in
       (match e with None => Ok tt | Some x => Erro x end, gravar ent ls d).

(** [any(int(item.get('id')) == item_id for item in dados)]: the scan
    stops at the first match and raises at a record whose id [int()]
    refuses. *)
Fixpoint any_id (dados : list (gmap string valor)) (item_id : Z) : resultado bool :=
  match dados with
  | [] => Ok false
  | item :: r =>
      match int (item !! "id") with
      | Erro e => Erro e
      | Ok i => if i =? item_id then Ok true else any_id r item_id
      end
  end.

Definition _validar_id_existente (ent : entidade) (item_id : Z) : M bool :=
  dados ← ler_csv ent;
  lift (any_id dados item_id).

Section modelo.
Context (amb : ambiente) {T : Type} `{!Modelo T}.

Definition carregar_entidades (ent : entidade) : M (list T) :=
  dados ← ler_csv ent;
  ret (omap (model_validate amb) dados).

Definition msg_ja_existe (ent : entidade) (i : Z) : string :=
  capitalize (nome_de ent) +:+ " com ID " +:+ str_int i +:+ " já existe".

Definition criar_entidade (ent : entidade) (item : T) : M T :=
  dados ← ler_csv ent;
  let novo_item := model_dump item in
  existe ← lift (any_id dados (id_de item));
  if existe : bool then raise (ValueError (msg_ja_existe ent (id_de item)))
  else
    escrever_csv ent (dados ++ [novo_item]) (model_fields (T := T));;
    ret item.

Definition msg_id_ja_existe (ent : entidade) (i : Z) : string :=
  "ID " +:+ str_int i +:+ " já existe na entidade " +:+ nome_de ent.

(** The loop of [atualizar_entidade]: every record stored under
    [item_id] is replaced. *)
Fixpoint substituir (dados : list (gmap string valor)) (item_id : Z)
    (novo : gmap string valor) : resultado (list (gmap string valor) * bool) :=
  match dados with
  | [] => Ok ([], false)
  | ent :: r =>
      match int (ent !! "id") with
      | Erro e => Erro e
      | Ok i =>
          match substituir r item_id novo with
          | Erro e => Erro e
          | Ok (r', encontrado) =>
              if i =? item_id then Ok (novo :: r', true) else Ok (ent :: r', encontrado)
          end
      end
  end.

Definition atualizar_entidade (ent : entidade) (item_id : Z) (item : T) : M (option T) :=
  dados ← ler_csv ent;
  existe ← (if bool_decide (id_de item ≠ item_id)
             then lift (any_id dados (id_de item)) else ret false);
  if existe : bool then raise (ValueError (msg_id_ja_existe ent (id_de item)))
  else
    '(dados_atualizados, encontrado) ← lift (substituir dados item_id (model_dump item));
    if negb encontrado then ret None
    else
      escrever_csv ent dados_atualizados (model_fields (T := T));;
      ret (Some item).

End modelo.

(** [[d for d in dados if int(d.get('id')) != item_id]]. *)
Fixpoint filtrar (dados : list (gmap string valor)) (item_id : Z)
    : resultado (list (gmap string valor)) :=
  match dados with
  | [] => Ok []
  | d :: r =>
      match int (d !! "id") with
      | Erro e => Erro e
      | Ok i =>
          match filtrar r item_id with
          | Erro e => Erro e
          | Ok r' => if i =? item_id then Ok r' else Ok (d :: r')
          end
      end
  end.

Definition deletar_entidade (ent : entidade) (item_id : Z) : M bool :=
  existe ← _validar_id_existente ent item_id;
  if negb existe then ret false
  else
    dados ← ler_csv ent;
    dados_filtrados ← lift (filtrar dados item_id);
    (* MODEL_POR_ENTIDADE has a model for each of the three entities *)
    escrever_csv ent dados_filtrados (campos_de ent);;
    ret true.

(** [jogo.disponivel = b] on one object of a loaded list. *)
Definition com_disponivel (b : bool) (j : Jogo) : Jogo :=
  {| jogo_id_ := jogo_id_ j; titulo := titulo j; genero := genero j;
     plataforma := plataforma j; ano_lancamento := ano_lancamento j;
     disponivel := b |}.

(** [next((x for x in l if x.id == i), None)]: the first object with
    that id and its place in the list. *)
Definition next_id {T} `{!Modelo T} (i : Z) (l : list T) : option (nat * T) :=
  list_find (λ x, id_de x = i) l.

Section operacoes.
Context (amb : ambiente).

Definition carregar_jogos : M (list Jogo) := carregar_entidades amb jogos.
Definition atualizar_jogo (i : Z) (jogo : Jogo) : M (option Jogo) :=
  atualizar_entidade jogos i jogo.
Definition deletar_jogo (i : Z) : M bool := deletar_entidade jogos i.

Definition carregar_amigos : M (list Amigo) := carregar_entidades amb amigos.
Definition atualizar_amigo (i : Z) (amigo : Amigo) : M (option Amigo) :=
  atualizar_entidade amigos i amigo.
Definition deletar_amigo (i : Z) : M bool := deletar_entidade amigos i.

Definition carregar_emprestimos : M (list Emprestimo) :=
  carregar_entidades amb emprestimos.

Definition msg_jogo_nao_encontrado (i : Z) : string :=
  "Jogo com ID " +:+ str_int i +:+ " não encontrado".
Definition msg_amigo_nao_encontrado (i : Z) : string :=
  "Amigo com ID " +:+ str_int i +:+ " não encontrado".
Definition msg_nao_disponivel_emprestimo (i : Z) : string :=
  "Jogo com ID " +:+ str_int i +:+ " não está disponível para empréstimo".
Definition msg_nao_disponivel (i : Z) : string :=
  "Jogo com ID " +:+ str_int i +:+ " não está disponível".

Definition criar_emprestimo (emprestimo : Emprestimo) : M Emprestimo :=
  js ← carregar_jogos;
  as_ ← carregar_amigos;
  if negb (bool_decide (Exists (λ j, id_de j = jogo_id emprestimo) js))
  then raise (ValueError (msg_jogo_nao_encontrado (jogo_id emprestimo)))
  else if negb (bool_decide (Exists (λ a, id_de a = amigo_id emprestimo) as_))
  then raise (ValueError (msg_amigo_nao_encontrado (amigo_id emprestimo)))
  else
    match next_id (jogo_id emprestimo) js with
    | None => raise StopIteration
    | Some (k, jogo) =>
        if negb (disponivel jogo)
        then raise (ValueError (msg_nao_disponivel_emprestimo (jogo_id emprestimo)))
        else
          let js := <[k := com_disponivel false jogo]> js in
          let jogos_atualizados := model_dump <$> js in
          escrever_csv jogos jogos_atualizados (model_fields (T := Jogo));;
          criar_entidade emprestimos emprestimo
    end.

Definition atualizar_emprestimo (emprestimo_id : Z) (emprestimo : Emprestimo)
    : M (option Emprestimo) :=
  es ← carregar_emprestimos;
  match next_id emprestimo_id es with
  | None => ret None
  | Some (_, emprestimo_antigo) =>
      js ← carregar_jogos;
      (if bool_decide (jogo_id emprestimo_antigo ≠ jogo_id emprestimo)
       then
         let js :=
           match next_id (jogo_id emprestimo_antigo) js with
           | Some (k, jogo_antigo) => <[k := com_disponivel true jogo_antigo]> js
           | None => js
           end in
         js ← match next_id (jogo_id emprestimo) js with
              | Some (k, jogo_novo) =>
                  if negb (disponivel jogo_novo)
                  then raise (ValueError (msg_nao_disponivel (jogo_id emprestimo)))
                  else ret (<[k := com_disponivel false jogo_novo]> js)
              | None => ret js
              end;
         let jogos_atualizados := model_dump <$> js in
         escrever_csv jogos jogos_atualizados (model_fields (T := Jogo))
       else ret tt);;
      atualizar_entidade emprestimos emprestimo_id emprestimo
  end.

Definition deletar_emprestimo (emprestimo_id : Z) : M bool :=
  es ← carregar_emprestimos;
  match next_id emprestimo_id es with
  | None => ret false
  | Some (_, emprestimo) =>
      js ← carregar_jogos;
      match next_id (jogo_id emprestimo) js with
      | Some (k, jogo) =>
          let js := <[k := com_disponivel true jogo]> js in
          let jogos_atualizados := model_dump <$> js in
          escrever_csv jogos jogos_atualizados (model_fields (T := Jogo))
      | None => ret tt
      end;;
      deletar_entidade emprestimos emprestimo_id
  end.

End operacoes.

End Database.

(** ** Project_1/jogos/main.py: the endpoints the properties speak of *)

Module Main.
Import Py Models Database.

(** What an endpoint answers: a status with a body, or an HTTPException.
    A body that the model of the route refuses never reaches the
    function: the framework answers 422. *)
Inductive resposta (A : Type) :=
  | Resposta (status : Z) (corpo : A)
  | HTTPException (status : Z) (detail : string).
Arguments Resposta {A} status corpo.
Arguments HTTPException {A} status detail.

Definition msg_excecao (e : excecao) : string :=
  match e with
  | ValueError m | TypeError m => m
  | StopIteration => ""
  end.

Section endpoints.
Context (amb : ambiente).

(** GET /jogos/{jogo_id}, /amigos/{amigo_id}, /emprestimos/{emprestimo_id}. *)
Definition obter {T} `{!Modelo T} (ent : entidade) (i : Z) : M (option T) :=
  l ← carregar_entidades amb ent;
  ret (snd <$> next_id i l).


(** PUT /jogos/{jogo_id} with a JSON body. *)
Definition atualizar_jogo (jogo_id : Z) (corpo : gmap string valor)
    : disco → resposta Jogo * disco :=
  λ d, match model_validate amb corpo with
       | None => (HTTPException 422 "Unprocessable Entity", d)
       | Some jogo =>
           match Database.atualizar_jogo jogo_id jogo d with
           | (Ok (Some jogo_atualizado), d') => (Resposta 200 jogo_atualizado, d')
           | (Ok None, d') =>
               (HTTPException 404
                  ("Jogo com ID " +:+ str_int jogo_id +:+ " não encontrado"), d')
           | (Erro (ValueError m), d') => (HTTPException 400 m, d')
           | (Erro _, d') => (HTTPException 500 "Internal Server Error", d')
           end
       end.

(** PUT /amigos/{amigo_id} with a JSON body. *)
Definition atualizar_amigo (amigo_id : Z) (corpo : gmap string valor)
    : disco → resposta Amigo * disco :=
  λ d, match model_validate amb corpo with
       | None => (HTTPException 422 "Unprocessable Entity", d)
       | Some amigo =>
           match Database.atualizar_amigo amigo_id amigo d with
           | (Ok (Some amigo_atualizado), d') => (Resposta 200 amigo_atualizado, d')
           | (Ok None, d') =>
               (HTTPException 404
                  ("Amigo com ID " +:+ str_int amigo_id +:+ " não encontrado"), d')
           | (Erro (ValueError m), d') => (HTTPException 400 m, d')
           | (Erro _, d') => (HTTPException 500 "Internal Server Error", d')
           end
       end.

(** PUT /emprestimos/{emprestimo_id} with a JSON body. *)
Definition atualizar_emprestimo (emprestimo_id : Z) (corpo : gmap string valor)
    : disco → resposta Emprestimo * disco :=
  λ d, match model_validate amb corpo with
       | None => (HTTPException 422 "Unprocessable Entity", d)
       | Some emprestimo =>
           match Database.atualizar_emprestimo amb emprestimo_id emprestimo d with
           | (Ok (Some emprestimo_atualizado), d') =>
               (Resposta 200 emprestimo_atualizado, d')
           | (Ok None, d') =>
               (HTTPException 404
                  ("Empréstimo com ID " +:+ str_int emprestimo_id
                   +:+ " não encontrado"), d')
           | (Erro (ValueError m), d') => (HTTPException 400 m, d')
           | (Erro _, d') => (HTTPException 500 "Internal Server Error", d')
           end
       end.

End endpoints.

End Main.

(** ** What the reads of database.py see in a file *)

Module Leitura.
Import Py Models Database.

(** The converter that [_converter_tipos] applies to a field. *)
Definition conv_de (f : string) : valor → valor :=
  if bool_decide (f ∈ ["id"; "jogo_id"; "amigo_id"; "ano_lancamento"]) then conv_int
  else if bool_decide (f = "disponivel") then conv_bool
  else λ v, v.

(** A record as [ler_csv] hands it over, and as [escrever_csv] stores a
    dict whose keys are fields of the header. *)
Definition ler (l : gmap string string) : gmap string valor :=
  _converter_tipos ((λ s, VStr (universal_newlines s)) <$> l).

Definition escrever (campos : list string) (item : gmap string valor)
    : gmap string string :=
  list_to_map ((λ f, (f, from_option celula "" (item !! f))) <$> campos).

(** The records of a file as [ler_csv] returns them, and the objects
    that [carregar_entidades] builds from them. *)
Definition lidos (ent : entidade) (d : disco) : list (gmap string valor) :=
  ler <$> arquivo ent d.

Definition carregados (amb : ambiente) {T} `{!Modelo T} (ent : entidade) (d : disco)
    : list T :=
  omap (model_validate amb) (lidos ent d).

(** The id that the scans of database.py read in a stored record. *)
Definition id_linha (l : gmap string string) : option Z :=
  l !! "id" ≫= int_str.

Definition ids (ls : list (gmap string string)) : list Z := omap id_linha ls.

(** A file whose records have one cell for each field of the header
    and an id that [int()] reads. *)
Definition retangular (campos : list string) (ls : list (gmap string string)) : Prop :=
  Forall (λ l, dom l = list_to_set campos) ls.

Definition ids_ok (ls : list (gmap string string)) : Prop :=
  Forall (λ l, is_Some (id_linha l)) ls.

(** An object that satisfies the constraints of its model: validating
    its own dump gives it back. *)
Definition valido (amb : ambiente) {T} `{!Modelo T} (x : T) : Prop :=
  model_validate amb (model_dump x) = Some x.

(** The constraints of models.py. *)
Definition Jogo_restricoes (amb : ambiente) (j : Jogo) : Prop :=
  (String.length (titulo j) ≤ 100)%nat ∧ (String.length (genero j) ≤ 50)%nat
  ∧ (String.length (plataforma j) ≤ 50)%nat
  ∧ 1950 ≤ ano_lancamento j ≤ ano_atual amb.

Definition Amigo_restricoes (a : Amigo) : Prop :=
  (String.length (nome a) ≤ 100)%nat ∧ (String.length (telefone a) ≤ 20)%nat
  ∧ (String.length (default "" (email a)) ≤ 100)%nat.

(** An object read back from its record: every text has gone through
    the translation of newlines of the read; for an Amigo, moreover, the
    CSV cell of an email that is [None] is empty, and an empty cell is
    read as the empty text. *)
Definition Jogo_relido (j : Jogo) : Jogo :=
  {| jogo_id_ := jogo_id_ j; titulo := universal_newlines (titulo j);
     genero := universal_newlines (genero j);
     plataforma := universal_newlines (plataforma j);
     ano_lancamento := ano_lancamento j; disponivel := disponivel j |}.

Definition Amigo_relido (a : Amigo) : Amigo :=
  {| amigo_id_ := amigo_id_ a; nome := universal_newlines (nome a);
     telefone := universal_newlines (telefone a);
     email := Some (universal_newlines (default "" (email a)));
     data_cadastro := universal_newlines (data_cadastro a) |}.

Definition Emprestimo_relido (e : Emprestimo) : Emprestimo :=
  {| emprestimo_id_ := emprestimo_id_ e; jogo_id := jogo_id e; amigo_id := amigo_id e;
     data_emprestimo := universal_newlines (data_emprestimo e);
     data_devolucao := universal_newlines (data_devolucao e) |}.

(** A Jogo as a read builds it: within the constraints and with its
    texts already translated. *)
Definition lido (amb : ambiente) (j : Jogo) : Prop :=
  valido amb j ∧ Jogo_relido j = j.

(** The disk after [escrever_csv("jogos", [j.model_dump() for j in js], Jogo)]. *)
Definition gravar_jogos (js : list Jogo) (d : disco) : disco :=
  gravar jogos (escrever (model_fields (T := Jogo)) <$> (model_dump <$> js)) d.

(** [jogo_antigo.disponivel = True] on the loaded list, when the old
    game is there. *)
Definition liberar (i : Z) (js : list Jogo) : list Jogo :=
  match next_id i js with
  | Some (k, jogo_antigo) => <[k := com_disponivel true jogo_antigo]> js
  | None => js
  end.

End Leitura.

(** ** Concrete stores used to run the operations *)

Module Exemplos.
Import Py Models Database Leitura.

(** An environment: the year and the day of the run, and a validator
    that reads a text given to an [int] field as [int()] does.  The
    records of the stores below hold ints in their int cells, so the
    validator never has a text to read. *)
Definition amb0 : ambiente :=
  {| ano_atual := 2025; hoje := "2025-06-01"; coagir_int := int_str |}.

Definition zelda (disp : bool) : Jogo :=
  {| jogo_id_ := 1; titulo := "Zelda"; genero := "Aventura"; plataforma := "Switch";
     ano_lancamento := 2017; disponivel := disp |}.

Definition doom (disp : bool) : Jogo :=
  {| jogo_id_ := 2; titulo := "Doom"; genero := "FPS"; plataforma := "PC";
     ano_lancamento := 1993; disponivel := disp |}.

Definition tetris : Jogo :=
  {| jogo_id_ := 5; titulo := "Tetris"; genero := "Puzzle"; plataforma := "Game Boy";
     ano_lancamento := 1989; disponivel := true |}.

Definition ana : Amigo :=
  {| amigo_id_ := 7; nome := "Ana"; telefone := "5585999990000";
     email := Some "ana@example.com"; data_cadastro := "2025-01-10" |}.


(** A friend registered without an email. *)
Definition rui : Amigo :=
  {| amigo_id_ := 8; nome := "Rui"; telefone := "5585988880000";
     email := None; data_cadastro := "2025-02-11" |}.

Definition emprestimo (i j a : Z) : Emprestimo :=
  {| emprestimo_id_ := i; jogo_id := j; amigo_id := a;
     data_emprestimo := "2025-03-01"; data_devolucao := "2025-03-15" |}.

Definition linha {T} `{!Modelo T} (x : T) : gmap string string :=
  escrever model_fields (model_dump x).


(** Zelda is out on loan 1 to Ana; Doom is on the shelf. *)
Definition d_emprestado : disco :=
  {| arq_jogos := [linha (zelda false); linha (doom true)];
     arq_amigos := [linha ana];
     arq_emprestimos := [linha (emprestimo 1 1 7)];
     escritas := [] |}.

(** Zelda is marked unavailable and no friend is registered. *)
Definition d_sem_amigos : disco :=
  {| arq_jogos := [linha (zelda false)]; arq_amigos := [];
     arq_emprestimos := []; escritas := [] |}.

(** The store of [d_emprestado] with, ahead of loan 1, a loan record
    whose id is not a number. *)
Definition d_emprestimo_ilegivel : disco :=
  {| arq_jogos := [linha (zelda false); linha (doom true)];
     arq_amigos := [linha ana];
     arq_emprestimos := [<["id" := "x1"]> (linha (emprestimo 3 1 7));
                         linha (emprestimo 1 1 7)];
     escritas := [] |}.

(** Both games are out: Zelda on loan 1, Doom on loan 2. *)
Definition d_dois_emprestimos : disco :=
  {| arq_jogos := [linha (zelda false); linha (doom false)];
     arq_amigos := [linha ana];
     arq_emprestimos := [linha (emprestimo 1 1 7); linha (emprestimo 2 2 7)];
     escritas := [] |}.

(** Loan 1 is left after its game was deleted. *)
Definition d_jogo_apagado : disco :=
  {| arq_jogos := []; arq_amigos := [linha ana];
     arq_emprestimos := [linha (emprestimo 1 1 7)]; escritas := [] |}.

End Exemplos.

(** ** Project_2/blog: models, schemas and routers *)

Module Blog.
Import Py.

(** *** models/*.py: the rows of the tables.  Instants are counted on
    the clock of the process. *)

Record User := {
  user_id_ : Z;
  username : string;
  email : string;
  full_name : option string;
  bio : option string;
  user_created_at : option string;
}.

Record Category := {
  category_id_ : Z;
  name : string;
  description : option string;
  category_created_at : Z;
  category_updated_at : option Z;
}.

Record Post := {
  post_id_ : Z;
  title : string;
  content : string;
  post_created_at : Z;
  post_updated_at : option Z;
  author_id : Z;
}.

Record PostCategoryLink := {
  link_post_id : Z;
  link_category_id : Z;
}.

Record Like := {
  like_id_ : Z;
  like_created_at : Z;
  reaction : string;
  ip_address : option string;
  user_id : Z;
  post_id : Z;
}.

#[global] Instance User_eq_dec : EqDecision User.
Proof. solve_decision. Defined.
#[global] Instance Category_eq_dec : EqDecision Category.
Proof. solve_decision. Defined.
#[global] Instance Post_eq_dec : EqDecision Post.
Proof. solve_decision. Defined.
#[global] Instance PostCategoryLink_eq_dec : EqDecision PostCategoryLink.
Proof. solve_decision. Defined.
#[global] Instance Like_eq_dec : EqDecision Like.
Proof. solve_decision. Defined.

(** The committed state of the database. *)
Record banco := {
  users : list User;
  categories : list Category;
  posts : list Post;
  links : list PostCategoryLink;
  likes : list Like;
}.

(** *** schemas/*.py.  A field of an update schema is [None] when the
    request did not set it ([exclude_unset]), and [Some v] when it set
    it to [v], which may itself be null. *)

Record UserCreate := {
  uc_username : string;
  uc_email : string;
  uc_full_name : option string;
  uc_bio : option string;
}.


Record PostCreate := {
  pc_title : string;
  pc_content : string;
  pc_author_id : Z;
  pc_category_ids : option (list Z);
}.

Record PostRead := {
  pr_id : Z;
  pr_title : string;
  pr_content : string;
  pr_created_at : Z;
  pr_updated_at : option Z;
  pr_author_id : Z;
  pr_category_ids : list Z;
}.

Record LikeCreate := {
  lc_reaction : string;
  lc_ip_address : option string;
  lc_user_id : Z;
  lc_post_id : Z;
}.

Record LikeUpdate := {
  lu_reaction : option (option string);
  lu_ip_address : option (option string);
}.


(** *** What a route raises *)

Inductive falha :=
  | HTTPException (status_code : Z) (detail : string)
  | IntegrityError (orig : string).

#[global] Instance falha_eq_dec : EqDecision falha.
Proof. solve_decision. Defined.

Inductive retorno (A : Type) :=
  | Retorna (a : A)
  | Levanta (f : falha).
Arguments Retorna {A} a.
Arguments Levanta {A} f.

(** *** The engine *)

(** The key of a new row: one more than the largest key of the table. *)
Definition proximo_id (ids : list Z) : Z := 1 + foldr Z.max 0 ids.

(** The unique indexes of table user.  The engine names in its error
    the first index, in the order it checks them, that a row violates;
    that order is the engine's and is a parameter here. *)
Inductive indice := ix_user_username | ix_user_email.

#[global] Instance indice_eq_dec : EqDecision indice.
Proof. solve_decision. Defined.

Definition coluna (ix : indice) : string :=
  match ix with
  | ix_user_username => "user.username"
  | ix_user_email => "user.email"
  end.

Definition viola (u : User) (outros : list User) (ix : indice) : bool :=
  match ix with
  | ix_user_username => bool_decide (Exists (λ o, username o = username u) outros)
  | ix_user_email => bool_decide (Exists (λ o, email o = email u) outros)
  end.

Definition unique_failed (ordem : list indice) (u : User) (outros : list User)
    : option string :=
  (λ ix, "UNIQUE constraint failed: " +:+ coluna ix) <$>
    (snd <$> list_find (λ ix, viola u outros ix = true) ordem).

(** [needle in haystack] for texts. *)
Fixpoint prefixo (p s : string) : bool :=
  match p, s with
  | EmptyString, _ => true
  | String a p', String b s' => Ascii.eqb a b && prefixo p' s'
  | _, _ => false
  end.

Fixpoint contem (p s : string) : bool :=
  prefixo p s ||
  match s with
  | EmptyString => false
  | String _ s' => contem p s'
  end.

(** [session.get(Model, id)]: the row with that key.  An update or a
    delete then acts on the row that was loaded. *)
Definition get_user (db : banco) (i : Z) : option User :=
  snd <$> list_find (λ u, user_id_ u = i) (users db).
Definition get_post (db : banco) (i : Z) : option Post :=
  snd <$> list_find (λ p, post_id_ p = i) (posts db).
Definition get_like (db : banco) (i : Z) : option Like :=
  snd <$> list_find (λ l, like_id_ l = i) (likes db).

Definition com_users (us : list User) (db : banco) : banco :=
  {| users := us; categories := categories db; posts := posts db;
     links := links db; likes := likes db |}.
Definition com_posts (ps : list Post) (db : banco) : banco :=
  {| users := users db; categories := categories db; posts := ps;
     links := links db; likes := likes db |}.
Definition com_links (ls : list PostCategoryLink) (db : banco) : banco :=
  {| users := users db; categories := categories db; posts := posts db;
     links := ls; likes := likes db |}.
Definition com_likes (ls : list Like) (db : banco) : banco :=
  {| users := users db; categories := categories db; posts := posts db;
     links := links db; likes := ls |}.

(** *** routers/user.py *)

Section user.
Context (ordem : list indice).

Definition create_user (user : UserCreate) (db : banco) : retorno User * banco :=
  let db_user :=
    {| user_id_ := proximo_id (user_id_ <$> users db);
       username := uc_username user; email := uc_email user;
       full_name := uc_full_name user; bio := uc_bio user;
       user_created_at := None |} in
  match unique_failed ordem db_user (users db) with
  | None => (Retorna db_user, com_users (users db ++ [db_user]) db)
  | Some orig =>
      if contem "UNIQUE constraint failed: user.email" orig
      then (Levanta (HTTPException 400 "Email is already in use."), db)
      else if contem "UNIQUE constraint failed: user.username" orig
      then (Levanta (HTTPException 400 "Username is already in use."), db)
      else (Levanta (HTTPException 500 "Internal error creating user."), db)
  end.

Definition read_user (i : Z) (db : banco) : retorno User * banco :=
  match get_user db i with
  | None => (Levanta (HTTPException 404 "User not found"), db)
  | Some user => (Retorna user, db)
  end.

(** [for key, value in user_data.items(): setattr(user, key, value)];
    a column that is not nullable holds [None] until the commit
    refuses it. *)
Definition setattr {A} (novo : option A) (antigo : A) : A :=
  from_option (λ v, v) antigo novo.


End user.

(** *** routers/like.py *)

Definition create_like (agora : Z) (like : LikeCreate) (db : banco)
    : retorno Like * banco :=
  match get_user db (lc_user_id like) with
  | None => (Levanta (HTTPException 404 "User not found"), db)
  | Some _ =>
      match get_post db (lc_post_id like) with
      | None => (Levanta (HTTPException 404 "Post not found"), db)
      | Some _ =>
          match list_find (λ l, user_id l = lc_user_id like ∧ post_id l = lc_post_id like)
                  (likes db) with
          | Some _ => (Levanta (HTTPException 400 "This like already exists"), db)
          | None =>
              let db_like :=
                {| like_id_ := proximo_id (like_id_ <$> likes db);
                   like_created_at := agora;
                   reaction := lc_reaction like; ip_address := lc_ip_address like;
                   user_id := lc_user_id like; post_id := lc_post_id like |} in
              (Retorna db_like, com_likes (likes db ++ [db_like]) db)
          end
      end
  end.

Definition read_like (like_id : Z) (db : banco) : retorno Like * banco :=
  match get_like db like_id with
  | None => (Levanta (HTTPException 404 "Like not found"), db)
  | Some like => (Retorna like, db)
  end.

Definition update_like (like_id : Z) (like_update : LikeUpdate) (db : banco)
    : retorno Like * banco :=
  match list_find (λ l, like_id_ l = like_id) (likes db) with
  | None => (Levanta (HTTPException 404 "Like not found"), db)
  | Some (k, like) =>
      match setattr (lu_reaction like_update) (Some (reaction like)) with
      | None => (Levanta (IntegrityError "NOT NULL constraint failed: like.reaction"), db)
      | Some r =>
          let like' :=
            {| like_id_ := like_id_ like; like_created_at := like_created_at like;
               reaction := r;
               ip_address := setattr (lu_ip_address like_update) (ip_address like);
               user_id := user_id like; post_id := post_id like |} in
          (Retorna like', com_likes (<[k := like']> (likes db)) db)
      end
  end.

Definition delete_like (like_id : Z) (db : banco) : retorno unit * banco :=
  match list_find (λ l, like_id_ l = like_id) (likes db) with
  | None => (Levanta (HTTPException 404 "Like not found"), db)
  | Some (k, _) => (Retorna tt, com_likes (delete k (likes db)) db)
  end.

(** *** routers/category.py *)



(** *** routers/post.py *)

(** [str(l)] for a list of ints. *)
Fixpoint join (sep : string) (l : list string) : string :=
  match l with
  | [] => ""
  | [s] => s
  | s :: r => s +:+ sep +:+ join sep r
  end.

Definition str_lista (l : list Z) : string :=
  "[" +:+ join ", " (str_int <$> l) +:+ "]".

(** [PostRead.from_orm_with_categories]: the categories of the post are
    those the link table joins to it. *)
Definition from_orm_with_categories (db : banco) (p : Post) : PostRead :=
  {| pr_id := post_id_ p; pr_title := title p; pr_content := content p;
     pr_created_at := post_created_at p; pr_updated_at := post_updated_at p;
     pr_author_id := author_id p;
     pr_category_ids :=
       category_id_ <$>
         filter (λ c, {| link_post_id := post_id_ p; link_category_id := category_id_ c |}
                        ∈ links db) (categories db) |}.

Definition create_post (agora : Z) (post : PostCreate) (db : banco)
    : retorno PostRead * banco :=
  match pc_category_ids post with
  | None | Some [] =>
      (Levanta (HTTPException 400 "At least one category must be provided."), db)
  | Some category_ids =>
      match list_find (λ u, user_id_ u = pc_author_id post) (users db) with
      | None => (Levanta (HTTPException 404 "Author not found"), db)
      | Some _ =>
          match list_find (λ p, title p = pc_title post ∧ author_id p = pc_author_id post)
                  (posts db) with
          | Some _ =>
              (Levanta (HTTPException 400
                 "A post with this title already exists for this author."), db)
          | None =>
              let cats := filter (λ c, category_id_ c ∈ category_ids) (categories db) in
              let found_ids : gset Z := list_to_set (category_id_ <$> cats) in
              let missing_ids : gset Z := list_to_set category_ids ∖ found_ids in
              if bool_decide (missing_ids ≠ ∅)
              then
                (Levanta (HTTPException 404
                   ("Categories not found: " +:+
                      str_lista (merge_sort Z.le (elements missing_ids)))), db)
              else
                let db_post :=
                  {| post_id_ := proximo_id (post_id_ <$> posts db);
                     title := pc_title post; content := pc_content post;
                     post_created_at := agora; post_updated_at := None;
                     author_id := pc_author_id post |} in
                let db1 := com_posts (posts db ++ [db_post]) db in
                let novos :=
                  (λ c, {| link_post_id := post_id_ db_post; link_category_id := c |})
                    <$> category_ids in
                if bool_decide (NoDup novos ∧ Forall (λ l, l ∉ links db) novos)
                then
                  let db2 := com_links (links db ++ novos) db1 in
                  (Retorna (from_orm_with_categories db2 db_post), db2)
                else
                  (Levanta (IntegrityError
                     "UNIQUE constraint failed: postcategorylink.post_id, postcategorylink.category_id"),
                   db1)
          end
      end
  end.

End Blog.

(** ** Concrete tables, and sequences of like operations *)

Module BlogCasos.
Import Py Blog.

Definition bia : User :=
  {| user_id_ := 1; username := "bia"; email := "bia@example.com";
     full_name := Some "Bia Lima"; bio := None; user_created_at := None |}.

Definition receitas : Category :=
  {| category_id_ := 1; name := "receitas"; description := None;
     category_created_at := 10; category_updated_at := None |}.

Definition bolo : Post :=
  {| post_id_ := 1; title := "Bolo"; content := "Farinha e ovos.";
     post_created_at := 20; post_updated_at := None; author_id := 1 |}.

Definition db_vazio : banco :=
  {| users := []; categories := []; posts := []; links := []; likes := [] |}.

(** One category and no user. *)
Definition db_sem_autor : banco :=
  {| users := []; categories := [receitas]; posts := []; links := []; likes := [] |}.

(** One user, one category, one post of that user in that category. *)
Definition db_blog : banco :=
  {| users := [bia]; categories := [receitas]; posts := [bolo];
     links := [{| link_post_id := 1; link_category_id := 1 |}]; likes := [] |}.

Definition pedido (titulo : string) (autor : Z) (cats : list Z) : PostCreate :=
  {| pc_title := titulo; pc_content := "..."; pc_author_id := autor;
     pc_category_ids := Some cats |}.

Definition curtida (u p : Z) : LikeCreate :=
  {| lc_reaction := "like"; lc_ip_address := None; lc_user_id := u; lc_post_id := p |}.

Definition cadastro (u e : string) : UserCreate :=
  {| uc_username := u; uc_email := e; uc_full_name := None; uc_bio := None |}.

Inductive operacao :=
  | Criar (agora : Z) (like : LikeCreate)
  | Ler (like_id : Z)
  | Atualizar (like_id : Z) (like_update : LikeUpdate)
  | Apagar (like_id : Z).

(** The database after one operation, whatever it answered. *)
Definition executar (db : banco) (op : operacao) : banco :=
  match op with
  | Criar agora like => snd (create_like agora like db)
  | Ler like_id => snd (read_like like_id db)
  | Atualizar like_id like_update => snd (update_like like_id like_update db)
  | Apagar like_id => snd (delete_like like_id db)
  end.

Definition executar_todas (ops : list operacao) (db : banco) : banco :=
  foldl executar db ops.

Definition par (l : Like) : Z * Z := (user_id l, post_id l).

(** No two likes of the table have the same (user, post) pair. *)
Definition pares_unicos (db : banco) : Prop := NoDup (par <$> likes db).

(** The ids of a request that name no stored category. *)
Definition ausentes (ids : list Z) (db : banco) : gset Z :=
  list_to_set ids
    ∖ list_to_set (category_id_ <$> filter (λ c, category_id_ c ∈ ids) (categories db)).

(** The message of create_user for the unique index that the engine
    names. *)
Definition em_uso (ix : indice) : string :=
  match ix with
  | ix_user_email => "Email is already in use."
  | ix_user_username => "Username is already in use."
  end.

End BlogCasos.

(** ** The rest of database.py and main.py: counts, filters and the
    endpoints of the loans *)

Module Rotas.
Import Py Models Database Main.

(** [contar_entidades]: the number of records of the file, whether or
    not they validate. *)
Definition contar_entidades (ent : entidade) : M nat :=
  dados ← ler_csv ent;
  ret (length dados).

(** [if x:] for an optional int of a query string. *)
Definition verdadeiro (x : option Z) : bool :=
  match x with
  | Some z => negb (z =? 0)
  | None => false
  end.

Section rotas.
Context (amb : ambiente).

(** POST /emprestimos/. *)
Definition criar_emprestimo (emprestimo : Emprestimo)
    : disco → resposta Emprestimo * disco :=
  λ d, match Database.criar_emprestimo amb emprestimo d with
       | (Ok emprestimo_criado, d') => (Resposta 201 emprestimo_criado, d')
       | (Erro (ValueError m), d') => (HTTPException 400 m, d')
       | (Erro _, d') => (HTTPException 500 "Internal Server Error", d')
       end.

(** DELETE /emprestimos/{emprestimo_id}: no exception is caught. *)
Definition remover_emprestimo (emprestimo_id : Z) : disco → resposta unit * disco :=
  λ d, match deletar_emprestimo amb emprestimo_id d with
       | (Ok true, d') => (Resposta 204 tt, d')
       | (Ok false, d') =>
           (HTTPException 404
              ("Empréstimo com ID " +:+ str_int emprestimo_id +:+ " não encontrado"), d')
       | (Erro _, d') => (HTTPException 500 "Internal Server Error", d')
       end.

(** GET /emprestimos/filtrar/. *)
Definition filtrar_emprestimos (jogo_id_q amigo_id_q : option Z) : M (list Emprestimo) :=
  es ← carregar_emprestimos amb;
  let es :=
    if verdadeiro jogo_id_q
    then filter (λ e, Some (jogo_id e) = jogo_id_q) es else es in
  let es :=
    if verdadeiro amigo_id_q
    then filter (λ e, Some (amigo_id e) = amigo_id_q) es else es in
  ret es.

End rotas.

End Rotas.

(** ** The shape of a file that the generic operations keep *)

Module Invariantes.
Import Py Models Database Leitura.

(** Rectangular, with an id in every record, and no id twice. *)
Definition bem_formado (campos : list string) (ls : list (gmap string string)) : Prop :=
  retangular campos ls ∧ ids_ok ls ∧ NoDup (ids ls).

End Invariantes.

(** ** Further stores, and what a call leaves untouched *)

Module Casos.
Import Py Models Database Leitura Exemplos.

(** A games file in which the id of the second record is not a number. *)
Definition d_id_ilegivel : disco :=
  {| arq_jogos := [linha (zelda true); <["id" := "x1"]> (linha (doom true))];
     arq_amigos := []; arq_emprestimos := []; escritas := [] |}.

(** A games file whose second record carries a year that no Jogo accepts. *)
Definition d_ano_invalido : disco :=
  {| arq_jogos := [linha (zelda true); <["ano_lancamento" := "1900"]> (linha (doom true))];
     arq_amigos := []; arq_emprestimos := []; escritas := [] |}.

End Casos.

Module Quadro.
Import Py Models Database.

(** A call that leaves the file of an entity as it found it, whatever
    it answers. *)
Definition preserva {A} (ent : entidade) (m : M A) : Prop :=
  ∀ d, arquivo ent (m d).2 = arquivo ent d.

End Quadro.

(** ** Project_2/blog: the comments, and the update of a post *)

Module Comentarios.
Import Py Blog.

(** models/comment.py *)
Record Comment := {
  comment_id_ : Z;
  content : string;
  created_at : Z;
  post_id : Z;
  author_id : Z;
}.

#[global] Instance Comment_eq_dec : EqDecision Comment.
Proof. solve_decision. Defined.

(** The committed state with the table of the comments, which the
    routes of users, posts and likes neither read nor write. *)
Record estado := {
  tabelas : banco;
  comments : list Comment;
}.

Definition com_comments (cs : list Comment) (st : estado) : estado :=
  {| tabelas := tabelas st; comments := cs |}.

(** schemas/comment.py *)
Record CommentCreate := {
  cc_content : string;
  cc_post_id : Z;
  cc_author_id : Z;
}.

Record CommentUpdate := {
  cu_content : option (option string);
}.

(** routers/comment.py *)

Definition msg_duplicado : string :=
  "Duplicate comment content by the same user on this post is not allowed.".

Definition create_comment (agora : Z) (comment : CommentCreate) (st : estado)
    : retorno Comment * estado :=
  match get_post (tabelas st) (cc_post_id comment) with
  | None => (Levanta (HTTPException 404 "Post not found"), st)
  | Some _ =>
      match get_user (tabelas st) (cc_author_id comment) with
      | None => (Levanta (HTTPException 404 "Author not found"), st)
      | Some _ =>
          match list_find (λ c, post_id c = cc_post_id comment
                                ∧ author_id c = cc_author_id comment
                                ∧ content c = cc_content comment) (comments st) with
          | Some _ => (Levanta (HTTPException 400 msg_duplicado), st)
          | None =>
              let db_comment :=
                {| comment_id_ := proximo_id (comment_id_ <$> comments st);
                   content := cc_content comment; created_at := agora;
                   post_id := cc_post_id comment; author_id := cc_author_id comment |} in
              (Retorna db_comment, com_comments (comments st ++ [db_comment]) st)
          end
      end
  end.

Definition read_comment (comment_id : Z) (st : estado) : retorno Comment * estado :=
  match list_find (λ c, comment_id_ c = comment_id) (comments st) with
  | None => (Levanta (HTTPException 404 "Comment not found"), st)
  | Some (_, comment) => (Retorna comment, st)
  end.

(** [if new_content and new_content != comment.content]: a content that
    is not set, null or empty is not compared with the stored comments. *)
Definition update_comment (comment_id : Z) (comment_update : CommentUpdate) (st : estado)
    : retorno Comment * estado :=
  match list_find (λ c, comment_id_ c = comment_id) (comments st) with
  | None => (Levanta (HTTPException 404 "Comment not found"), st)
  | Some (k, comment) =>
      let new_content := mjoin (cu_content comment_update) in
      let existing_comment :=
        match new_content with
        | Some nc =>
            if bool_decide (nc ≠ "" ∧ nc ≠ content comment)
            then list_find (λ c, post_id c = post_id comment
                                 ∧ author_id c = author_id comment
                                 ∧ content c = nc) (comments st)
            else None
        | None => None
        end in
      match existing_comment with
      | Some _ => (Levanta (HTTPException 400 msg_duplicado), st)
      | None =>
          match setattr (cu_content comment_update) (Some (content comment)) with
          | None =>
              (Levanta (IntegrityError "NOT NULL constraint failed: comment.content"), st)
          | Some c =>
              let comment' :=
                {| comment_id_ := comment_id_ comment; content := c;
                   created_at := created_at comment; post_id := post_id comment;
                   author_id := author_id comment |} in
              (Retorna comment', com_comments (<[k := comment']> (comments st)) st)
          end
      end
  end.

Definition delete_comment (comment_id : Z) (st : estado) : retorno unit * estado :=
  match list_find (λ c, comment_id_ c = comment_id) (comments st) with
  | None => (Levanta (HTTPException 404 "Comment not found"), st)
  | Some (k, _) => (Retorna tt, com_comments (delete k (comments st)) st)
  end.

End Comentarios.

Module ComentariosCasos.
Import Py Blog BlogCasos Comentarios.

(** The blog of [db_blog] with no comment yet. *)
Definition st_blog : estado := {| tabelas := db_blog; comments := [] |}.

Definition comentario (texto : string) (p a : Z) : CommentCreate :=
  {| cc_content := texto; cc_post_id := p; cc_author_id := a |}.

Definition novo_texto (texto : string) : CommentUpdate :=
  {| cu_content := Some (Some texto) |}.

Inductive operacao_c :=
  | CriarC (agora : Z) (comment : CommentCreate)
  | LerC (comment_id : Z)
  | AtualizarC (comment_id : Z) (comment_update : CommentUpdate)
  | ApagarC (comment_id : Z).

(** The state after one operation, whatever it answered. *)
Definition executar_c (st : estado) (op : operacao_c) : estado :=
  match op with
  | CriarC agora comment => snd (create_comment agora comment st)
  | LerC comment_id => snd (read_comment comment_id st)
  | AtualizarC comment_id comment_update => snd (update_comment comment_id comment_update st)
  | ApagarC comment_id => snd (delete_comment comment_id st)
  end.

Definition executar_todas_c (ops : list operacao_c) (st : estado) : estado :=
  foldl executar_c st ops.

Definition triplo (c : Comment) : Z * Z * string := (post_id c, author_id c, content c).

(** No two comments of the table have the same post, author and content. *)
Definition triplos_unicos (st : estado) : Prop := NoDup (triplo <$> comments st).

(** An operation that does not set the content of a comment to the
    empty text. *)
Definition sem_texto_vazio (op : operacao_c) : Prop :=
  match op with
  | AtualizarC _ comment_update => cu_content comment_update ≠ Some (Some "")
  | _ => True
  end.

End ComentariosCasos.

Module Postagens.
Import Py Blog.

(** schemas/post.py: [category_ids] is [None] when the request sets it
    to null, and the list it gives otherwise; a request that leaves it out
    gets the default of the schema, the empty list. *)
Record PostUpdate := {
  pu_title : option (option string);
  pu_content : option (option string);
  pu_category_ids : option (list Z);
  pu_updated_at : option (option Z);
}.

Definition msg_link_repetido : string :=
  "UNIQUE constraint failed: postcategorylink.post_id, postcategorylink.category_id".

(** The column of table post that refuses a null, if any. *)
Definition nao_nulo (title' content' : option string) : option string :=
  match title', content' with
  | None, _ => Some "NOT NULL constraint failed: post.title"
  | _, None => Some "NOT NULL constraint failed: post.content"
  | _, _ => None
  end.

Section sessao.
(** The session is built by core/dependencies.py: whether it flushes the
    pending UPDATE of the post before a query, and whether its flush
    issues that UPDATE before the INSERTs of the links, are parameters. *)
Context (autoflush post_primeiro : bool).

(** [session.commit()]: the first statement that the engine refuses. *)
Definition commit (nulo : option string) (repetido : bool) : option string :=
  match nulo, repetido with
  | None, false => None
  | Some m, false => Some m
  | None, true => Some msg_link_repetido
  | Some m, true => Some (if post_primeiro then m else msg_link_repetido)
  end.

(** PUT /posts/{post_id}.  Nothing is committed before the end, so a
    request that raises leaves the tables as they were. *)
Definition update_post (post_id : Z) (post_update : PostUpdate) (db : banco)
    : retorno PostRead * banco :=
  match list_find (λ p, post_id_ p = post_id) (posts db) with
  | None => (Levanta (HTTPException 404 "Post not found"), db)
  | Some (k, post) =>
      let title' := setattr (pu_title post_update) (Some (title post)) in
      let content' := setattr (pu_content post_update) (Some (content post)) in
      let nulo := nao_nulo title' content' in
      let post' :=
        {| post_id_ := post_id_ post; title := default "" title';
           content := default "" content';
           post_created_at := post_created_at post;
           post_updated_at := setattr (pu_updated_at post_update) (post_updated_at post);
           author_id := author_id post |} in
      let encerrar (ls : list PostCategoryLink) (repetido : bool) :=
        match commit nulo repetido with
        | Some orig => (Levanta (IntegrityError orig), db)
        | None =>
            let db' := com_links ls (com_posts (<[k := post']> (posts db)) db) in
            (Retorna (from_orm_with_categories db' post'), db')
        end in
      match pu_category_ids post_update with
      | None => encerrar (links db) false
      | Some category_ids =>
          match (if autoflush then nulo else None) with
          | Some orig => (Levanta (IntegrityError orig), db)
          | None =>
              let cats := filter (λ c, category_id_ c ∈ category_ids) (categories db) in
              let found_ids : gset Z := list_to_set (category_id_ <$> cats) in
              let missing_ids : gset Z := list_to_set category_ids ∖ found_ids in
              if bool_decide (missing_ids ≠ ∅)
              then
                (Levanta (HTTPException 404
                   ("Categories not found: " +:+
                      str_lista (merge_sort Z.le (elements missing_ids)))), db)
              else
                let novos :=
                  (λ c, {| link_post_id := post_id; link_category_id := c |})
                    <$> category_ids in
                encerrar (filter (λ l, link_post_id l ≠ post_id) (links db) ++ novos)
                         (negb (bool_decide (NoDup novos)))
          end
      end
  end.

End sessao.

End Postagens.

Module PostagensCasos.
Import Py Blog BlogCasos Postagens.

(** A request that sets the title only. *)
Definition so_titulo (t : string) : PostUpdate :=
  {| pu_title := Some (Some t); pu_content := None; pu_category_ids := Some [];
     pu_updated_at := None |}.

(** A request that sets the categories only. *)
Definition so_categorias (cs : list Z) : PostUpdate :=
  {| pu_title := None; pu_content := None; pu_category_ids := Some cs;
     pu_updated_at := None |}.

End PostagensCasos.

(** * Properties *)

Ltac decidir := apply (bool_decide_unpack _); vm_compute; exact I.

(** ** The conversions between ints and their text *)

Module PyFacts.
Import Py.

Lemma so_digitos_string_of_uint d : so_digitos (NilEmpty.string_of_uint d) = true.
Proof. induction d; simpl; auto. Qed.

Lemma digito_nao_espaco a :
  Nat.leb 48 (nat_of_ascii a) && Nat.leb (nat_of_ascii a) 57 = true →
  espaco a = false ∧ Ascii.eqb a "_" = false ∧ Ascii.eqb a "-" = false
  ∧ Ascii.eqb a "+" = false.
Proof.
  destruct a as [[|] [|] [|] [|] [|] [|] [|] [|]]; vm_compute; intuition congruence.
Qed.

Lemma lstrip_digitos s : so_digitos s = true → lstrip s = s.
Proof.
  destruct s as [|a r]; simpl; [done|].
  intros [Ha _]%andb_prop. by destruct (digito_nao_espaco a Ha) as [-> _].
Qed.

Lemma rstrip_digitos s : so_digitos s = true → rstrip s = s.
Proof.
  induction s as [|a r IH]; simpl; [done|].
  intros [Ha Hr]%andb_prop. rewrite (IH Hr).
  destruct (digito_nao_espaco a Ha) as [-> _]. by destruct r.
Qed.

Lemma sem_sublinhados_digitos s ant :
  so_digitos s = true → s ≠ EmptyString ∨ ant = true →
  sem_sublinhados ant s = Some s.
Proof.
  revert ant. induction s as [|a r IH]; simpl; intros ant Hs Hne.
  - destruct Hne as [?| ->]; done.
  - apply andb_prop in Hs as [Ha Hr].
    destruct (digito_nao_espaco a Ha) as (_ & -> & _).
    rewrite (IH true Hr); [done | by right].
Qed.

Lemma int_digitos_to_uint p :
  int_digitos (NilEmpty.string_of_uint (Pos.to_uint p)) = Some (Z.pos p).
Proof.
  unfold int_digitos.
  rewrite sem_sublinhados_digitos.
  - simpl. rewrite NilEmpty.usu. simpl. unfold Z.of_uint.
    by rewrite DecimalPos.Unsigned.of_to.
  - apply so_digitos_string_of_uint.
  - left. intros H. apply (DecimalPos.Unsigned.to_uint_nonnil p).
    destruct (Pos.to_uint p); simpl in H; congruence.
Qed.

Lemma string_of_uint_to_uint p :
  ∃ a r, NilEmpty.string_of_uint (Pos.to_uint p) = String a r
         ∧ Nat.leb 48 (nat_of_ascii a) && Nat.leb (nat_of_ascii a) 57 = true.
Proof.
  pose proof (so_digitos_string_of_uint (Pos.to_uint p)) as Hd.
  destruct (NilEmpty.string_of_uint (Pos.to_uint p)) as [|a r] eqn:E.
  - exfalso. apply (DecimalPos.Unsigned.to_uint_nonnil p).
    destruct (Pos.to_uint p); simpl in E; congruence.
  - simpl in Hd. apply andb_prop in Hd as [Ha _]. eauto.
Qed.

Lemma strip_pos p :
  strip (NilEmpty.string_of_uint (Pos.to_uint p))
  = NilEmpty.string_of_uint (Pos.to_uint p).
Proof.
  unfold strip.
  by rewrite lstrip_digitos, rstrip_digitos by apply so_digitos_string_of_uint.
Qed.

Lemma strip_neg p :
  strip (String "-" (NilEmpty.string_of_uint (Pos.to_uint p)))
  = String "-" (NilEmpty.string_of_uint (Pos.to_uint p)).
Proof.
  unfold strip.
  change (lstrip (String "-" ?s)) with (String "-" s).
  cbn [rstrip]. rewrite rstrip_digitos by apply so_digitos_string_of_uint.
  by destruct (string_of_uint_to_uint p) as (a & r & -> & _).
Qed.

(** Reading back the text of an int gives the int. *)
Lemma int_str_str_int z : int_str (str_int z) = Some z.
Proof.
  destruct z as [|p|p]; [done| |]; unfold int_str, str_int; cbn [Z.to_int NilEmpty.string_of_int].
  - rewrite strip_pos.
    pose proof (int_digitos_to_uint p) as Hi.
    destruct (string_of_uint_to_uint p) as (a & r & E & Ha).
    rewrite E in Hi |- *.
    destruct (digito_nao_espaco a Ha) as (_ & _ & Hm & Hp).
    destruct a as [[|] [|] [|] [|] [|] [|] [|] [|]]; done.
  - rewrite strip_neg. by rewrite int_digitos_to_uint.
Qed.

Lemma str_int_nao_vazio z : str_int z ≠ EmptyString.
Proof.
  intros H. pose proof (int_str_str_int z) as Hi. rewrite H in Hi. done.
Qed.

Lemma str_int_inj z1 z2 : str_int z1 = str_int z2 → z1 = z2.
Proof.
  intros H. pose proof (int_str_str_int z1) as H1.
  rewrite H, int_str_str_int in H1. congruence.
Qed.

Lemma lower_str_bool b : bool_decide (lower (str_bool b) = "true") = b.
Proof. by destruct b. Qed.

Lemma str_bool_nao_vazio b : str_bool b ≠ EmptyString.
Proof. by destruct b. Qed.

(** *** The translation of newlines by a text-mode read *)

Lemma traduzir_sem_cr cr s : contem_char CR (traduzir cr s) = false.
Proof.
  revert cr. induction s as [|a r IH]; intros cr; simpl; [done|].
  destruct (Ascii.eqb a CR) eqn:Ea; simpl; [by rewrite IH|].
  destruct (Ascii.eqb a LF) eqn:El; simpl.
  - destruct cr; simpl; by rewrite IH.
  - by rewrite Ea, IH.
Qed.

Lemma traduzir_id s : contem_char CR s = false → traduzir false s = s.
Proof.
  induction s as [|a r IH]; simpl; [done|].
  intros [Ha Hr]%orb_false_elim. rewrite Ha.
  destruct (Ascii.eqb a LF) eqn:El.
  - apply Ascii.eqb_eq in El as ->. by rewrite IH.
  - by rewrite IH.
Qed.

Lemma universal_newlines_idemp s :
  universal_newlines (universal_newlines s) = universal_newlines s.
Proof. apply traduzir_id, traduzir_sem_cr. Qed.

Lemma traduzir_sem_lf cr s :
  contem_char LF (traduzir cr s) = false → contem_char CR s = false.
Proof.
  revert cr. induction s as [|a r IH]; intros cr; simpl; [done|].
  destruct (Ascii.eqb a CR) eqn:Ea; simpl; [done|].
  destruct (Ascii.eqb a LF) eqn:El; simpl.
  - destruct cr; simpl; [apply IH|done].
  - rewrite El. simpl. apply IH.
Qed.

Lemma length_traduzir cr s : (String.length (traduzir cr s) ≤ String.length s)%nat.
Proof.
  revert cr. induction s as [|a r IH]; intros cr; simpl; [done|].
  destruct (Ascii.eqb a CR); simpl; [specialize (IH true); lia|].
  destruct (Ascii.eqb a LF); simpl.
  - destruct cr; simpl; specialize (IH false); lia.
  - specialize (IH false); lia.
Qed.


Lemma length_universal_newlines s :
  (String.length (universal_newlines s) ≤ String.length s)%nat.
Proof. apply length_traduzir. Qed.

Lemma espaco_CR_LF a :
  Ascii.eqb a CR = true ∨ Ascii.eqb a LF = true → espaco a = true.
Proof. intros [->%Ascii.eqb_eq| ->%Ascii.eqb_eq]; done. Qed.

Lemma lstrip_traduzir cr s : lstrip (traduzir cr s) = traduzir false (lstrip s).
Proof.
  revert cr. induction s as [|a r IH]; intros cr; simpl; [done|].
  destruct (Ascii.eqb a CR) eqn:Ea.
  { rewrite (espaco_CR_LF a) by auto. simpl. apply IH. }
  destruct (Ascii.eqb a LF) eqn:El.
  { rewrite (espaco_CR_LF a) by auto. destruct cr; simpl; apply IH. }
  simpl. destruct (espaco a); [apply IH|]. simpl. by rewrite Ea, El.
Qed.

Lemma rstrip_vazio s : rstrip s = EmptyString ↔ tem_texto s = false.
Proof.
  induction s as [|a r IH]; simpl; [done|].
  destruct (rstrip r) as [|b r'] eqn:Er.
  - destruct (espaco a); simpl; [tauto|]. split; [done|done].
  - split; [done|]. intros [_ Hr]%orb_false_elim. apply IH in Hr. done.
Qed.

Lemma tem_texto_traduzir cr s : tem_texto (traduzir cr s) = tem_texto s.
Proof.
  revert cr. induction s as [|a r IH]; intros cr; simpl; [done|].
  destruct (Ascii.eqb a CR) eqn:Ea.
  { rewrite (espaco_CR_LF a) by auto. simpl. apply IH. }
  destruct (Ascii.eqb a LF) eqn:El.
  { rewrite (espaco_CR_LF a) by auto. destruct cr; simpl; apply IH. }
  simpl. by rewrite IH.
Qed.

Lemma rstrip_cons a r :
  rstrip (String a r)
  = if tem_texto r then String a (rstrip r)
    else if espaco a then EmptyString else String a EmptyString.
Proof.
  simpl. destruct (tem_texto r) eqn:Et.
  - destruct (rstrip r) eqn:Er; [|done].
    apply rstrip_vazio in Er. congruence.
  - apply rstrip_vazio in Et. by rewrite Et.
Qed.

Lemma traduzir_sem_texto cr s : tem_texto s = false → rstrip (traduzir cr s) = EmptyString.
Proof. intros H. apply rstrip_vazio. by rewrite tem_texto_traduzir. Qed.

Lemma rstrip_traduzir cr s : rstrip (traduzir cr s) = traduzir cr (rstrip s).
Proof.
  revert cr. induction s as [|a r IH]; intros cr; [done|].
  rewrite (rstrip_cons a r). cbn [traduzir].
  destruct (Ascii.eqb a CR) eqn:Ea.
  { rewrite rstrip_cons, tem_texto_traduzir. rewrite (espaco_CR_LF a) by auto.
    destruct (tem_texto r); [|done]. cbn [traduzir]. rewrite Ea. by rewrite IH. }
  destruct (Ascii.eqb a LF) eqn:El.
  { rewrite (espaco_CR_LF a) by auto. destruct cr.
    - destruct (tem_texto r) eqn:Et.
      + cbn [traduzir]. rewrite Ea, El. apply IH.
      + by apply traduzir_sem_texto.
    - rewrite rstrip_cons, tem_texto_traduzir.
      destruct (tem_texto r); [|done]. cbn [traduzir]. rewrite Ea, El. by rewrite IH. }
  rewrite rstrip_cons, tem_texto_traduzir.
  destruct (tem_texto r).
  - cbn [traduzir]. rewrite Ea, El. by rewrite IH.
  - destruct (espaco a); [done|]. cbn [traduzir]. by rewrite Ea, El.
Qed.

Lemma strip_universal_newlines s :
  strip (universal_newlines s) = universal_newlines (strip s).
Proof. unfold strip, universal_newlines. by rewrite lstrip_traduzir, rstrip_traduzir. Qed.

Lemma uint_of_string_digitos d u :
  NilEmpty.uint_of_string d = Some u → so_digitos d = true.
Proof.
  revert u. induction d as [|a r IH]; intros u; simpl; [done|].
  destruct (NilEmpty.uint_of_string r) as [u'|] eqn:Er.
  - rewrite (IH u' eq_refl), andb_true_r.
    destruct a as [[|] [|] [|] [|] [|] [|] [|] [|]]; simpl; done.
  - destruct a as [[|] [|] [|] [|] [|] [|] [|] [|]]; simpl; done.
Qed.

Lemma sem_sublinhados_contem c ant s d :
  Ascii.eqb c "_" = false →
  sem_sublinhados ant s = Some d → contem_char c s = contem_char c d.
Proof.
  intros Hc. revert ant d. induction s as [|a r IH]; intros ant d; simpl.
  - destruct ant; [|done]. by intros [= <-].
  - destruct (Ascii.eqb a "_") eqn:Ea.
    + apply Ascii.eqb_eq in Ea as ->. rewrite Ascii.eqb_sym, Hc. simpl.
      destruct ant; [apply IH|done].
    + destruct (sem_sublinhados true r) as [d'|] eqn:Er; [|done].
      intros [= <-]. simpl. by rewrite (IH true d').
Qed.

Lemma so_digitos_contem c d :
  Nat.leb 48 (nat_of_ascii c) && Nat.leb (nat_of_ascii c) 57 = false →
  so_digitos d = true → contem_char c d = false.
Proof.
  intros Hc. induction d as [|a r IH]; [done|]. cbn [so_digitos contem_char].
  intros [Ha Hr]%andb_prop. rewrite IH, orb_false_r by done.
  destruct (Ascii.eqb a c) eqn:E; [|done]. apply Ascii.eqb_eq in E. subst a.
  rewrite Hc in Ha. done.
Qed.

Lemma int_digitos_contem c s z :
  Nat.leb 48 (nat_of_ascii c) && Nat.leb (nat_of_ascii c) 57 = false →
  Ascii.eqb c "_" = false →
  int_digitos s = Some z → contem_char c s = false.
Proof.
  intros Hd Hu. unfold int_digitos.
  destruct (sem_sublinhados false s) as [d|] eqn:Es; [|done]. simpl.
  destruct (NilEmpty.uint_of_string d) as [u|] eqn:Eu; [|done]. intros _.
  rewrite (sem_sublinhados_contem c false s d Hu Es).
  apply so_digitos_contem; [done|]. by eapply uint_of_string_digitos.
Qed.

Lemma int_digitos_universal_newlines s :
  int_digitos (universal_newlines s) = int_digitos s.
Proof.
  destruct (int_digitos s) as [z|] eqn:E.
  - apply (int_digitos_contem CR) in E as Hc; [|done|done].
    unfold universal_newlines. by rewrite traduzir_id.
  - destruct (int_digitos (universal_newlines s)) as [z|] eqn:E'; [|done].
    apply (int_digitos_contem LF) in E' as Hc; [|done|done].
    apply traduzir_sem_lf in Hc. unfold universal_newlines in E'.
    rewrite traduzir_id in E' by done. congruence.
Qed.

(** [int()] reads the same int in a text and in its translation. *)
Lemma int_str_universal_newlines s : int_str (universal_newlines s) = int_str s.
Proof.
  unfold int_str. rewrite strip_universal_newlines.
  destruct (strip s) as [|a r]; [done|].
  pose proof (int_digitos_universal_newlines r) as Hr.
  pose proof (int_digitos_universal_newlines (String a r)) as Har.
  unfold universal_newlines in *.
  destruct a as [[|] [|] [|] [|] [|] [|] [|] [|]];
    cbn -[int_digitos] in *; first [exact Har | by rewrite Hr].
Qed.

Lemma str_int_sem_cr z : contem_char CR (str_int z) = false.
Proof.
  destruct z as [|p|p]; [done| |]; unfold str_int; cbn [Z.to_int NilEmpty.string_of_int].
  - apply so_digitos_contem; [done|]. apply so_digitos_string_of_uint.
  - simpl. apply so_digitos_contem; [done|]. apply so_digitos_string_of_uint.
Qed.

Lemma universal_newlines_str_int z : universal_newlines (str_int z) = str_int z.
Proof. apply traduzir_id, str_int_sem_cr. Qed.

Lemma universal_newlines_str_bool b : universal_newlines (str_bool b) = str_bool b.
Proof. by destruct b. Qed.

End PyFacts.

(** ** The CSV layer of database.py *)

Module DatabaseFacts.
Import Py Models Database Leitura PyFacts.

Lemma lookup_converter item f :
  _converter_tipos item !! f = conv_de f <$> item !! f.
Proof.
  unfold _converter_tipos, type_conversions, conv_de; simpl.
  rewrite !lookup_alter.
  repeat (case_decide; [subst f; by destruct (item !! _)|]).
  rewrite bool_decide_eq_false_2, bool_decide_eq_false_2;
    [by destruct (item !! f) | congruence |].
  rewrite !elem_of_cons, elem_of_nil. intuition congruence.
Qed.

Lemma lookup_ler l f :
  ler l !! f = (λ s, conv_de f (VStr (universal_newlines s))) <$> l !! f.
Proof.
  unfold ler. rewrite lookup_converter, lookup_fmap. by destruct (l !! f).
Qed.

Lemma dom_ler l : dom (ler l) = dom l.
Proof.
  apply set_eq; intros f. rewrite !elem_of_dom, lookup_ler.
  by rewrite fmap_is_Some.
Qed.

Lemma lookup_escrever campos item f :
  escrever campos item !! f
  = if bool_decide (f ∈ campos) then Some (from_option celula "" (item !! f)) else None.
Proof.
  unfold escrever. induction campos as [|c cs IH]; csimpl.
  - by rewrite lookup_empty.
  - destruct (decide (c = f)) as [->|Hne].
    + rewrite lookup_insert_eq, bool_decide_eq_true_2; [done | left].
    + rewrite lookup_insert_ne, IH by done.
      apply (f_equal (λ b : bool, if b then _ else _)).
      apply bool_decide_ext. rewrite elem_of_cons. intuition congruence.
Qed.

Lemma dom_escrever campos item : dom (escrever campos item) = list_to_set campos.
Proof.
  apply set_eq; intros f.
  rewrite elem_of_dom, lookup_escrever, elem_of_list_to_set.
  case_bool_decide; [split; eauto | split; [by intros [? ?] | done]].
Qed.

Lemma dict_to_list_escrever campos item :
  dom item ⊆ list_to_set campos →
  _dict_to_list campos item = Some (escrever campos item).
Proof. intros H. unfold _dict_to_list. by rewrite decide_True. Qed.

Lemma writerows_escrever campos dados :
  Forall (λ item, dom item ⊆ list_to_set campos) dados →
  writerows campos dados = (escrever campos <$> dados, None).
Proof.
  induction 1 as [|item r Hi _ IH]; simpl; [done|].
  by rewrite dict_to_list_escrever, IH.
Qed.

Lemma conv_int_str_int z : conv_int (VStr (str_int z)) = VInt z.
Proof.
  unfold conv_int. pose proof (str_int_nao_vazio z) as Hne.
  destruct (str_int z) eqn:E; [done|]. rewrite <- E.
  simpl. by rewrite int_str_str_int.
Qed.

Lemma conv_bool_str_bool b : conv_bool (VStr (str_bool b)) = VBool b.
Proof. by destruct b. Qed.

Lemma conv_int_VStr s :
  conv_int (VStr s)
  = match int_str s with
    | Some z => VInt z
    | None => VStr s
    end.
Proof. destruct s; [done|]. unfold conv_int; cbn [int]. by destruct (int_str _). Qed.

Lemma conv_bool_VStr s :
  conv_bool (VStr s)
  = if bool_decide (s = EmptyString) then VStr s
    else VBool (bool_decide (lower s = "true")).
Proof. by destruct s. Qed.

(** A rewrite does not change what the next read of a record returns. *)
Lemma conv_celula_conv f s :
  universal_newlines s = s →
  conv_de f (VStr (universal_newlines (celula (conv_de f (VStr s)))))
  = conv_de f (VStr s).
Proof.
  intros Hs. unfold conv_de. repeat case_bool_decide.
  - rewrite (conv_int_VStr s). destruct (int_str s) as [z|] eqn:E; cbn [celula].
    + rewrite universal_newlines_str_int. apply conv_int_str_int.
    + by rewrite Hs, conv_int_VStr, E.
  - rewrite (conv_bool_VStr s). case_bool_decide; cbn [celula].
    + subst s. done.
    + rewrite universal_newlines_str_bool. apply conv_bool_str_bool.
  - cbn [celula]. by rewrite Hs.
Qed.

Lemma ler_escrever_ler campos l :
  dom l = list_to_set campos → ler (escrever campos (ler l)) = ler l.
Proof.
  intros Hd. apply map_eq; intros f.
  rewrite !lookup_ler, lookup_escrever, lookup_ler.
  case_bool_decide as Hf.
  - assert (is_Some (l !! f)) as [s Hs].
    { apply elem_of_dom. rewrite Hd. by apply elem_of_list_to_set. }
    rewrite Hs; simpl. by rewrite conv_celula_conv by apply universal_newlines_idemp.
  - assert (l !! f = None) as ->; [|done].
    apply not_elem_of_dom. rewrite Hd. by rewrite elem_of_list_to_set.
Qed.

Lemma int_ler_id l :
  int (ler l !! "id")
  = match l !! "id" with
    | None => Erro (TypeError msg_int_none)
    | Some s =>
        match int_str s with
        | Some z => Ok z
        | None => Erro (ValueError (msg_int_invalido (universal_newlines s)))
        end
    end.
Proof.
  rewrite lookup_ler. destruct (l !! "id") as [s|]; [|done]. simpl.
  change (conv_de "id") with conv_int.
  rewrite conv_int_VStr, int_str_universal_newlines.
  destruct (int_str s) eqn:E; [done|]. cbn [int].
  by rewrite int_str_universal_newlines, E.
Qed.

Lemma int_ler_ok l z : id_linha l = Some z → int (ler l !! "id") = Ok z.
Proof.
  unfold id_linha. rewrite int_ler_id. destruct (l !! "id"); simpl; [|done].
  by intros ->.
Qed.

Lemma int_ler_inv l z : int (ler l !! "id") = Ok z → id_linha l = Some z.
Proof.
  unfold id_linha. rewrite int_ler_id. destruct (l !! "id"); simpl; [|done].
  destruct (int_str _); congruence.
Qed.

Lemma lookup_relido campos item f v :
  f ∈ campos → item !! f = Some v →
  ler (escrever campos item) !! f
  = Some (conv_de f (VStr (universal_newlines (celula v)))).
Proof.
  intros Hf Hv. rewrite lookup_ler, lookup_escrever.
  by rewrite bool_decide_eq_true_2, Hv.
Qed.

Lemma lookup_relido_None campos item f :
  f ∉ campos → ler (escrever campos item) !! f = None.
Proof.
  intros Hf. rewrite lookup_ler, lookup_escrever.
  by rewrite bool_decide_eq_false_2.
Qed.

(** *** The scans over the records of a file *)

Lemma elem_of_ids k ls : k ∈ ids ls ↔ ∃ l, l ∈ ls ∧ id_linha l = Some k.
Proof. unfold ids. rewrite list_elem_of_omap. naive_solver. Qed.

Lemma any_id_lidos ls k :
  ids_ok ls → any_id (ler <$> ls) k = Ok (bool_decide (k ∈ ids ls)).
Proof.
  induction 1 as [|l r [z Hz] _ IH]; csimpl; [done|].
  rewrite (int_ler_ok _ _ Hz), IH. unfold ids; csimpl. rewrite Hz; simpl.
  destruct (Z.eqb_spec z k) as [->|Hne].
  - by rewrite bool_decide_eq_true_2 by left.
  - f_equal. apply bool_decide_ext. rewrite elem_of_cons. intuition congruence.
Qed.

(** A scan that ends without a match has read an id in every record. *)
Lemma any_id_false ls k :
  any_id (ler <$> ls) k = Ok false → ids_ok ls ∧ k ∉ ids ls.
Proof.
  induction ls as [|l r IH]; csimpl.
  - intros _. split; [apply Forall_nil_2 | by intros ?%elem_of_nil].
  - destruct (int (ler l !! "id")) as [z|] eqn:E; [|done].
    apply int_ler_inv in E.
    destruct (Z.eqb_spec z k) as [->|Hne]; [done|].
    intros [Hr Hk]%IH. split; [apply Forall_cons_2; eauto|].
    unfold ids; csimpl. rewrite E; simpl. rewrite elem_of_cons.
    intros [?|?]; [congruence | done].
Qed.

Lemma substituir_lidos ls k novo :
  ids_ok ls →
  substituir (ler <$> ls) k novo
  = Ok ((λ l, if bool_decide (id_linha l = Some k) then novo else ler l) <$> ls,
        bool_decide (k ∈ ids ls)).
Proof.
  induction 1 as [|l r [z Hz] _ IH]; csimpl; [done|].
  rewrite (int_ler_ok _ _ Hz), IH. unfold ids; csimpl. rewrite Hz; simpl.
  destruct (Z.eqb_spec z k) as [->|Hne].
  - by rewrite !bool_decide_eq_true_2 by (done || left).
  - rewrite (bool_decide_eq_false_2 (Some z = Some k)) by congruence.
    do 2 f_equal. apply bool_decide_ext. rewrite elem_of_cons. intuition congruence.
Qed.

Lemma filtrar_lidos ls k :
  ids_ok ls →
  filtrar (ler <$> ls) k = Ok (ler <$> filter (λ l, id_linha l ≠ Some k) ls).
Proof.
  induction 1 as [|l r [z Hz] _ IH]; csimpl; [done|].
  rewrite (int_ler_ok _ _ Hz), IH. rewrite filter_cons.
  destruct (Z.eqb_spec z k) as [->|Hne].
  - by rewrite decide_False by naive_solver.
  - by rewrite decide_True by congruence.
Qed.

Lemma ids_filter ls k :
  ids (filter (λ l, id_linha l ≠ Some k) ls) = filter (λ z, z ≠ k) (ids ls).
Proof.
  induction ls as [|l r IH]; [done|]. rewrite filter_cons. unfold ids in *.
  destruct (id_linha l) as [z|] eqn:E.
  - destruct (decide (z = k)) as [->|Hne].
    + rewrite decide_False by naive_solver. csimpl. rewrite E; simpl.
      by rewrite filter_cons, decide_False by naive_solver.
    + rewrite decide_True by congruence. csimpl. rewrite E; simpl.
      rewrite filter_cons, decide_True by done. by f_equal.
  - rewrite decide_True by done. csimpl. by rewrite E.
Qed.

(** *** What the three models guarantee *)

Class ModeloOk (T : Type) `{!Modelo T} := {
  (** the object that a stored dump reads back as *)
  relido : T → T;
  dom_dump x : dom (model_dump x) = list_to_set (model_fields (T := T));
  dump_id x : model_dump x !! "id" = Some (VInt (id_de x));
  validate_id amb d x k :
    model_validate amb d = Some x → d !! "id" = Some (VInt k) → id_de x = k;
  validate_valido amb d x : model_validate amb d = Some x → valido amb x;
  dump_relido x :
    ler (escrever (model_fields (T := T)) (model_dump x)) = model_dump (relido x);
  valido_relido amb x : valido amb x → valido amb (relido x);
  relido_id x : id_de (relido x) = id_de x;
}.

Ltac campo f k v :=
  destruct (decide (f = k)) as [->|];
  [ rewrite (lookup_relido _ _ k v) by (first [by repeat constructor | reflexivity]);
    first [ change (conv_de k) with conv_int; cbn [celula];
            by rewrite universal_newlines_str_int, conv_int_str_int
          | change (conv_de k) with conv_bool; cbn [celula];
            by rewrite universal_newlines_str_bool, conv_bool_str_bool
          | reflexivity ]
  |].

Ltac fora_dos_campos :=
  rewrite lookup_relido_None;
  [ symmetry; by rewrite !lookup_insert_ne, lookup_singleton_ne
  | cbv [model_fields Jogo_modelo Amigo_modelo Emprestimo_modelo];
    rewrite !elem_of_cons, elem_of_nil; intuition congruence ].

Ltac dom_do_dump :=
  intros; apply set_eq; intros f; rewrite elem_of_dom, elem_of_list_to_set;
  cbv [model_fields Jogo_modelo Amigo_modelo Emprestimo_modelo];
  rewrite !elem_of_cons, elem_of_nil;
  split;
  [ intros [v Hv]; apply dec_stable; intros Hf;
    (rewrite !lookup_insert_ne, lookup_singleton_ne in Hv by intuition congruence); done
  | intros Hf; repeat (destruct Hf as [->|Hf]; [eexists; reflexivity|]); done ].

Lemma Jogo_dump_relido j :
  ler (escrever (model_fields (T := Jogo)) (Jogo_dump j)) = Jogo_dump (Jogo_relido j).
Proof.
  apply map_eq; intros f.
  campo f "id" (VInt (jogo_id_ j)). campo f "titulo" (VStr (titulo j)).
  campo f "genero" (VStr (genero j)). campo f "plataforma" (VStr (plataforma j)).
  campo f "ano_lancamento" (VInt (ano_lancamento j)).
  campo f "disponivel" (VBool (disponivel j)).
  unfold Jogo_dump. fora_dos_campos.
Qed.

Lemma Emprestimo_dump_relido e :
  ler (escrever (model_fields (T := Emprestimo)) (Emprestimo_dump e))
  = Emprestimo_dump (Emprestimo_relido e).
Proof.
  apply map_eq; intros f.
  campo f "id" (VInt (emprestimo_id_ e)). campo f "jogo_id" (VInt (jogo_id e)).
  campo f "amigo_id" (VInt (amigo_id e)).
  campo f "data_emprestimo" (VStr (data_emprestimo e)).
  campo f "data_devolucao" (VStr (data_devolucao e)).
  unfold Emprestimo_dump. fora_dos_campos.
Qed.

Lemma Amigo_dump_relido a :
  ler (escrever (model_fields (T := Amigo)) (Amigo_dump a)) = Amigo_dump (Amigo_relido a).
Proof.
  apply map_eq; intros f.
  campo f "id" (VInt (amigo_id_ a)). campo f "nome" (VStr (nome a)).
  campo f "telefone" (VStr (telefone a)).
  { destruct (decide (f = "email")) as [->|].
    - rewrite (lookup_relido _ _ "email" (from_option VStr VNone (email a)))
        by (first [by repeat constructor | reflexivity]).
      destruct a as [ai an at_ [ae|] ac]; reflexivity.
    - campo f "data_cadastro" (VStr (data_cadastro a)).
      unfold Amigo_dump. fora_dos_campos. }
Qed.

Lemma val_str_Some m v s :
  val_str m v = Some s ↔
  v = VStr s ∧ match m with Some n => (String.length s ≤ n)%nat | None => True end.
Proof.
  unfold val_str. destruct v; try (split; [done | by intros [? _]]).
  destruct m as [n|].
  - destruct (Nat.leb_spec (String.length s0) n); split.
    + intros [= ->]. done.
    + intros [[= ->] _]. done.
    + done.
    + intros [[= ->] ?]. lia.
  - split; [by intros [= ->] | by intros [[= ->] _]].
Qed.

Lemma entre_Some lo hi z a : entre lo hi z = Some a ↔ a = z ∧ lo ≤ z ≤ hi.
Proof.
  unfold entre.
  destruct (Z.leb_spec lo z), (Z.leb_spec z hi); simpl; split;
    first [ intros [= ->]; split; [done|lia] | intros [-> ?]; done || lia | done ].
Qed.

#[local] Arguments val_str : simpl never.
#[local] Arguments entre : simpl never.
#[local] Arguments val_int : simpl never.
#[local] Arguments val_opcional : simpl never.

Lemma Jogo_validate_Some amb d j :
  Jogo_validate amb d = Some j ↔
  (d !! "id" ≫= val_int amb) = Some (jogo_id_ j)
  ∧ d !! "titulo" = Some (VStr (titulo j))
  ∧ d !! "genero" = Some (VStr (genero j))
  ∧ d !! "plataforma" = Some (VStr (plataforma j))
  ∧ (d !! "ano_lancamento" ≫= val_int amb) = Some (ano_lancamento j)
  ∧ com_default true val_bool (d !! "disponivel") = Some (disponivel j)
  ∧ Jogo_restricoes amb j.
Proof.
  unfold Jogo_validate, obrigatorio, Jogo_restricoes. split.
  - intros H.
    destruct (d !! "id" ≫= val_int amb) as [i|]; [|done].
    destruct (d !! "titulo") as [vt|]; [|done]. simpl in H.
    destruct (val_str _ vt) as [t|] eqn:Et; [|done].
    destruct (d !! "genero") as [vg|]; [|done]. simpl in H.
    destruct (val_str _ vg) as [g|] eqn:Eg; [|done].
    destruct (d !! "plataforma") as [vp|]; [|done]. simpl in H.
    destruct (val_str _ vp) as [p|] eqn:Ep; [|done].
    destruct (d !! "ano_lancamento" ≫= val_int amb) as [a0|]; [|done]. simpl in H.
    destruct (entre _ _ a0) as [a|] eqn:Ea; [|done]. simpl in H.
    destruct (com_default _ _ _) as [b|]; [|done]. simpl in H.
    injection H as <-. simpl.
    apply val_str_Some in Et as [-> ?], Eg as [-> ?], Ep as [-> ?].
    apply entre_Some in Ea as [-> ?]. done.
  - intros (-> & -> & -> & -> & -> & -> & Ht & Hg & Hp & Ha). simpl.
    rewrite (proj2 (val_str_Some (Some 100%nat) (VStr (titulo j)) (titulo j))) by done. simpl.
    rewrite (proj2 (val_str_Some (Some 50%nat) (VStr (genero j)) (genero j))) by done. simpl.
    rewrite (proj2 (val_str_Some (Some 50%nat) (VStr (plataforma j)) (plataforma j))) by done. simpl.
    rewrite (proj2 (entre_Some _ _ _ (ano_lancamento j))) by done. simpl.
    by destruct j.
Qed.

Lemma Jogo_valido_iff amb j : valido amb j ↔ Jogo_restricoes amb j.
Proof.
  unfold valido. cbn [model_validate model_dump Jogo_modelo].
  rewrite Jogo_validate_Some. split; [tauto|]. intros H.
  repeat split; try reflexivity; apply H.
Qed.

Lemma Emprestimo_validate_Some amb d e :
  Emprestimo_validate amb d = Some e ↔
  (d !! "id" ≫= val_int amb) = Some (emprestimo_id_ e)
  ∧ (d !! "jogo_id" ≫= val_int amb) = Some (jogo_id e)
  ∧ (d !! "amigo_id" ≫= val_int amb) = Some (amigo_id e)
  ∧ com_default (hoje amb) (val_str None) (d !! "data_emprestimo")
    = Some (data_emprestimo e)
  ∧ d !! "data_devolucao" = Some (VStr (data_devolucao e)).
Proof.
  unfold Emprestimo_validate, obrigatorio. split.
  - intros H.
    destruct (d !! "id" ≫= val_int amb) as [i|]; [|done].
    destruct (d !! "jogo_id" ≫= val_int amb) as [j|]; [|done].
    destruct (d !! "amigo_id" ≫= val_int amb) as [a|]; [|done]. simpl in H.
    destruct (com_default _ _ _) as [de|]; [|done]. simpl in H.
    destruct (d !! "data_devolucao") as [vd|]; [|done]. simpl in H.
    destruct (val_str _ vd) as [dd|] eqn:Ed; [|done]. simpl in H.
    injection H as <-. simpl.
    apply val_str_Some in Ed as [-> _]. done.
  - intros (-> & -> & -> & -> & ->). simpl. by destruct e.
Qed.

Lemma Emprestimo_valido amb (e : Emprestimo) : valido amb e.
Proof.
  unfold valido. cbn [model_validate model_dump Emprestimo_modelo].
  rewrite Emprestimo_validate_Some. repeat split; reflexivity.
Qed.

Lemma val_opcional_str_Some m v e :
  val_opcional (val_str m) v = Some e ↔
  v = from_option VStr VNone e
  ∧ match m with Some n => (String.length (default "" e) ≤ n)%nat | None => True end.
Proof.
  unfold val_opcional. destruct v as [|s|z|b].
  - split.
    + intros [= <-]. split; [done|]. destruct m; simpl; [lia|done].
    + intros [He _]. by destruct e.
  - destruct (val_str m (VStr s)) as [s'|] eqn:E; simpl.
    + apply val_str_Some in E as [[= <-] ?]. split.
      * intros [= <-]. done.
      * intros [He _]. destruct e; [|done]. by injection He as ->.
    + split; [done|]. intros [He Hl]. destruct e as [s'|]; [|done].
      injection He as ->. simpl in Hl.
      assert (val_str m (VStr s') = Some s') as Hs by (by apply val_str_Some).
      congruence.
  - split; [done|]. intros [He _]. by destruct e.
  - split; [done|]. intros [He _]. by destruct e.
Qed.

Lemma Amigo_validate_Some amb d a :
  Amigo_validate amb d = Some a ↔
  (d !! "id" ≫= val_int amb) = Some (amigo_id_ a)
  ∧ d !! "nome" = Some (VStr (nome a))
  ∧ d !! "telefone" = Some (VStr (telefone a))
  ∧ com_default None (val_opcional (val_str (Some 100%nat))) (d !! "email")
    = Some (email a)
  ∧ com_default (hoje amb) (val_str None) (d !! "data_cadastro")
    = Some (data_cadastro a)
  ∧ (String.length (nome a) ≤ 100)%nat ∧ (String.length (telefone a) ≤ 20)%nat.
Proof.
  unfold Amigo_validate, obrigatorio. split.
  - intros H.
    destruct (d !! "id" ≫= val_int amb) as [i|]; [|done].
    destruct (d !! "nome") as [vn|]; [|done]. simpl in H.
    destruct (val_str _ vn) as [n|] eqn:En; [|done].
    destruct (d !! "telefone") as [vt|]; [|done]. simpl in H.
    destruct (val_str _ vt) as [t|] eqn:Et; [|done]. simpl in H.
    destruct (com_default None _ _) as [e|]; [|done]. simpl in H.
    destruct (com_default (hoje amb) _ _) as [c|]; [|done]. simpl in H.
    injection H as <-. simpl.
    apply val_str_Some in En as [-> ?], Et as [-> ?]. done.
  - intros (-> & -> & -> & -> & -> & Hn & Ht). simpl.
    rewrite (proj2 (val_str_Some (Some 100%nat) (VStr (nome a)) (nome a))) by done. simpl.
    rewrite (proj2 (val_str_Some (Some 20%nat) (VStr (telefone a)) (telefone a))) by done. simpl.
    by destruct a.
Qed.

Lemma Amigo_valido_iff amb a : valido amb a ↔ Amigo_restricoes a.
Proof.
  unfold valido, Amigo_restricoes. cbn [model_validate model_dump Amigo_modelo].
  rewrite Amigo_validate_Some.
  change (Amigo_dump a !! "email") with (Some (from_option VStr VNone (email a))).
  cbn [com_default]. rewrite val_opcional_str_Some. split.
  - intros (_ & _ & _ & [_ He] & _ & Hn & Ht). done.
  - intros (Hn & Ht & He). repeat split; try reflexivity; done.
Qed.

Lemma validate_id_int amb (d : gmap string valor) k i :
  d !! "id" = Some (VInt k) → (d !! "id" ≫= val_int amb) = Some i → i = k.
Proof. intros ->. by intros [= ->]. Qed.

Lemma Jogo_dom_dump (j : Jogo) :
  dom (model_dump j) = list_to_set (model_fields (T := Jogo)).
Proof. cbv [model_dump Jogo_modelo Jogo_dump]. dom_do_dump. Qed.

Lemma Jogo_validate_id amb d (j : Jogo) k :
  model_validate amb d = Some j → d !! "id" = Some (VInt k) → id_de j = k.
Proof.
  intros Hv Hid. apply Jogo_validate_Some in Hv as (Hi & _).
  by apply (validate_id_int amb d).
Qed.

Lemma Jogo_validate_valido amb d (j : Jogo) :
  model_validate amb d = Some j → valido amb j.
Proof.
  intros Hv. apply Jogo_valido_iff.
  by apply Jogo_validate_Some in Hv as (_ & _ & _ & _ & _ & _ & ?).
Qed.

Lemma Jogo_valido_relido amb (j : Jogo) : valido amb j → valido amb (Jogo_relido j).
Proof.
  rewrite !Jogo_valido_iff. unfold Jogo_restricoes. simpl.
  pose proof (length_universal_newlines (titulo j)).
  pose proof (length_universal_newlines (genero j)).
  pose proof (length_universal_newlines (plataforma j)). lia.
Qed.

(** A text cell that a read hands over has been translated already. *)
Lemma ler_texto l f t :
  conv_de f = (λ v, v) → ler l !! f = Some (VStr t) → universal_newlines t = t.
Proof.
  intros Hc. rewrite lookup_ler, Hc. destruct (l !! f); [|done].
  intros [= <-]. apply universal_newlines_idemp.
Qed.

Lemma Jogo_validate_ler amb l (j : Jogo) :
  model_validate amb (ler l) = Some j → Jogo_relido j = j.
Proof.
  intros (_ & Ht & Hg & Hp & _)%Jogo_validate_Some.
  apply ler_texto in Ht, Hg, Hp; [|done..].
  destruct j; unfold Jogo_relido; simpl in *. congruence.
Qed.

#[global] Instance Jogo_ok : ModeloOk Jogo := {|
  relido := Jogo_relido;
  dom_dump := Jogo_dom_dump;
  dump_id := λ j, eq_refl;
  validate_id := Jogo_validate_id;
  validate_valido := Jogo_validate_valido;
  dump_relido := Jogo_dump_relido;
  valido_relido := Jogo_valido_relido;
  relido_id := λ j, eq_refl;
|}.

Lemma Emprestimo_dom_dump (e : Emprestimo) :
  dom (model_dump e) = list_to_set (model_fields (T := Emprestimo)).
Proof. cbv [model_dump Emprestimo_modelo Emprestimo_dump]. dom_do_dump. Qed.

Lemma Emprestimo_validate_id amb d (e : Emprestimo) k :
  model_validate amb d = Some e → d !! "id" = Some (VInt k) → id_de e = k.
Proof.
  intros Hv Hid. apply Emprestimo_validate_Some in Hv as (Hi & _).
  by apply (validate_id_int amb d).
Qed.

#[global] Instance Emprestimo_ok : ModeloOk Emprestimo := {|
  relido := Emprestimo_relido;
  dom_dump := Emprestimo_dom_dump;
  dump_id := λ e, eq_refl;
  validate_id := Emprestimo_validate_id;
  validate_valido := λ amb d e _, Emprestimo_valido amb e;
  dump_relido := Emprestimo_dump_relido;
  valido_relido := λ amb e _, Emprestimo_valido amb (Emprestimo_relido e);
  relido_id := λ e, eq_refl;
|}.

Lemma Amigo_dom_dump (a : Amigo) :
  dom (model_dump a) = list_to_set (model_fields (T := Amigo)).
Proof. cbv [model_dump Amigo_modelo Amigo_dump]. dom_do_dump. Qed.

Lemma Amigo_validate_id amb d (a : Amigo) k :
  model_validate amb d = Some a → d !! "id" = Some (VInt k) → id_de a = k.
Proof.
  intros Hv Hid. apply Amigo_validate_Some in Hv as (Hi & _).
  by apply (validate_id_int amb d).
Qed.

Lemma Amigo_validate_valido amb d (a : Amigo) :
  model_validate amb d = Some a → valido amb a.
Proof.
  intros Hv. apply Amigo_valido_iff.
  apply Amigo_validate_Some in Hv as (_ & _ & _ & He & _ & Hn & Ht).
  repeat split; [done..|].
  destruct (d !! "email") as [v|]; simpl in He.
  - by apply val_opcional_str_Some in He as [_ ?].
  - injection He as <-. simpl. lia.
Qed.

Lemma Amigo_valido_relido amb (a : Amigo) : valido amb a → valido amb (Amigo_relido a).
Proof.
  rewrite !Amigo_valido_iff. unfold Amigo_restricoes. simpl.
  pose proof (length_universal_newlines (nome a)).
  pose proof (length_universal_newlines (telefone a)).
  pose proof (length_universal_newlines (default "" (email a))). lia.
Qed.

#[global] Instance Amigo_ok : ModeloOk Amigo := {|
  relido := Amigo_relido;
  dom_dump := Amigo_dom_dump;
  dump_id := λ a, eq_refl;
  validate_id := Amigo_validate_id;
  validate_valido := Amigo_validate_valido;
  dump_relido := Amigo_dump_relido;
  valido_relido := Amigo_valido_relido;
  relido_id := λ a, eq_refl;
|}.

(** *** Files and rewrites *)

Lemma arquivo_gravar ent ls d : arquivo ent (gravar ent ls d) = ls.
Proof. by destruct ent. Qed.

Lemma arquivo_gravar_ne ent ent' ls d :
  ent ≠ ent' → arquivo ent' (gravar ent ls d) = arquivo ent' d.
Proof. by destruct ent, ent'. Qed.

Lemma escritas_gravar ent ls d : escritas (gravar ent ls d) = escritas d ++ [ent].
Proof. by destruct ent. Qed.

Lemma escrever_csv_ok ent dados campos d :
  Forall (λ item, dom item ⊆ list_to_set campos) dados →
  escrever_csv ent dados campos d = (Ok tt, gravar ent (escrever campos <$> dados) d).
Proof. intros H. unfold escrever_csv. by rewrite writerows_escrever. Qed.

Lemma writerows_None campos dados ls :
  writerows campos dados = (ls, None) → ls = escrever campos <$> dados.
Proof.
  revert ls. induction dados as [|item r IH]; intros ls; csimpl.
  - by intros [= <-].
  - unfold _dict_to_list. case_decide; [|done].
    destruct (writerows campos r) as [ls' e]. intros [= <- ->].
    by rewrite (IH ls').
Qed.

Lemma escrever_csv_Ok ent dados campos d d' :
  escrever_csv ent dados campos d = (Ok tt, d') →
  d' = gravar ent (escrever campos <$> dados) d.
Proof.
  unfold escrever_csv. destruct (writerows campos dados) as [ls [e|]] eqn:E; [done|].
  intros [= <-]. by rewrite (writerows_None _ _ _ E).
Qed.

Lemma retangular_dom_lidos campos ls :
  retangular campos ls → Forall (λ item, dom item ⊆ list_to_set campos) (ler <$> ls).
Proof.
  intros H. apply Forall_fmap. eapply Forall_impl; [exact H|].
  intros l Hl. simpl. by rewrite dom_ler, Hl.
Qed.

(** *** First object with a given id *)


Lemma next_id_insert {T} `{!Modelo T} i k (j y : T) js :
  js !! k = Some j → id_de y = id_de j →
  next_id i (<[k := y]> js)
  = (λ nx, (nx.1, if decide (nx.1 = k) then y else nx.2)) <$> next_id i js.
Proof.
  unfold next_id. revert k. induction js as [|x r IH]; intros k Hk Hy; [done|].
  destruct k as [|k]; simpl in Hk |- *.
  - injection Hk as ->. rewrite Hy. case_decide; [done|].
    by destruct (list_find _ r) as [[n z]|].
  - case_decide; [done|]. rewrite (IH k Hk Hy).
    destruct (list_find _ r) as [[n z]|]; simpl; [|done].
    repeat case_decide; (done || lia).
Qed.

Lemma next_id_Some {T} `{!Modelo T} i (l : list T) k x :
  next_id i l = Some (k, x) → l !! k = Some x ∧ id_de x = i.
Proof. unfold next_id. rewrite list_find_Some. tauto. Qed.

Lemma next_id_None {T} `{!Modelo T} i (l : list T) :
  next_id i l = None ↔ Forall (λ x, id_de x ≠ i) l.
Proof. unfold next_id. apply list_find_None. Qed.

Section modelo.
Context (amb : ambiente) {T : Type} `{!Modelo T} `{!ModeloOk T}.

Lemma id_em_campos (x : T) : "id" ∈ model_fields (T := T).
Proof.
  apply (elem_of_list_to_set (C := gset string)).
  rewrite <- (dom_dump x). apply elem_of_dom. rewrite dump_id. eauto.
Qed.

Lemma carregar_entidades_eq ent d :
  carregar_entidades amb ent d = (Ok (carregados amb ent d), d).
Proof. done. Qed.

Lemma carregados_valido ent d : Forall (valido amb) (carregados amb (T := T) ent d).
Proof.
  apply Forall_forall. intros x [it [_ Hx]]%list_elem_of_omap.
  by eapply validate_valido.
Qed.

(** Objects that were dumped into a file load again, as [relido]
    describes. *)
Lemma carregados_gravar ent (xs : list T) d :
  Forall (valido amb) xs →
  carregados amb ent
    (gravar ent (escrever model_fields <$> (model_dump <$> xs)) d)
  = relido <$> xs.
Proof.
  intros Hxs. unfold carregados, lidos. rewrite arquivo_gravar.
  induction Hxs as [|x r Hx _ IH]; csimpl; [done|].
  rewrite dump_relido. rewrite (valido_relido amb x Hx). by rewrite IH.
Qed.


Lemma criar_entidade_eq ent x d :
  ids_ok (arquivo ent d) → retangular (model_fields (T := T)) (arquivo ent d) →
  criar_entidade ent x d
  = if bool_decide (id_de x ∈ ids (arquivo ent d))
    then (Erro (ValueError (msg_ja_existe ent (id_de x))), d)
    else (Ok x, gravar ent
                  (escrever model_fields <$> (lidos ent d ++ [model_dump x])) d).
Proof.
  intros Hids Hret. unfold criar_entidade, mbind, M_bind, bind, ler_csv, lift, raise.
  fold (lidos ent d). unfold lidos at 1. rewrite any_id_lidos by done.
  case_bool_decide; [done|].
  rewrite escrever_csv_ok; [done|].
  apply Forall_app. split; [by apply retangular_dom_lidos|].
  apply Forall_singleton. by rewrite dom_dump.
Qed.

Lemma criar_entidade_Ok ent x x' d d' :
  criar_entidade ent x d = (Ok x', d') →
  x' = x ∧ ids_ok (arquivo ent d) ∧ (id_de x ∉ ids (arquivo ent d))
  ∧ d' = gravar ent (escrever model_fields <$> (lidos ent d ++ [model_dump x])) d.
Proof.
  unfold criar_entidade, mbind, M_bind, bind, ler_csv, lift, raise.
  fold (lidos ent d). unfold lidos at 1.
  destruct (any_id _ _) as [[|]|] eqn:E; [done| |done].
  apply any_id_false in E as [Hids Hid].
  destruct (escrever_csv _ _ _ d) as [[[]|] d1] eqn:Ew; [|done].
  apply escrever_csv_Ok in Ew as ->. unfold ret. by intros [= <- <-].
Qed.


Lemma criar_entidade_duplicado ent x d :
  ids_ok (arquivo ent d) → id_de x ∈ ids (arquivo ent d) →
  criar_entidade ent x d = (Erro (ValueError (msg_ja_existe ent (id_de x))), d).
Proof.
  intros Hids Hid. unfold criar_entidade, mbind, M_bind, bind, ler_csv, lift, raise.
  rewrite any_id_lidos by done. by rewrite bool_decide_eq_true_2.
Qed.

Lemma atualizar_entidade_eq ent item_id x d :
  ids_ok (arquivo ent d) → retangular (model_fields (T := T)) (arquivo ent d) →
  atualizar_entidade ent item_id x d
  = if bool_decide (id_de x ≠ item_id ∧ id_de x ∈ ids (arquivo ent d))
    then (Erro (ValueError (msg_id_ja_existe ent (id_de x))), d)
    else if bool_decide (item_id ∈ ids (arquivo ent d))
    then (Ok (Some x),
          gravar ent
            ((λ l, escrever model_fields
                     (if bool_decide (id_linha l = Some item_id)
                      then model_dump x else ler l)) <$> arquivo ent d) d)
    else (Ok None, d).
Proof.
  intros Hids Hret.
  unfold atualizar_entidade, mbind, M_bind, bind, ler_csv, lift, raise.
  destruct (decide (id_de x ≠ item_id)) as [Hne|Heq].
  - rewrite (bool_decide_eq_true_2 (id_de x ≠ item_id)) by done.
    rewrite any_id_lidos by done.
    destruct (decide (id_de x ∈ ids (arquivo ent d))) as [Hin|Hnin].
    + by rewrite !bool_decide_eq_true_2 by done.
    + rewrite (bool_decide_eq_false_2 (id_de x ∈ _)) by done.
      rewrite (bool_decide_eq_false_2 (_ ∧ _)) by tauto.
      rewrite substituir_lidos by done. case_bool_decide; simpl; [|done].
      rewrite escrever_csv_ok.
      * unfold ret. do 2 f_equal. rewrite <- list_fmap_compose.
        apply list_fmap_ext; intros ? l _; simpl. by case_bool_decide.
      * apply Forall_fmap. eapply Forall_impl; [exact Hret|].
        intros l Hl; simpl. case_bool_decide.
        -- by rewrite dom_dump.
        -- by rewrite dom_ler, Hl.
  - rewrite (bool_decide_eq_false_2 (id_de x ≠ item_id)) by done. unfold ret.
    rewrite (bool_decide_eq_false_2 (_ ∧ _)) by tauto.
    rewrite substituir_lidos by done. case_bool_decide; simpl; [|done].
    rewrite escrever_csv_ok.
    + unfold ret. do 2 f_equal. rewrite <- list_fmap_compose.
      apply list_fmap_ext; intros ? l _; simpl. by case_bool_decide.
    + apply Forall_fmap. eapply Forall_impl; [exact Hret|].
      intros l Hl; simpl. case_bool_decide.
      * by rewrite dom_dump.
      * by rewrite dom_ler, Hl.
Qed.

End modelo.

Lemma deletar_entidade_eq ent item_id d :
  ids_ok (arquivo ent d) → retangular (campos_de ent) (arquivo ent d) →
  deletar_entidade ent item_id d
  = if bool_decide (item_id ∈ ids (arquivo ent d))
    then (Ok true,
          gravar ent
            ((λ l, escrever (campos_de ent) (ler l)) <$>
               filter (λ l, id_linha l ≠ Some item_id) (arquivo ent d)) d)
    else (Ok false, d).
Proof.
  intros Hids Hret.
  unfold deletar_entidade, _validar_id_existente, mbind, M_bind, bind, ler_csv, lift.
  rewrite any_id_lidos by done. case_bool_decide; simpl; [|done].
  rewrite filtrar_lidos by done. rewrite escrever_csv_ok.
  - unfold ret. by rewrite <- list_fmap_compose.
  - apply retangular_dom_lidos. unfold retangular in *.
    rewrite Forall_forall in Hret |- *.
    intros l [_ Hl]%list_elem_of_filter. by apply Hret.
Qed.

(** A rewrite keeps the id of a record and leaves a rectangular file. *)
Lemma id_linha_rescrito campos l k :
  "id" ∈ campos → id_linha l = Some k → id_linha (escrever campos (ler l)) = Some k.
Proof.
  intros Hc Hk. unfold id_linha in *.
  destruct (l !! "id") as [s|] eqn:Es; [|done]. simpl in Hk.
  rewrite lookup_escrever, bool_decide_eq_true_2 by done.
  rewrite lookup_ler, Es. simpl. change (conv_de "id") with conv_int.
  rewrite conv_int_VStr, int_str_universal_newlines, Hk. simpl.
  apply int_str_str_int.
Qed.

Lemma ids_rescritos campos ls :
  "id" ∈ campos → ids_ok ls →
  ids ((λ l, escrever campos (ler l)) <$> ls) = ids ls.
Proof.
  intros Hc. induction 1 as [|l r [k Hk] _ IH]; [done|].
  unfold ids in *. csimpl. by rewrite (id_linha_rescrito _ _ _ Hc Hk), Hk, IH.
Qed.

Lemma ids_ok_rescritos campos ls :
  "id" ∈ campos → ids_ok ls → ids_ok ((λ l, escrever campos (ler l)) <$> ls).
Proof.
  intros Hc Hids. apply Forall_fmap. eapply Forall_impl; [exact Hids|].
  intros l [k Hk]; simpl. rewrite (id_linha_rescrito _ _ _ Hc Hk). eauto.
Qed.

Lemma retangular_escritos campos (dados : list (gmap string valor)) :
  retangular campos (escrever campos <$> dados).
Proof. apply Forall_fmap, Forall_true. intros item. apply dom_escrever. Qed.

(** *** The loan operations, step by step *)

Section emprestimos.
Context (amb : ambiente).

Lemma escrever_jogos js d :
  escrever_csv jogos (model_dump <$> js) (model_fields (T := Jogo)) d
  = (Ok tt, gravar_jogos js d).
Proof.
  apply escrever_csv_ok. apply Forall_fmap, Forall_true. intros j.
  unfold compose. by rewrite (dom_dump j).
Qed.

Lemma carregados_lido d : Forall (lido amb) (carregados amb (T := Jogo) jogos d).
Proof.
  apply Forall_forall. intros j [it [Hit Hj]]%list_elem_of_omap.
  apply list_elem_of_fmap in Hit as [l [-> _]]. split.
  - by eapply Jogo_validate_valido.
  - by eapply Jogo_validate_ler.
Qed.

Lemma carregados_gravar_jogos js d :
  Forall (lido amb) js → carregados amb jogos (gravar_jogos js d) = js.
Proof.
  intros H. unfold gravar_jogos.
  rewrite (carregados_gravar amb (T := Jogo) jogos js d)
    by (eapply Forall_impl; [exact H|]; by intros j [? _]).
  rewrite <- (list_fmap_id js) at 2. apply Forall_fmap_ext_1.
  eapply Forall_impl; [exact H|]. by intros j [_ ?].
Qed.

Lemma carregados_gravar_ne {T} `{!Modelo T} ent ent' ls d :
  ent ≠ ent' → carregados amb (T := T) ent' (gravar ent ls d) = carregados amb ent' d.
Proof. intros H. unfold carregados, lidos. by rewrite arquivo_gravar_ne. Qed.

Lemma valido_com_disponivel b j : valido amb j → valido amb (com_disponivel b j).
Proof. rewrite !Jogo_valido_iff. by destruct j. Qed.

Lemma lido_com_disponivel b j : lido amb j → lido amb (com_disponivel b j).
Proof.
  intros [Hv Hr]. split; [by apply valido_com_disponivel|].
  destruct j; unfold Jogo_relido, com_disponivel in *; simpl in *.
  injection Hr as Ht Hg Hp. by rewrite Ht, Hg, Hp.
Qed.

Lemma lido_insert k b j (js : list Jogo) :
  Forall (lido amb) js → js !! k = Some j →
  Forall (lido amb) (<[k := com_disponivel b j]> js).
Proof.
  intros Hjs Hk. apply Forall_insert; [done|].
  apply lido_com_disponivel. by eapply Forall_lookup_1.
Qed.

Lemma Exists_next_id {T} `{!Modelo T} i (l : list T) :
  Exists (λ x, id_de x = i) l ↔ is_Some (next_id i l).
Proof.
  rewrite <- not_eq_None_Some, next_id_None. split.
  - intros (x & Hx & Hi)%Exists_exists HF. by eapply (proj1 (Forall_forall _ _) HF).
  - intros HF. apply not_Forall_Exists in HF; [|apply _].
    eapply Exists_impl; [exact HF|]. intros x Hx. simpl in Hx.
    by apply dec_stable.
Qed.

Lemma criar_emprestimo_eq e d :
  criar_emprestimo amb e d
  = let js := carregados amb jogos d in
    match next_id (jogo_id e) js with
    | None => (Erro (ValueError (msg_jogo_nao_encontrado (jogo_id e))), d)
    | Some (k, jogo) =>
        if bool_decide (Exists (λ a : Amigo, id_de a = amigo_id e)
                          (carregados amb amigos d))
        then
          if disponivel jogo
          then criar_entidade emprestimos e
                 (gravar_jogos (<[k := com_disponivel false jogo]> js) d)
          else (Erro (ValueError (msg_nao_disponivel_emprestimo (jogo_id e))), d)
        else (Erro (ValueError (msg_amigo_nao_encontrado (amigo_id e))), d)
    end.
Proof.
  unfold criar_emprestimo, carregar_jogos, carregar_amigos. cbv zeta.
  unfold mbind at 1 2, M_bind, bind. rewrite !carregar_entidades_eq.
  destruct (next_id (jogo_id e) (carregados amb jogos d)) as [[k jogo]|] eqn:En.
  - rewrite bool_decide_eq_true_2 by (apply Exists_next_id; rewrite En; eauto).
    cbn [negb]. case_bool_decide; cbn [negb]; [|done].
    destruct (disponivel jogo); cbn [negb]; [|done].
    unfold mbind, M_bind, bind. by rewrite escrever_jogos.
  - rewrite bool_decide_eq_false_2; [done|].
    intros [? ?]%Exists_next_id. congruence.
Qed.

Lemma deletar_emprestimo_eq i d :
  deletar_emprestimo amb i d
  = match next_id i (carregados amb emprestimos d) with
    | None => (Ok false, d)
    | Some (_, e) =>
        let js := carregados amb jogos d in
        deletar_entidade emprestimos i
          match next_id (jogo_id e) js with
          | Some (k, jogo) => gravar_jogos (<[k := com_disponivel true jogo]> js) d
          | None => d
          end
    end.
Proof.
  unfold deletar_emprestimo, carregar_emprestimos, carregar_jogos. cbv zeta.
  unfold mbind at 1, M_bind, bind. rewrite carregar_entidades_eq.
  destruct (next_id i _) as [[n e]|]; [|done].
  unfold mbind at 1, M_bind, bind. rewrite carregar_entidades_eq.
  unfold mbind, M_bind, bind.
  destruct (next_id (jogo_id e) _) as [[k jogo]|]; [|done].
  by rewrite escrever_jogos.
Qed.

Lemma atualizar_emprestimo_eq i e d :
  atualizar_emprestimo amb i e d
  = match next_id i (carregados amb emprestimos d) with
    | None => (Ok None, d)
    | Some (_, antigo) =>
        if bool_decide (jogo_id antigo ≠ jogo_id e)
        then
          let js := liberar (jogo_id antigo) (carregados amb jogos d) in
          match next_id (jogo_id e) js with
          | Some (k, jogo_novo) =>
              if disponivel jogo_novo
              then atualizar_entidade emprestimos i e
                     (gravar_jogos (<[k := com_disponivel false jogo_novo]> js) d)
              else (Erro (ValueError (msg_nao_disponivel (jogo_id e))), d)
          | None => atualizar_entidade emprestimos i e (gravar_jogos js d)
          end
        else atualizar_entidade emprestimos i e d
    end.
Proof.
  unfold atualizar_emprestimo, carregar_emprestimos, carregar_jogos. cbv zeta.
  unfold mbind at 1, M_bind, bind. rewrite carregar_entidades_eq.
  destruct (next_id i _) as [[n antigo]|]; [|done].
  unfold mbind at 1, M_bind, bind. rewrite carregar_entidades_eq.
  case_bool_decide; [|done].
  fold (liberar (jogo_id antigo) (carregados amb jogos d)).
  unfold mbind, M_bind, bind.
  destruct (next_id (jogo_id e) _) as [[k jogo_novo]|].
  - destruct (disponivel jogo_novo); cbn [negb]; [|done].
    unfold ret. by rewrite escrever_jogos.
  - unfold ret. by rewrite escrever_jogos.
Qed.

End emprestimos.

End DatabaseFacts.

(** ** The properties of the flat-file store *)

Module JogosProps.
Import Py Models Database Leitura PyFacts DatabaseFacts Exemplos.

(** The records of the example stores, as they stand in the files. *)
Example linha_zelda :
  linha (zelda false)
  = {[ "id" := "1"; "titulo" := "Zelda"; "genero" := "Aventura"; "plataforma" := "Switch";
       "ano_lancamento" := "2017"; "disponivel" := "False" ]}.
Proof. vm_compute; reflexivity. Qed.

Example linha_rui :
  linha rui
  = {[ "id" := "8"; "nome" := "Rui"; "telefone" := "5585988880000"; "email" := "";
       "data_cadastro" := "2025-02-11" ]}.
Proof. vm_compute; reflexivity. Qed.

Example linha_emprestimo :
  linha (emprestimo 1 1 7)
  = {[ "id" := "1"; "jogo_id" := "1"; "amigo_id" := "7";
       "data_emprestimo" := "2025-03-01"; "data_devolucao" := "2025-03-15" ]}.
Proof. vm_compute; reflexivity. Qed.

(** C1, as the specification states it: any state in which the game of
    the new loan exists with available = false makes createLoan fail with
    NotAvailable.  It does not hold: with no friend registered the
    reference check, which comes first, raises "Amigo ... não encontrado". *)
Lemma criar_emprestimo_indisponivel_sem_amigo :
  next_id 1 (carregados amb0 (T := Jogo) jogos d_sem_amigos) = Some (0%nat, zelda false)
  ∧ criar_emprestimo amb0 (emprestimo 1 1 7) d_sem_amigos
    = (Erro (ValueError (msg_amigo_nao_encontrado 7)), d_sem_amigos)
  ∧ msg_amigo_nao_encontrado 7 ≠ msg_nao_disponivel_emprestimo 1.
Proof. split; [|split]; [vm_compute; reflexivity..|by vm_compute]. Qed.

(** C1 (amended): in every persisted state in which the game referenced
    by a new loan exists with available = false and the friend of the loan
    exists, createLoan fails with NotAvailable and the persisted state, the
    loan collection included, is unchanged. *)
Theorem criar_emprestimo_indisponivel amb e d k jogo :
  next_id (jogo_id e) (carregados amb (T := Jogo) jogos d) = Some (k, jogo) →
  disponivel jogo = false →
  Exists (λ a : Amigo, id_de a = amigo_id e) (carregados amb (T := Amigo) amigos d) →
  criar_emprestimo amb e d
  = (Erro (ValueError (msg_nao_disponivel_emprestimo (jogo_id e))), d).
Proof.
  intros Hj Hd Ha. rewrite criar_emprestimo_eq. cbv zeta. rewrite Hj.
  by rewrite bool_decide_eq_true_2, Hd.
Qed.

Lemma criar_emprestimo_indisponivel_witness :
  criar_emprestimo amb0 (emprestimo 5 1 7) d_emprestado
  = (Erro (ValueError (msg_nao_disponivel_emprestimo 1)), d_emprestado).
Proof.
  apply (criar_emprestimo_indisponivel amb0 (emprestimo 5 1 7) d_emprestado
           0%nat (zelda false)).
  - vm_compute; reflexivity.
  - reflexivity.
  - decidir.
Defined.

(** C10, as the specification states it: when the game and the friend of
    a new loan exist, the game is available, and the id of the loan is the
    id of a stored loan, createLoan fails with DuplicateId.  It does not
    hold when a loan record stored ahead of that one carries an id that
    [int()] refuses: the scan of [criar_entidade] raises the ValueError of
    [int()] there, before it reaches the duplicate.  The game has been
    reserved all the same. *)
Lemma criar_emprestimo_id_ilegivel :
  carregados amb0 (T := Emprestimo) emprestimos d_emprestimo_ilegivel
  = [emprestimo 1 1 7]
  ∧ next_id 2 (carregados amb0 (T := Jogo) jogos d_emprestimo_ilegivel)
    = Some (1%nat, doom true)
  ∧ Exists (λ a : Amigo, id_de a = 7)
      (carregados amb0 (T := Amigo) amigos d_emprestimo_ilegivel)
  ∧ 1 ∈ ids (arq_emprestimos d_emprestimo_ilegivel)
  ∧ fst (criar_emprestimo amb0 (emprestimo 1 2 7) d_emprestimo_ilegivel)
    = Erro (ValueError (msg_int_invalido "x1"))
  ∧ msg_int_invalido "x1" ≠ msg_ja_existe emprestimos 1
  ∧ next_id 2 (carregados amb0 (T := Jogo) jogos
                 (snd (criar_emprestimo amb0 (emprestimo 1 2 7) d_emprestimo_ilegivel)))
    = Some (1%nat, doom false).
Proof.
  split; [vm_compute; reflexivity|]. split; [vm_compute; reflexivity|].
  split; [decidir|]. split; [decidir|]. split; [vm_compute; reflexivity|].
  split; [vm_compute; discriminate|]. vm_compute; reflexivity.
Qed.

(** C10 (amended): in a store whose loan records carry an integer id,
    when the game and the friend of a new loan exist, the game is
    available, and the id of the loan is already the id of a stored loan,
    createLoan fails with DuplicateId after the game collection was
    rewritten with the game reserved: the game is read back unavailable,
    no loan was added, and the files of the loans and of the friends are
    as before. *)
Theorem criar_emprestimo_id_duplicado amb e d k jogo :
  next_id (jogo_id e) (carregados amb (T := Jogo) jogos d) = Some (k, jogo) →
  disponivel jogo = true →
  Exists (λ a : Amigo, id_de a = amigo_id e) (carregados amb (T := Amigo) amigos d) →
  ids_ok (arq_emprestimos d) →
  emprestimo_id_ e ∈ ids (arq_emprestimos d) →
  ∃ d',
    criar_emprestimo amb e d
    = (Erro (ValueError (msg_ja_existe emprestimos (emprestimo_id_ e))), d')
    ∧ next_id (jogo_id e) (carregados amb (T := Jogo) jogos d') = Some (k, com_disponivel false jogo)
    ∧ arq_emprestimos d' = arq_emprestimos d
    ∧ arq_amigos d' = arq_amigos d
    ∧ escritas d' = escritas d ++ [jogos].
Proof.
  intros Hj Hd Ha Hids Hid. rewrite criar_emprestimo_eq. cbv zeta. rewrite Hj.
  rewrite bool_decide_eq_true_2, Hd by done.
  exists (gravar_jogos (<[k := com_disponivel false jogo]> (carregados amb (T := Jogo) jogos d)) d).
  split; [exact (criar_entidade_duplicado (T := Emprestimo) emprestimos e
                   (gravar_jogos _ d) Hids Hid)|].
  apply next_id_Some in Hj as Hj'. destruct Hj' as [Hk Hi].
  split; [|done].
  pose proof (carregados_lido amb d) as Hv.
  rewrite carregados_gravar_jogos by (by apply lido_insert).
  rewrite (next_id_insert _ _ jogo) by done. rewrite Hj. simpl.
  by rewrite decide_True.
Qed.

Lemma criar_emprestimo_id_duplicado_witness :
  ∃ d',
    criar_emprestimo amb0 (emprestimo 1 2 7) d_emprestado
    = (Erro (ValueError (msg_ja_existe emprestimos 1)), d')
    ∧ next_id 2 (carregados amb0 (T := Jogo) jogos d') = Some (1%nat, doom false)
    ∧ arq_emprestimos d' = arq_emprestimos d_emprestado
    ∧ arq_amigos d' = arq_amigos d_emprestado
    ∧ escritas d' = [jogos].
Proof.
  apply (criar_emprestimo_id_duplicado amb0 (emprestimo 1 2 7) d_emprestado
           1%nat (doom true)).
  - vm_compute; reflexivity.
  - reflexivity.
  - decidir.
  - decidir.
  - decidir.
Defined.





Lemma ler_id_VInt l k : id_linha l = Some k → ler l !! "id" = Some (VInt k).
Proof.
  unfold id_linha. intros Hk. destruct (l !! "id") as [s|] eqn:Es; [|done].
  simpl in Hk. rewrite lookup_ler, Es. simpl. change (conv_de "id") with conv_int.
  by rewrite conv_int_VStr, int_str_universal_newlines, Hk.
Qed.

Lemma carregado_id_em_ids amb {T} `{!Modelo T} `{!ModeloOk T} ent d (x : T) :
  ids_ok (arquivo ent d) → x ∈ carregados amb ent d → id_de x ∈ ids (arquivo ent d).
Proof.
  intros Hids [it [Hit Hx]]%list_elem_of_omap.
  apply list_elem_of_fmap in Hit as [l [-> Hl]].
  pose proof (proj1 (Forall_forall _ _) Hids l Hl) as [k Hk].
  rewrite (validate_id amb _ x k Hx (ler_id_VInt l k Hk)).
  apply elem_of_ids. eauto.
Qed.

Lemma ids_ok_filter (P : gmap string string → Prop) `{!∀ l, Decision (P l)} ls :
  ids_ok ls → ids_ok (filter P ls).
Proof.
  unfold ids_ok. rewrite !Forall_forall. intros Hf l [_ Hl]%list_elem_of_filter. auto.
Qed.

(** C2, as the specification states it: deleting a stored loan sets the
    available field of its game to true, and a new loan on that game then
    succeeds.  It does not hold when the game of the loan was deleted in
    the meantime (deleting a game leaves its loans): the loan is removed,
    no game is touched, and a new loan on that game is refused. *)
Lemma deletar_emprestimo_jogo_apagado :
  next_id 1 (carregados amb0 (T := Emprestimo) emprestimos d_jogo_apagado) = Some (0%nat, emprestimo 1 1 7)
  ∧ fst (deletar_emprestimo amb0 1 d_jogo_apagado) = Ok true
  ∧ carregados amb0 (T := Jogo) jogos (snd (deletar_emprestimo amb0 1 d_jogo_apagado))
    = @nil Jogo
  ∧ fst (criar_emprestimo amb0 (emprestimo 2 1 7)
           (snd (deletar_emprestimo amb0 1 d_jogo_apagado)))
    = Erro (ValueError (msg_jogo_nao_encontrado 1)).
Proof. repeat split; vm_compute; reflexivity. Qed.

(** C2 (amended): for every loan id absent from the store, deleteLoan
    returns false without raising and without writing.  For every loan id
    present in a store whose loan records have exactly the columns of the
    model and carry an integer id: when the game of the loan exists,
    deleteLoan rewrites the game collection with that game available, then
    rewrites the loan collection without the loan, and returns true; after
    that, createLoan of a loan on the same game, with an existing friend
    and an id that no remaining loan uses, succeeds.  When the game of the
    loan no longer exists, deleteLoan removes the loan and returns true,
    the game collection is neither written nor changed, and a createLoan
    on that game id afterwards fails with game-not-found. *)
Theorem deletar_emprestimo_libera amb i d :
  (next_id i (carregados amb (T := Emprestimo) emprestimos d) = None →
   deletar_emprestimo amb i d = (Ok false, d))
  ∧ (∀ n e k jogo,
       ids_ok (arq_emprestimos d) →
       retangular (model_fields (T := Emprestimo)) (arq_emprestimos d) →
       next_id i (carregados amb (T := Emprestimo) emprestimos d) = Some (n, e) →
       next_id (jogo_id e) (carregados amb (T := Jogo) jogos d) = Some (k, jogo) →
       ∃ d',
         deletar_emprestimo amb i d = (Ok true, d')
         ∧ escritas d' = escritas d ++ [jogos; emprestimos]
         ∧ next_id (jogo_id e) (carregados amb (T := Jogo) jogos d')
           = Some (k, com_disponivel true jogo)
         ∧ ids (arq_emprestimos d') = filter (λ z, z ≠ i) (ids (arq_emprestimos d))
         ∧ arq_amigos d' = arq_amigos d
         ∧ ∀ e',
             jogo_id e' = jogo_id e →
             Exists (λ a : Amigo, id_de a = amigo_id e') (carregados amb (T := Amigo) amigos d) →
             emprestimo_id_ e' ∉ ids (arq_emprestimos d') →
             ∃ d'', criar_emprestimo amb e' d' = (Ok e', d''))
  ∧ (∀ n e,
       ids_ok (arq_emprestimos d) →
       retangular (model_fields (T := Emprestimo)) (arq_emprestimos d) →
       next_id i (carregados amb (T := Emprestimo) emprestimos d) = Some (n, e) →
       next_id (jogo_id e) (carregados amb (T := Jogo) jogos d) = None →
       ∃ d',
         deletar_emprestimo amb i d = (Ok true, d')
         ∧ escritas d' = escritas d ++ [emprestimos]
         ∧ arq_jogos d' = arq_jogos d
         ∧ arq_amigos d' = arq_amigos d
         ∧ ids (arq_emprestimos d') = filter (λ z, z ≠ i) (ids (arq_emprestimos d))
         ∧ ∀ e',
             jogo_id e' = jogo_id e →
             criar_emprestimo amb e' d'
             = (Erro (ValueError (msg_jogo_nao_encontrado (jogo_id e))), d')).
Proof.
  split; [|split].
  - intros Hn. rewrite deletar_emprestimo_eq. by rewrite Hn.
  - intros n e k jogo Hids Hret He Hj.
    pose proof (carregados_lido amb d) as Hv.
    apply next_id_Some in Hj as Hj'. destruct Hj' as [Hk Hjid].
    set (js' := <[k := com_disponivel true jogo]> (carregados amb (T := Jogo) jogos d)).
    assert (Forall (lido amb) js') as Hv' by (by apply lido_insert).
    assert (i ∈ ids (arq_emprestimos d)) as Hi.
    { apply next_id_Some in He as [He1 <-].
      apply (carregado_id_em_ids amb emprestimos d e Hids).
      by eapply list_elem_of_lookup_2. }
    set (ls' := (λ l, escrever (campos_de emprestimos) (ler l)) <$>
                  filter (λ l, id_linha l ≠ Some i) (arq_emprestimos d)).
    exists (gravar emprestimos ls' (gravar_jogos js' d)).
    assert (next_id (jogo_id e) js' = Some (k, com_disponivel true jogo)) as Hj2.
    { unfold js'. rewrite (next_id_insert _ _ jogo) by done. rewrite Hj. simpl.
      by rewrite decide_True. }
    assert (ids ls' = filter (λ z, z ≠ i) (ids (arq_emprestimos d))) as Hids'.
    { unfold ls'. rewrite ids_rescritos; [apply ids_filter | by repeat constructor |].
      by apply ids_ok_filter. }
    repeat split.
    + rewrite deletar_emprestimo_eq, He. cbv zeta. rewrite Hj. fold js'.
      rewrite deletar_entidade_eq by done.
      by rewrite bool_decide_eq_true_2 by done.
    + simpl. by rewrite <- app_assoc.
    + rewrite carregados_gravar_ne by done.
      by rewrite carregados_gravar_jogos.
    + done.
    + intros e' Hje Ha Hne.
      rewrite criar_emprestimo_eq. cbv zeta.
      rewrite (carregados_gravar_ne amb (T := Jogo)) by done.
      rewrite carregados_gravar_jogos by done.
      rewrite Hje, Hj2. rewrite bool_decide_eq_true_2 by done. cbn [disponivel com_disponivel].
      rewrite (criar_entidade_eq (T := Emprestimo)).
      * rewrite bool_decide_eq_false_2 by done. eauto.
      * simpl. unfold ls'. apply ids_ok_rescritos; [by repeat constructor|].
        by apply ids_ok_filter.
      * simpl. unfold ls'. apply Forall_fmap, Forall_true. intros l.
        apply dom_escrever.
  - intros n e Hids Hret He Hj.
    assert (i ∈ ids (arq_emprestimos d)) as Hi.
    { apply next_id_Some in He as [He1 <-].
      apply (carregado_id_em_ids amb emprestimos d e Hids).
      by eapply list_elem_of_lookup_2. }
    set (ls' := (λ l, escrever (campos_de emprestimos) (ler l)) <$>
                  filter (λ l, id_linha l ≠ Some i) (arq_emprestimos d)).
    exists (gravar emprestimos ls' d).
    split; [|split; [done|split; [done|split; [done|split]]]].
    + rewrite deletar_emprestimo_eq, He. cbv zeta. rewrite Hj.
      rewrite deletar_entidade_eq by done.
      by rewrite bool_decide_eq_true_2 by done.
    + unfold ls'. simpl.
      rewrite ids_rescritos; [apply ids_filter | by repeat constructor |].
      by apply ids_ok_filter.
    + intros e' Hje. rewrite criar_emprestimo_eq. cbv zeta.
      rewrite (carregados_gravar_ne amb (T := Jogo)) by done.
      by rewrite Hje, Hj.
Qed.

Lemma deletar_emprestimo_libera_witness :
  deletar_emprestimo amb0 9 d_emprestado = (Ok false, d_emprestado)
  ∧ (∃ d',
      deletar_emprestimo amb0 1 d_emprestado = (Ok true, d')
      ∧ escritas d' = [jogos; emprestimos]
      ∧ next_id 1 (carregados amb0 (T := Jogo) jogos d') = Some (0%nat, zelda true)
      ∧ ids (arq_emprestimos d') = []
      ∧ ∃ d'', criar_emprestimo amb0 (emprestimo 3 1 7) d' = (Ok (emprestimo 3 1 7), d''))
  ∧ (∃ d',
      deletar_emprestimo amb0 1 d_jogo_apagado = (Ok true, d')
      ∧ escritas d' = [emprestimos]
      ∧ arq_jogos d' = []
      ∧ ids (arq_emprestimos d') = []
      ∧ criar_emprestimo amb0 (emprestimo 2 1 7) d'
        = (Erro (ValueError (msg_jogo_nao_encontrado 1)), d')).
Proof.
  split; [|split].
  - apply (proj1 (deletar_emprestimo_libera amb0 9 d_emprestado)).
    vm_compute; reflexivity.
  - destruct (proj1 (proj2 (deletar_emprestimo_libera amb0 1 d_emprestado))
                0%nat (emprestimo 1 1 7) 0%nat (zelda false))
      as (d' & Hd & He & Hj & Hi & Ha & Hc).
    + decidir.
    + decidir.
    + vm_compute; reflexivity.
    + vm_compute; reflexivity.
    + exists d'. repeat split; try done.
      apply (Hc (emprestimo 3 1 7)).
      * reflexivity.
      * decidir.
      * rewrite Hi. decidir.
  - destruct (proj2 (proj2 (deletar_emprestimo_libera amb0 1 d_jogo_apagado))
                0%nat (emprestimo 1 1 7))
      as (d' & Hd & He & Hj & Ha & Hi & Hc).
    + decidir.
    + decidir.
    + vm_compute; reflexivity.
    + vm_compute; reflexivity.
    + exists d'. repeat split; try done.
      apply (Hc (emprestimo 2 1 7)). reflexivity.
Defined.

Lemma next_id_liberar i_antigo i_novo (js : list Jogo) :
  i_antigo ≠ i_novo → next_id i_novo (liberar i_antigo js) = next_id i_novo js.
Proof.
  intros Hne. unfold liberar.
  destruct (next_id i_antigo js) as [[ka ja]|] eqn:Ea; [|done].
  apply next_id_Some in Ea as [Hka Hja].
  rewrite (next_id_insert _ _ ja) by done.
  destruct (next_id i_novo js) as [[n x]|] eqn:En; [|done]. simpl.
  apply next_id_Some in En as [Hn Hx].
  rewrite decide_False; [done|]. intros ->. congruence.
Qed.

Lemma atualizar_entidade_escritas {T} `{!Modelo T} ent i (x r : T) d d' :
  atualizar_entidade ent i x d = (Ok (Some r), d') →
  r = x ∧ escritas d' = escritas d ++ [ent].
Proof.
  unfold atualizar_entidade, mbind, M_bind, bind, ler_csv, lift, raise, ret.
  destruct (if bool_decide (id_de x ≠ i) then _ else _) as [[[|]|] d0] eqn:E0; try done.
  assert (d0 = d) as -> by (case_bool_decide; congruence).
  destruct (substituir _ _ _) as [[dados [|]]|]; simpl; try done.
  unfold escrever_csv. destruct (writerows _ _) as [ls [e|]]; [done|].
  intros [= <- <-]. by rewrite escritas_gravar.
Qed.

(** C3, as the specification states it: when updateLoan moves a loan to
    another game, the release of the old game is persisted even when the
    operation fails with NotAvailable.  It does not hold: the exception is
    raised before the game collection is written, and the old game is read
    back as unavailable as before. *)
Lemma atualizar_emprestimo_nao_libera :
  atualizar_emprestimo amb0 1 (emprestimo 1 2 7) d_dois_emprestimos
  = (Erro (ValueError (msg_nao_disponivel 2)), d_dois_emprestimos)
  ∧ carregados amb0 (T := Jogo) jogos
      (snd (atualizar_emprestimo amb0 1 (emprestimo 1 2 7) d_dois_emprestimos))
    = [zelda false; doom false].
Proof. split; vm_compute; reflexivity. Qed.

(** C3 (amended): for every updateLoan whose new gameId differs from the
    gameId of the stored loan, the old game, when it exists, is marked
    available on the loaded collection; if the new game exists with
    available=false the operation fails with NotAvailable and nothing is
    persisted; otherwise the new game, when it exists, is marked
    unavailable, the game collection is persisted with both changes, and
    only then is the loan update run, whose own rewrite comes after the one
    of the games. *)
Theorem atualizar_emprestimo_troca_jogo amb i e d n antigo :
  next_id i (carregados amb (T := Emprestimo) emprestimos d) = Some (n, antigo) →
  jogo_id antigo ≠ jogo_id e →
  let js := liberar (jogo_id antigo) (carregados amb (T := Jogo) jogos d) in
  (∀ ka ja,
     next_id (jogo_id antigo) (carregados amb (T := Jogo) jogos d) = Some (ka, ja) →
     js !! ka = Some (com_disponivel true ja))
  ∧ (∀ k jogo_novo,
     next_id (jogo_id e) (carregados amb (T := Jogo) jogos d) = Some (k, jogo_novo) →
     disponivel jogo_novo = false →
     atualizar_emprestimo amb i e d
     = (Erro (ValueError (msg_nao_disponivel (jogo_id e))), d))
  ∧ (∀ k jogo_novo,
     next_id (jogo_id e) (carregados amb (T := Jogo) jogos d) = Some (k, jogo_novo) →
     disponivel jogo_novo = true →
     let d1 := gravar_jogos (<[k := com_disponivel false jogo_novo]> js) d in
     atualizar_emprestimo amb i e d = atualizar_entidade emprestimos i e d1
     ∧ carregados amb (T := Jogo) jogos d1 = <[k := com_disponivel false jogo_novo]> js
     ∧ escritas d1 = escritas d ++ [jogos])
  ∧ (next_id (jogo_id e) (carregados amb (T := Jogo) jogos d) = None →
     let d1 := gravar_jogos js d in
     atualizar_emprestimo amb i e d = atualizar_entidade emprestimos i e d1
     ∧ carregados amb (T := Jogo) jogos d1 = js
     ∧ escritas d1 = escritas d ++ [jogos])
  ∧ (∀ d1 r d',
     atualizar_entidade emprestimos i e d1 = (Ok (Some r), d') →
     r = e ∧ escritas d' = escritas d1 ++ [emprestimos]).
Proof.
  intros He Hne js.
  pose proof (carregados_lido amb d) as Hv.
  assert (Forall (lido amb) js) as Hvjs.
  { unfold js, liberar. destruct (next_id (jogo_id antigo) _) as [[ka ja]|] eqn:Ea; [|done].
    apply next_id_Some in Ea as [Hka _]. by apply lido_insert. }
  assert (atualizar_emprestimo amb i e d
          = match next_id (jogo_id e) js with
            | Some (k, jogo_novo) =>
                if disponivel jogo_novo
                then atualizar_entidade emprestimos i e
                       (gravar_jogos (<[k := com_disponivel false jogo_novo]> js) d)
                else (Erro (ValueError (msg_nao_disponivel (jogo_id e))), d)
            | None => atualizar_entidade emprestimos i e (gravar_jogos js d)
            end) as Heq.
  { rewrite atualizar_emprestimo_eq, He. by rewrite bool_decide_eq_true_2. }
  unfold js in Heq. rewrite next_id_liberar in Heq by done. fold js in Heq.
  split; [|split; [|split; [|split]]].
  - intros ka ja Ha. unfold js, liberar. rewrite Ha.
    apply next_id_Some in Ha as [Hka _].
    apply list_lookup_insert_eq. by eapply lookup_lt_Some.
  - intros k jn Hn Hd. rewrite Heq. rewrite Hn. by rewrite Hd.
  - intros k jn Hn Hd. cbv zeta. rewrite Heq. rewrite Hn. rewrite Hd.
    split; [done|]. split; [|done].
    apply carregados_gravar_jogos.
    assert (js !! k = Some jn) as Hk.
    { rewrite <- (next_id_liberar (jogo_id antigo)) in Hn by done.
      by apply next_id_Some in Hn as [? _]. }
    by apply lido_insert.
  - intros Hn. cbv zeta. rewrite Heq. rewrite Hn. split; [done|]. split; [|done].
    by apply carregados_gravar_jogos.
  - intros d1 r d' Hu. by apply atualizar_entidade_escritas in Hu.
Qed.

Lemma atualizar_emprestimo_troca_jogo_witness :
  atualizar_emprestimo amb0 1 (emprestimo 1 2 7) d_emprestado
  = atualizar_entidade emprestimos 1 (emprestimo 1 2 7)
      (gravar_jogos [zelda true; doom false] d_emprestado)
  ∧ carregados amb0 (T := Jogo) jogos (gravar_jogos [zelda true; doom false] d_emprestado)
    = [zelda true; doom false]
  ∧ escritas (gravar_jogos [zelda true; doom false] d_emprestado) = [jogos].
Proof.
  apply (proj1 (proj2 (proj2
           (atualizar_emprestimo_troca_jogo amb0 1 (emprestimo 1 2 7) d_emprestado
              0%nat (emprestimo 1 1 7) ltac:(vm_compute; reflexivity)
              ltac:(by vm_compute))))
           1%nat (doom true)).
  - vm_compute; reflexivity.
  - reflexivity.
Defined.

(** C4, as the specification states it: an update whose id is absent
    gives none.  It does not hold when the record carries another identity
    that is already in use: the collision is checked first and raises. *)
Lemma atualizar_entidade_ausente_colide :
  (5 ∉ ids (arq_jogos d_emprestado))
  ∧ id_de (doom true) ∈ ids (arq_jogos d_emprestado)
  ∧ atualizar_entidade jogos 5 (doom true) d_emprestado
    = (Erro (ValueError (msg_id_ja_existe jogos 2)), d_emprestado).
Proof. split; [decidir|]. split; [decidir|]. vm_compute; reflexivity. Qed.

(** C4 (amended): for every flat-file update(entityKind, id, record) on
    a file whose records have exactly the columns of the model and carry an
    integer id: the operation fails with DuplicateId if and only if the
    identity of the record differs from id and some stored record already
    uses it, whether id is present or not; otherwise, if id is absent the
    result is none and nothing is written; otherwise every record stored
    under id is replaced by the record, the file is rewritten, and the
    record is returned. *)
Theorem atualizar_entidade_resultado {T} `{!Modelo T} `{!ModeloOk T}
    ent item_id (item : T) d :
  ids_ok (arquivo ent d) →
  retangular (model_fields (T := T)) (arquivo ent d) →
  atualizar_entidade ent item_id item d
  = if bool_decide (id_de item ≠ item_id ∧ id_de item ∈ ids (arquivo ent d))
    then (Erro (ValueError (msg_id_ja_existe ent (id_de item))), d)
    else if bool_decide (item_id ∈ ids (arquivo ent d))
    then (Ok (Some item),
          gravar ent
            ((λ l, escrever model_fields
                     (if bool_decide (id_linha l = Some item_id)
                      then model_dump item else ler l)) <$> arquivo ent d) d)
    else (Ok None, d).
Proof. apply atualizar_entidade_eq. Qed.

Lemma atualizar_entidade_resultado_witness :
  atualizar_entidade jogos 1 (zelda true) d_emprestado
  = (Ok (Some (zelda true)),
     gravar jogos [linha (zelda true); linha (doom true)] d_emprestado)
  ∧ atualizar_entidade jogos 5 (zelda true) d_emprestado
    = (Erro (ValueError (msg_id_ja_existe jogos 1)), d_emprestado)
  ∧ atualizar_entidade jogos 5 tetris d_emprestado = (Ok None, d_emprestado).
Proof.
  split; [|split].
  - rewrite (atualizar_entidade_resultado jogos 1 (zelda true) d_emprestado)
      by decidir.
    vm_compute; reflexivity.
  - rewrite (atualizar_entidade_resultado jogos 5 (zelda true) d_emprestado)
      by decidir.
    vm_compute; reflexivity.
  - rewrite (atualizar_entidade_resultado jogos 5 tetris d_emprestado) by decidir.
    vm_compute; reflexivity.
Defined.


End JogosProps.

(** ** The properties of the relational store *)

Module BlogProps.
Import Py Blog BlogCasos.

Lemma elem_of_ausentes c ids db :
  c ∈ ausentes ids db ↔ c ∈ ids ∧ c ∉ category_id_ <$> categories db.
Proof.
  unfold ausentes. rewrite elem_of_difference, !elem_of_list_to_set. split.
  - intros [Hc Hn]. split; [done|]. intros [cat [-> Hcat]]%list_elem_of_fmap.
    apply Hn. apply list_elem_of_fmap. exists cat. split; [done|].
    by apply list_elem_of_filter.
  - intros [Hc Hn]. split; [done|]. intros [cat [-> Hcat]]%list_elem_of_fmap.
    apply list_elem_of_filter in Hcat as [_ Hcat].
    apply Hn. apply list_elem_of_fmap. eauto.
Qed.

(** C7, as the specification states it: a create-Post request with a
    category id that names no category fails reporting the missing ids.
    It does not hold when the author of the request does not exist: the
    author is looked up first and the failure is "Author not found". *)
Lemma create_post_sem_autor :
  9 ∈ ausentes [1; 9] db_sem_autor
  ∧ create_post 40 (pedido "Pudim" 1 [1; 9]) db_sem_autor
    = (Levanta (HTTPException 404 "Author not found"), db_sem_autor).
Proof. split; [decidir | reflexivity]. Qed.

(** C7 (amended): every create-Post request whose category ids contain
    an id that resolves to no existing category fails, and neither a post
    row nor a link row is persisted; when moreover the author exists and
    has no post with the same title, the failure is the 404 that reports
    the missing ids: exactly the ids of the request that name no category,
    each once, in increasing order. *)
Theorem create_post_categorias_ausentes agora post db ids c :
  pc_category_ids post = Some ids →
  c ∈ ids → c ∉ category_id_ <$> categories db →
  (∃ f, create_post agora post db = (Levanta f, db))
  ∧ (is_Some (list_find (λ u, user_id_ u = pc_author_id post) (users db)) →
     list_find (λ p, title p = pc_title post ∧ author_id p = pc_author_id post)
       (posts db) = None →
     ∃ faltam,
       create_post agora post db
       = (Levanta (HTTPException 404 ("Categories not found: " +:+ str_lista faltam)),
          db)
       ∧ Sorted Z.le faltam ∧ NoDup faltam
       ∧ ∀ x, x ∈ faltam ↔ x ∈ ids ∧ x ∉ category_id_ <$> categories db).
Proof.
  intros Hids Hc Hn.
  assert (ausentes ids db ≠ ∅) as Hne.
  { intros He. assert (c ∈ ausentes ids db) as Hin by (by apply elem_of_ausentes).
    rewrite He in Hin. by apply elem_of_empty in Hin. }
  assert (∃ c0 r, ids = c0 :: r) as (c0 & r & Hcons).
  { destruct ids as [|c0 r]; [by apply elem_of_nil in Hc | by exists c0, r]. }
  assert (create_post agora post db
          = match list_find (λ u, user_id_ u = pc_author_id post) (users db) with
            | None => (Levanta (HTTPException 404 "Author not found"), db)
            | Some _ =>
                match list_find (λ p, title p = pc_title post
                                      ∧ author_id p = pc_author_id post) (posts db) with
                | Some _ =>
                    (Levanta (HTTPException 400
                       "A post with this title already exists for this author."), db)
                | None =>
                    (Levanta (HTTPException 404
                       ("Categories not found: " +:+
                          str_lista (merge_sort Z.le (elements (ausentes ids db))))), db)
                end
            end) as Heq.
  { unfold create_post. rewrite Hids, Hcons. rewrite <- Hcons.
    destruct (list_find _ (users db)); [|done].
    destruct (list_find _ (posts db)); [done|].
    fold (ausentes ids db). by rewrite bool_decide_eq_true_2. }
  split.
  - rewrite Heq. destruct (list_find _ (users db)); [|eauto].
    destruct (list_find _ (posts db)); eauto.
  - intros [u Hu] Hp. rewrite Heq. rewrite Hu. rewrite Hp.
    exists (merge_sort Z.le (elements (ausentes ids db))).
    split; [done|]. split; [apply Sorted_merge_sort; apply _|]. split.
    + rewrite merge_sort_Permutation. apply NoDup_elements.
    + intros x. rewrite merge_sort_Permutation, elem_of_elements.
      apply elem_of_ausentes.
Qed.

Lemma create_post_categorias_ausentes_witness :
  ∃ faltam,
    create_post 40 (pedido "Pudim" 1 [9; 1; 4; 9]) db_blog
    = (Levanta (HTTPException 404 ("Categories not found: " +:+ str_lista faltam)),
       db_blog)
    ∧ Sorted Z.le faltam ∧ NoDup faltam
    ∧ 4 ∈ faltam ∧ 9 ∈ faltam ∧ 1 ∉ faltam.
Proof.
  destruct (proj2 (create_post_categorias_ausentes 40 (pedido "Pudim" 1 [9; 1; 4; 9])
                     db_blog [9; 1; 4; 9] 9 eq_refl ltac:(decidir) ltac:(decidir)))
    as (faltam & Hr & Hs & Hd & Hm).
  - by eexists.
  - reflexivity.
  - exists faltam. repeat split; try done.
    + apply Hm. split; decidir.
    + apply Hm. split; decidir.
    + intros [_ H1]%Hm. apply H1. decidir.
Defined.

(** The same request, run: the detail lists the missing ids in order. *)
Example create_post_pudim :
  create_post 40 (pedido "Pudim" 1 [9; 1; 4; 9]) db_blog
  = (Levanta (HTTPException 404 "Categories not found: [4, 9]"), db_blog).
Proof. vm_compute; reflexivity. Qed.

(** C9, as the specification states it: the second of two createUser
    requests with the same username and email fails with "Username is
    already in use.".  It does not hold for every engine: both unique
    indexes are violated, the engine names the one it checks first, and
    create_user tests the text of the error for user.email before
    user.username.  SQLite checks first the index created last; with the
    indexes created in the order of the fields of models/user.py (username,
    then email) it names user.email and the failure reads "Email is already
    in use.". *)
Lemma create_user_repetido_email :
  fst (create_user [ix_user_email; ix_user_username] (cadastro "a" "x@x.com") db_vazio)
  = Retorna {| user_id_ := 1; username := "a"; email := "x@x.com";
               full_name := None; bio := None; user_created_at := None |}
  ∧ fst (create_user [ix_user_email; ix_user_username] (cadastro "a" "x@x.com")
           (snd (create_user [ix_user_email; ix_user_username]
                   (cadastro "a" "x@x.com") db_vazio)))
    = Levanta (HTTPException 400 "Email is already in use.").
Proof. split; vm_compute; reflexivity. Qed.

(** C9 (amended): for every pair of createUser requests with identical
    username and email of which the first succeeds, the second fails with
    an HTTP 400 validation failure, not with the generic internal failure,
    and leaves the table as the first left it; its message is the
    domain-specific one of the unique index that the engine checks first:
    "Username is already in use." for the index on username, "Email is
    already in use." for the index on email. *)
Theorem create_user_repetido ix resto user db r db1 :
  create_user (ix :: resto) user db = (Retorna r, db1) →
  create_user (ix :: resto) user db1 = (Levanta (HTTPException 400 (em_uso ix)), db1)
  ∧ em_uso ix_user_username = "Username is already in use."
  ∧ em_uso ix ≠ "Internal error creating user.".
Proof.
  intros H1.
  assert (db1 = com_users (users db ++ [r]) db
          ∧ username r = uc_username user ∧ email r = uc_email user) as (-> & Hu & He).
  { unfold create_user in H1. destruct (unique_failed _ _ _) as [orig|].
    - repeat (destruct (contem _ orig)); done.
    - by injection H1 as <- <-. }
  split; [|split; [done | by destruct ix]].
  unfold create_user at 1. cbn [users com_users].
  set (u2 := {| user_id_ := _ |}).
  assert (viola u2 (users db ++ [r]) ix = true) as Hv.
  { destruct ix; simpl; apply bool_decide_eq_true_2, Exists_app; right;
      apply Exists_cons_hd; by simpl. }
  assert (unique_failed (ix :: resto) u2 (users db ++ [r])
          = Some ("UNIQUE constraint failed: " +:+ coluna ix)) as ->.
  { unfold unique_failed. cbn [list_find]. by rewrite decide_True. }
  by destruct ix.
Qed.

Lemma create_user_repetido_witness :
  create_user [ix_user_username; ix_user_email] (cadastro "a" "x@x.com")
    (snd (create_user [ix_user_username; ix_user_email] (cadastro "a" "x@x.com") db_vazio))
  = (Levanta (HTTPException 400 "Username is already in use."),
     snd (create_user [ix_user_username; ix_user_email] (cadastro "a" "x@x.com") db_vazio)).
Proof.
  apply (create_user_repetido ix_user_username [ix_user_email] (cadastro "a" "x@x.com")
           db_vazio
           {| user_id_ := 1; username := "a"; email := "x@x.com";
              full_name := None; bio := None; user_created_at := None |}).
  vm_compute; reflexivity.
Defined.

Lemma executar_pares_unicos db op : pares_unicos db → pares_unicos (executar db op).
Proof.
  unfold pares_unicos. intros Hdb. destruct op as [agora like|i|i upd|i]; simpl.
  - unfold create_like.
    destruct (get_user _ _); [|done]. destruct (get_post _ _); [|done].
    destruct (list_find _ _) as [[k l]|] eqn:E; [done|]. simpl.
    rewrite fmap_app. apply NoDup_app. split; [done|]. split; [|apply NoDup_singleton].
    intros [xu xp] [l [Hl Hin]]%list_elem_of_fmap. simpl.
    rewrite list_elem_of_singleton. intros [= -> ->].
    apply list_find_None in E. rewrite Forall_forall in E.
    apply (E l Hin). unfold par in Hl. by injection Hl as <- <-.
  - unfold read_like. by destruct (get_like _ _).
  - unfold update_like. destruct (list_find _ _) as [[k l]|] eqn:E; [|done].
    destruct (setattr _ _); [|done]. simpl.
    apply list_find_Some in E as (Hk & _).
    rewrite list_fmap_insert. rewrite list_insert_id; [done|].
    by rewrite list_lookup_fmap, Hk.
  - unfold delete_like. destruct (list_find _ _) as [[k l]|] eqn:E; [|done]. simpl.
    rewrite list_fmap_delete. eapply sublist_NoDup; [exact Hdb | apply sublist_delete].
Qed.

(** C8: creating a like whose user or post does not exist fails with a
    404 reference error; creating a like whose user and post exist while a
    like with the same (user, post) pair is stored fails with the 400
    invariant violation; and no sequence of like operations (create, read,
    update, delete) run on a table without duplicate pairs, the empty table
    among them, leaves two likes with the same (user, post) pair. *)
Theorem likes_sem_pares_repetidos :
  (∀ agora like db,
     get_user db (lc_user_id like) = None →
     create_like agora like db = (Levanta (HTTPException 404 "User not found"), db))
  ∧ (∀ agora like db,
     is_Some (get_user db (lc_user_id like)) →
     get_post db (lc_post_id like) = None →
     create_like agora like db = (Levanta (HTTPException 404 "Post not found"), db))
  ∧ (∀ agora like db l,
     is_Some (get_user db (lc_user_id like)) →
     is_Some (get_post db (lc_post_id like)) →
     l ∈ likes db → user_id l = lc_user_id like → post_id l = lc_post_id like →
     create_like agora like db
     = (Levanta (HTTPException 400 "This like already exists"), db))
  ∧ (∀ ops db, pares_unicos db → pares_unicos (executar_todas ops db))
  ∧ (∀ ops db, likes db = [] → pares_unicos (executar_todas ops db)).
Proof.
  assert (∀ ops db, pares_unicos db → pares_unicos (executar_todas ops db)) as Hinv.
  { intros ops. unfold executar_todas.
    induction ops as [|op ops IH]; intros db Hdb; simpl; [done|].
    apply IH. by apply executar_pares_unicos. }
  split; [|split; [|split; [|split]]].
  - intros agora like db Hu. unfold create_like. by rewrite Hu.
  - intros agora like db [u Hu] Hp. unfold create_like. by rewrite Hu, Hp.
  - intros agora like db l [u Hu] [p Hp] Hl Hlu Hlp. unfold create_like.
    rewrite Hu, Hp.
    destruct (list_find _ (likes db)) as [[k l']|] eqn:E; [done|].
    apply list_find_None in E. rewrite Forall_forall in E.
    by destruct (E l Hl).
  - exact Hinv.
  - intros ops db Hl. apply Hinv. unfold pares_unicos. rewrite Hl. constructor.
Qed.

Lemma likes_sem_pares_repetidos_witness :
  create_like 30 (curtida 2 1) db_blog
  = (Levanta (HTTPException 404 "User not found"), db_blog)
  ∧ create_like 30 (curtida 1 5) db_blog
    = (Levanta (HTTPException 404 "Post not found"), db_blog)
  ∧ create_like 31 (curtida 1 1) (snd (create_like 30 (curtida 1 1) db_blog))
    = (Levanta (HTTPException 400 "This like already exists"),
       snd (create_like 30 (curtida 1 1) db_blog))
  ∧ pares_unicos
      (executar_todas
         [Criar 30 (curtida 1 1); Criar 31 (curtida 1 1);
          Atualizar 1 {| lu_reaction := Some (Some "love"); lu_ip_address := None |};
          Apagar 1; Criar 32 (curtida 1 1)] db_blog).
Proof.
  destruct likes_sem_pares_repetidos as (H1 & H2 & H3 & _ & H5).
  split; [|split; [|split]].
  - apply H1. reflexivity.
  - apply H2; [by eexists | reflexivity].
  - apply (H3 31 (curtida 1 1) (snd (create_like 30 (curtida 1 1) db_blog))
             {| like_id_ := 1; like_created_at := 30; reaction := "like";
                ip_address := None; user_id := 1; post_id := 1 |}).
    + by eexists.
    + by eexists.
    + decidir.
    + reflexivity.
    + reflexivity.
  - apply H5. reflexivity.
Defined.

End BlogProps.

(** ** Further properties of the flat-file store *)

Module JogosExtras.
Import Py Models Database Leitura Invariantes Quadro PyFacts DatabaseFacts Exemplos Casos.

Lemma ids_app ls1 ls2 : ids (ls1 ++ ls2) = ids ls1 ++ ids ls2.
Proof. unfold ids. apply omap_app. Qed.

Lemma id_linha_dump {T} `{!Modelo T} `{!ModeloOk T} (x : T) :
  id_linha (escrever model_fields (model_dump x)) = Some (id_de x).
Proof.
  unfold id_linha. rewrite lookup_escrever.
  rewrite bool_decide_eq_true_2 by apply (id_em_campos x).
  rewrite dump_id. simpl. apply int_str_str_int.
Qed.

Lemma carregados_filter amb {T} `{!Modelo T} `{!ModeloOk T} i ls :
  ids_ok ls →
  omap (model_validate amb) (ler <$> filter (λ l, id_linha l ≠ Some i) ls)
  = filter (λ x : T, id_de x ≠ i) (omap (model_validate amb) (ler <$> ls)).
Proof.
  induction 1 as [|l r [k Hk] _ IH]; [done|].
  rewrite filter_cons. csimpl.
  destruct (model_validate amb (ler l)) as [x|] eqn:Ex.
  - pose proof (validate_id amb _ x k Ex (JogosProps.ler_id_VInt l k Hk)) as Hx.
    rewrite filter_cons. destruct (decide (k = i)) as [->|Hne].
    + rewrite decide_False by naive_solver. rewrite decide_False by naive_solver. done.
    + rewrite decide_True by congruence. rewrite decide_True by congruence.
      csimpl. by rewrite Ex, IH.
  - case_decide; csimpl; by rewrite ?Ex, IH.
Qed.

Lemma ler_rescritos campos ls :
  retangular campos ls → ler <$> ((λ l, escrever campos (ler l)) <$> ls) = ler <$> ls.
Proof.
  intros Hret. rewrite <- list_fmap_compose.
  apply Forall_fmap_ext_1. eapply Forall_impl; [exact Hret|].
  intros l Hl. simpl. by apply ler_escrever_ler.
Qed.

Lemma retangular_filter campos (P : gmap string string → Prop)
    `{!∀ l, Decision (P l)} ls :
  retangular campos ls → retangular campos (filter P ls).
Proof.
  unfold retangular. rewrite !Forall_forall. intros Hf l [_ Hl]%list_elem_of_filter. auto.
Qed.

Lemma carregados_deletar amb {T} `{!Modelo T} `{!ModeloOk T} ent i d0 d :
  retangular (campos_de ent) (arquivo ent d) → ids_ok (arquivo ent d) →
  carregados amb (T := T) ent
    (gravar ent ((λ l, escrever (campos_de ent) (ler l)) <$>
                   filter (λ l, id_linha l ≠ Some i) (arquivo ent d)) d0)
  = filter (λ x, id_de x ≠ i) (carregados amb (T := T) ent d).
Proof.
  intros Hret Hids. unfold carregados, lidos. rewrite arquivo_gravar.
  rewrite ler_rescritos by (by apply retangular_filter).
  by apply carregados_filter.
Qed.

Lemma next_id_filter_ne {T} `{!Modelo T} i (l : list T) :
  next_id i (filter (λ x, id_de x ≠ i) l) = None.
Proof.
  apply next_id_None, Forall_forall. by intros x [Hx _]%list_elem_of_filter.
Qed.

(** X1.  On a file whose records are rectangular and carry an id,
    [deletar_entidade] answers whether the id is stored and writes nothing
    when it is not; when it is, every record under that id is gone, the
    objects loaded afterwards are those loaded before without the ones of
    that id, in the same order, and a read by that id finds nothing. *)
Theorem deletar_entidade_remove amb {T} `{!Modelo T} `{!ModeloOk T} ent i d :
  retangular (campos_de ent) (arquivo ent d) →
  ids_ok (arquivo ent d) →
  (i ∉ ids (arquivo ent d) → deletar_entidade ent i d = (Ok false, d))
  ∧ (i ∈ ids (arquivo ent d) →
     ∃ d',
       deletar_entidade ent i d = (Ok true, d')
       ∧ carregados amb (T := T) ent d'
         = filter (λ x, id_de x ≠ i) (carregados amb (T := T) ent d)
       ∧ Main.obter amb (T := T) ent i d' = (Ok None, d')
       ∧ ids (arquivo ent d') = filter (λ z, z ≠ i) (ids (arquivo ent d))).
Proof.
  intros Hret Hids. split.
  - intros Hi. rewrite deletar_entidade_eq by done.
    by rewrite bool_decide_eq_false_2.
  - intros Hi. eexists. split.
    { rewrite deletar_entidade_eq by done. by rewrite bool_decide_eq_true_2. }
    split; [by apply carregados_deletar|]. split.
    + unfold Main.obter, mbind, M_bind, bind. rewrite carregar_entidades_eq.
      unfold ret. rewrite carregados_deletar by done. by rewrite next_id_filter_ne.
    + rewrite arquivo_gravar.
      rewrite ids_rescritos; [apply ids_filter | | by apply JogosProps.ids_ok_filter].
      destruct ent; by repeat constructor.
Qed.

Lemma deletar_entidade_remove_witness :
  deletar_entidade jogos 9 d_emprestado = (Ok false, d_emprestado)
  ∧ ∃ d',
      deletar_entidade jogos 2 d_emprestado = (Ok true, d')
      ∧ carregados amb0 (T := Jogo) jogos d' = [zelda false]
      ∧ Main.obter amb0 (T := Jogo) jogos 2 d' = (Ok None, d')
      ∧ ids (arquivo jogos d') = [1].
Proof.
  pose proof (deletar_entidade_remove amb0 (T := Jogo) jogos 9 d_emprestado
                ltac:(decidir) ltac:(decidir)) as [H9 _].
  pose proof (deletar_entidade_remove amb0 (T := Jogo) jogos 2 d_emprestado
                ltac:(decidir) ltac:(decidir)) as [_ H2].
  split; [apply H9; decidir|].
  destruct H2 as (d' & Hd & Hc & Ho & Hi); [decidir|].
  exists d'. repeat split; [exact Hd| |exact Ho|].
  - rewrite Hc. vm_compute; reflexivity.
  - rewrite Hi. vm_compute; reflexivity.
Defined.

Lemma ids_substituidos {T} `{!Modelo T} `{!ModeloOk T} (x : T) i ls :
  ids_ok ls →
  ids ((λ l, escrever model_fields
               (if bool_decide (id_linha l = Some i) then model_dump x else ler l)) <$> ls)
  = (λ z, if bool_decide (z = i) then id_de x else z) <$> ids ls.
Proof.
  induction 1 as [|l r [k Hk] _ IH]; [done|].
  unfold ids in *. csimpl. rewrite IH, Hk. csimpl.
  case_bool_decide as E.
  - rewrite id_linha_dump. csimpl. rewrite bool_decide_eq_true_2 by congruence. done.
  - rewrite (id_linha_rescrito _ l k) by (apply (id_em_campos x) || done). csimpl.
    rewrite bool_decide_eq_false_2 by congruence. done.
Qed.

Lemma ids_ok_substituidos {T} `{!Modelo T} `{!ModeloOk T} (x : T) i ls :
  ids_ok ls →
  ids_ok ((λ l, escrever model_fields
               (if bool_decide (id_linha l = Some i) then model_dump x else ler l)) <$> ls).
Proof.
  intros Hids. apply Forall_fmap. eapply Forall_impl; [exact Hids|].
  intros l [k Hk]. simpl. case_bool_decide.
  - rewrite id_linha_dump. eauto.
  - rewrite (id_linha_rescrito _ l k) by (apply (id_em_campos x) || done). eauto.
Qed.

Lemma NoDup_troca (i y : Z) (l : list Z) :
  NoDup l → y = i ∨ y ∉ l →
  NoDup ((λ z, if bool_decide (z = i) then y else z) <$> l).
Proof.
  intros Hnd Hy. apply NoDup_fmap_2_strong; [|done].
  intros a b Ha Hb. repeat case_bool_decide; intros; subst; try done.
  - destruct Hy as [->|Hy]; [done|]. by destruct Hy.
  - destruct Hy as [->|Hy]; [done|]. by destruct Hy.
Qed.

Lemma ids_criados {T} `{!Modelo T} `{!ModeloOk T} (x : T) ls :
  ids_ok ls →
  ids (escrever model_fields <$> ((ler <$> ls) ++ [model_dump x])) = ids ls ++ [id_de x].
Proof.
  intros Hids. rewrite fmap_app, ids_app, <- list_fmap_compose.
  unfold compose; cbv beta.
  rewrite (ids_rescritos model_fields ls) by (apply (id_em_campos x) || done).
  unfold ids at 2. csimpl. by rewrite id_linha_dump.
Qed.

Lemma ids_ok_criados {T} `{!Modelo T} `{!ModeloOk T} (x : T) ls :
  ids_ok ls →
  ids_ok (escrever model_fields <$> ((ler <$> ls) ++ [model_dump x])).
Proof.
  intros Hids. rewrite fmap_app, <- list_fmap_compose. unfold compose; cbv beta.
  apply Forall_app. split.
  - apply (ids_ok_rescritos model_fields ls); [apply (id_em_campos x)|done].
  - repeat constructor. rewrite id_linha_dump. eauto.
Qed.

Lemma retangular_rescritos campos (f : gmap string string → gmap string valor) ls :
  retangular campos ((λ l, escrever campos (f l)) <$> ls).
Proof. apply Forall_fmap, Forall_true. intros l. apply dom_escrever. Qed.

(** X2.  The generic create, update and delete keep a file well formed.
    When the file of an entity is rectangular, every record carries an id
    and no id occurs twice, the same holds of the file that
    [criar_entidade], [atualizar_entidade] and [deletar_entidade] leave,
    whether they answer or raise. *)
Theorem bem_formado_conservado {T} `{!Modelo T} `{!ModeloOk T} ent (x : T) i d :
  campos_de ent = model_fields (T := T) →
  bem_formado (campos_de ent) (arquivo ent d) →
  bem_formado (campos_de ent) (arquivo ent (criar_entidade ent x d).2)
  ∧ bem_formado (campos_de ent) (arquivo ent (atualizar_entidade ent i x d).2)
  ∧ bem_formado (campos_de ent) (arquivo ent (deletar_entidade ent i d).2).
Proof.
  intros Hc (Hret & Hids & Hnd).
  assert (retangular (model_fields (T := T)) (arquivo ent d)) as Hret' by by rewrite <- Hc.
  split; [|split].
  - rewrite criar_entidade_eq by done. case_bool_decide as Hx; [done|].
    simpl. rewrite arquivo_gravar. unfold lidos. rewrite Hc. split; [|split].
    + apply retangular_escritos.
    + by apply ids_ok_criados.
    + rewrite ids_criados by done. apply NoDup_app. split; [done|]. split.
      * intros z Hz ->%list_elem_of_singleton. done.
      * apply NoDup_singleton.
  - rewrite atualizar_entidade_eq by done. case_bool_decide as Hx; [done|].
    case_bool_decide as Hi; [|done].
    simpl. rewrite arquivo_gravar, Hc. split; [|split].
    + apply retangular_rescritos.
    + by apply ids_ok_substituidos.
    + rewrite ids_substituidos by done. apply NoDup_troca; [done|].
      destruct (decide (id_de x = i)); [by left|right]. intros ?. apply Hx; done.
  - rewrite deletar_entidade_eq by done. case_bool_decide as Hi; [|done].
    simpl. rewrite arquivo_gravar. split; [|split].
    + apply retangular_rescritos.
    + apply ids_ok_rescritos; [destruct ent; by repeat constructor|].
      by apply JogosProps.ids_ok_filter.
    + rewrite ids_rescritos;
        [|destruct ent; by repeat constructor|by apply JogosProps.ids_ok_filter].
      rewrite ids_filter. by apply NoDup_filter.
Qed.

Lemma bem_formado_conservado_witness :
  bem_formado (campos_de jogos) (arq_jogos (criar_entidade jogos tetris d_emprestado).2)
  ∧ bem_formado (campos_de jogos)
      (arq_jogos (atualizar_entidade jogos 2 tetris d_emprestado).2)
  ∧ bem_formado (campos_de jogos) (arq_jogos (deletar_entidade jogos 2 d_emprestado).2).
Proof.
  apply (bem_formado_conservado (T := Jogo) jogos tetris 2 d_emprestado eq_refl).
  split; [decidir|]. split; [decidir|]. decidir.
Defined.

Lemma any_id_ilegivel ls k :
  ¬ ids_ok ls → any_id (ler <$> ls) k ≠ Ok false.
Proof. intros Hn E. by apply any_id_false in E as [? _]. Qed.

Lemma substituir_ilegivel ls k novo :
  ¬ ids_ok ls → ∃ e, substituir (ler <$> ls) k novo = Erro e.
Proof.
  induction ls as [|l r IH]; intros Hn; [by destruct Hn; constructor|].
  csimpl. destruct (int (ler l !! "id")) as [z|e] eqn:E; [|eauto].
  apply int_ler_inv in E. destruct IH as [e He].
  { intros Hr. apply Hn. constructor; eauto. }
  rewrite He. eauto.
Qed.

Lemma filtrar_ilegivel ls k :
  ¬ ids_ok ls → ∃ e, filtrar (ler <$> ls) k = Erro e.
Proof.
  induction ls as [|l r IH]; intros Hn; [by destruct Hn; constructor|].
  csimpl. destruct (int (ler l !! "id")) as [z|e] eqn:E; [|eauto].
  apply int_ler_inv in E. destruct IH as [e He].
  { intros Hr. apply Hn. constructor; eauto. }
  rewrite He. eauto.
Qed.

Lemma criar_entidade_ilegivel {T} `{!Modelo T} ent (x : T) d :
  ¬ ids_ok (arquivo ent d) → ∃ e, criar_entidade ent x d = (Erro e, d).
Proof.
  intros Hn. unfold criar_entidade, mbind, M_bind, bind, ler_csv, lift, raise.
  pose proof (any_id_ilegivel _ (id_de x) Hn) as Ha.
  destruct (any_id _ _) as [[|]|e]; [eauto|done|eauto].
Qed.

Lemma atualizar_entidade_ilegivel {T} `{!Modelo T} ent (x : T) i d :
  ¬ ids_ok (arquivo ent d) → ∃ e, atualizar_entidade ent i x d = (Erro e, d).
Proof.
  intros Hn.
  unfold atualizar_entidade, mbind, M_bind, bind, ler_csv, lift, raise, ret.
  case_bool_decide.
  - pose proof (any_id_ilegivel _ (id_de x) Hn) as Ha.
    destruct (any_id _ _) as [[|]|e]; [eauto|done|eauto].
  - destruct (substituir_ilegivel _ i (model_dump x) Hn) as [e He].
    unfold ler in He. rewrite He. eauto.
Qed.

Lemma deletar_entidade_ilegivel ent i d :
  ¬ ids_ok (arquivo ent d) → ∃ e, deletar_entidade ent i d = (Erro e, d).
Proof.
  intros Hn.
  unfold deletar_entidade, _validar_id_existente, mbind, M_bind, bind, ler_csv, lift, ret.
  pose proof (any_id_ilegivel _ i Hn) as Ha.
  destruct (any_id _ _) as [[|]|e]; [|done|eauto]. simpl.
  destruct (filtrar_ilegivel _ i Hn) as [e He]. unfold ler in He. rewrite He. eauto.
Qed.

(** X3.  One record whose id [int()] cannot read blocks every write to
    its file: whatever the record and the id asked for, [criar_entidade],
    [atualizar_entidade] and [deletar_entidade] raise and leave the disk as
    it was. *)
Theorem id_ilegivel_bloqueia {T} `{!Modelo T} ent (x : T) i d :
  ¬ ids_ok (arquivo ent d) →
  (∃ e, criar_entidade ent x d = (Erro e, d))
  ∧ (∃ e, atualizar_entidade ent i x d = (Erro e, d))
  ∧ (∃ e, deletar_entidade ent i d = (Erro e, d)).
Proof.
  intros Hn. split; [|split].
  - by apply criar_entidade_ilegivel.
  - by apply atualizar_entidade_ilegivel.
  - by apply deletar_entidade_ilegivel.
Qed.

Lemma id_ilegivel_bloqueia_witness :
  (∃ e, criar_entidade jogos tetris d_id_ilegivel = (Erro e, d_id_ilegivel))
  ∧ (∃ e, atualizar_entidade jogos 1 tetris d_id_ilegivel = (Erro e, d_id_ilegivel))
  ∧ (∃ e, deletar_entidade jogos 1 d_id_ilegivel = (Erro e, d_id_ilegivel)).
Proof. apply (id_ilegivel_bloqueia jogos tetris 1 d_id_ilegivel). decidir. Defined.

(** The listing of the same file still answers, without the record. *)
Example listar_id_ilegivel :
  carregar_jogos amb0 d_id_ilegivel = (Ok [zelda true], d_id_ilegivel).
Proof. vm_compute; reflexivity. Qed.

Lemma preserva_ret {A} ent (a : A) : preserva ent (ret a).
Proof. done. Qed.
Lemma preserva_mret {A} ent (a : A) : preserva ent (mret a).
Proof. done. Qed.
Lemma preserva_raise {A} ent e : preserva ent (raise (A := A) e).
Proof. done. Qed.
Lemma preserva_lift {A} ent (r : resultado A) : preserva ent (lift r).
Proof. done. Qed.
Lemma preserva_ler_csv ent ent' : preserva ent (ler_csv ent').
Proof. done. Qed.
Lemma preserva_bind {A B} ent (m : M A) (k : A → M B) :
  preserva ent m → (∀ a, preserva ent (k a)) → preserva ent (m ≫= k).
Proof.
  intros Hm Hk d. unfold mbind, M_bind, bind. specialize (Hm d).
  destruct (m d) as [[a|e] d1]; simpl in *; [|done]. by rewrite Hk.
Qed.
Lemma preserva_escrever_csv ent ent' dados campos :
  ent' ≠ ent → preserva ent (escrever_csv ent' dados campos).
Proof.
  intros Hne d. unfold escrever_csv. destruct (writerows campos dados) as [ls e].
  simpl. by apply arquivo_gravar_ne.
Qed.

Ltac preservar :=
  repeat first
    [ apply preserva_ret | apply preserva_mret | apply preserva_raise | apply preserva_lift
    | apply preserva_ler_csv
    | apply preserva_escrever_csv; done
    | apply preserva_bind; [|intros ?]
    | match goal with |- preserva _ (if ?b then _ else _) => destruct b end
    | match goal with |- preserva _ (match ?x with _ => _ end) => destruct x end ].

Lemma preserva_criar_entidade {T} `{!Modelo T} ent ent' (x : T) :
  ent' ≠ ent → preserva ent (criar_entidade ent' x).
Proof. intros. unfold criar_entidade. preservar. Qed.

Lemma preserva_atualizar_entidade {T} `{!Modelo T} ent ent' i (x : T) :
  ent' ≠ ent → preserva ent (atualizar_entidade ent' i x).
Proof. intros. unfold atualizar_entidade. preservar. Qed.

Lemma preserva_deletar_entidade ent ent' i :
  ent' ≠ ent → preserva ent (deletar_entidade ent' i).
Proof. intros. unfold deletar_entidade, _validar_id_existente. preservar. Qed.

Lemma preserva_carregar_entidades amb {T} `{!Modelo T} ent ent' :
  preserva ent (carregar_entidades amb (T := T) ent').
Proof. unfold carregar_entidades. preservar. Qed.

(** X4.  The generic operations write the file of their own entity
    only: creating, updating or deleting a record of one entity leaves the
    files of the other entities as they were, whatever the call answers.
    In particular deleting a game or a friend never removes the loans that
    refer to it. *)
Theorem entidade_escreve_so_o_seu_arquivo {T} `{!Modelo T} ent ent' (x : T) i d :
  ent' ≠ ent →
  arquivo ent' (criar_entidade ent x d).2 = arquivo ent' d
  ∧ arquivo ent' (atualizar_entidade ent i x d).2 = arquivo ent' d
  ∧ arquivo ent' (deletar_entidade ent i d).2 = arquivo ent' d.
Proof.
  intros Hne. split; [|split].
  - by apply preserva_criar_entidade.
  - by apply preserva_atualizar_entidade.
  - by apply preserva_deletar_entidade.
Qed.

Lemma entidade_escreve_so_o_seu_arquivo_witness :
  arq_emprestimos (criar_entidade jogos tetris d_emprestado).2 = [linha (emprestimo 1 1 7)]
  ∧ arq_emprestimos (atualizar_entidade jogos 1 tetris d_emprestado).2
    = [linha (emprestimo 1 1 7)]
  ∧ arq_emprestimos (deletar_entidade jogos 1 d_emprestado).2 = [linha (emprestimo 1 1 7)].
Proof.
  apply (entidade_escreve_so_o_seu_arquivo jogos emprestimos tetris 1 d_emprestado).
  done.
Defined.

(** X5.  No operation on loans writes to the file of the friends,
    whether it succeeds or raises. *)
Theorem emprestimo_nao_escreve_amigos amb e i d :
  arq_amigos (criar_emprestimo amb e d).2 = arq_amigos d
  ∧ arq_amigos (atualizar_emprestimo amb i e d).2 = arq_amigos d
  ∧ arq_amigos (deletar_emprestimo amb i d).2 = arq_amigos d.
Proof.
  assert (∀ ent', ent' ≠ amigos → ∀ (x : Emprestimo), preserva amigos (criar_entidade ent' x)) as Hc
    by (intros; by apply preserva_criar_entidade).
  split; [|split].
  - change (arquivo amigos (criar_emprestimo amb e d).2 = arquivo amigos d).
    revert d. change (preserva amigos (criar_emprestimo amb e)).
    unfold criar_emprestimo, carregar_jogos, carregar_amigos.
    repeat first
      [ apply preserva_carregar_entidades
      | apply preserva_criar_entidade; done
      | progress preservar ].
  - revert d. change (preserva amigos (atualizar_emprestimo amb i e)).
    unfold atualizar_emprestimo, carregar_jogos, carregar_emprestimos.
    repeat first
      [ apply preserva_carregar_entidades
      | apply preserva_atualizar_entidade; done
      | progress preservar ].
  - revert d. change (preserva amigos (deletar_emprestimo amb i)).
    unfold deletar_emprestimo, carregar_jogos, carregar_emprestimos.
    repeat first
      [ apply preserva_carregar_entidades
      | apply preserva_deletar_entidade; done
      | progress preservar ].
Qed.

Import Rotas.









(** A record that no Jogo accepts is counted and not listed. *)
Example contar_ano_invalido :
  contar_entidades jogos d_ano_invalido = (Ok 2%nat, d_ano_invalido)
  ∧ carregar_jogos amb0 d_ano_invalido = (Ok [zelda true], d_ano_invalido).
Proof. split; vm_compute; reflexivity. Qed.

Import Main.

(** X8.  A game that was just lent cannot be lent again: after
    [criar_emprestimo] succeeded, a second [criar_emprestimo] on the same
    game for a registered friend raises the ValueError of the unavailable
    game, whatever its loan id, and writes nothing. *)
Theorem criar_emprestimo_repetido amb e e' d d' e2 :
  Database.criar_emprestimo amb e d = (Ok e', d') →
  jogo_id e2 = jogo_id e →
  Exists (λ a : Amigo, id_de a = amigo_id e2) (carregados amb (T := Amigo) amigos d) →
  Database.criar_emprestimo amb e2 d'
  = (Erro (ValueError (msg_nao_disponivel_emprestimo (jogo_id e2))), d').
Proof.
  intros Hcriar Hj Ha. rewrite criar_emprestimo_eq in Hcriar. cbv zeta in Hcriar.
  destruct (next_id (jogo_id e) _) as [[k jogo]|] eqn:En; [|done].
  case_bool_decide; [|done]. destruct (disponivel jogo) eqn:Ed; [|done].
  apply criar_entidade_Ok in Hcriar as (_ & _ & _ & ->).
  pose proof (carregados_lido amb d) as Hv.
  apply next_id_Some in En as En'. destruct En' as [Hk Hid].
  rewrite criar_emprestimo_eq. cbv zeta.
  rewrite (carregados_gravar_ne amb (T := Jogo)) by done.
  rewrite carregados_gravar_jogos by by apply lido_insert.
  rewrite (carregados_gravar_ne amb (T := Amigo)) by done.
  unfold gravar_jogos. rewrite (carregados_gravar_ne amb (T := Amigo)) by done.
  rewrite Hj, (next_id_insert _ _ jogo) by done. rewrite En. simpl.
  rewrite decide_True by done. rewrite bool_decide_eq_true_2 by done. done.
Qed.

Lemma criar_emprestimo_repetido_witness :
  Database.criar_emprestimo amb0 (emprestimo 3 2 7)
    (Database.criar_emprestimo amb0 (emprestimo 2 2 7) d_emprestado).2
  = (Erro (ValueError (msg_nao_disponivel_emprestimo 2)),
     (Database.criar_emprestimo amb0 (emprestimo 2 2 7) d_emprestado).2).
Proof.
  apply (criar_emprestimo_repetido amb0 (emprestimo 2 2 7) (emprestimo 2 2 7) d_emprestado
           _ (emprestimo 3 2 7)).
  - vm_compute; reflexivity.
  - reflexivity.
  - decidir.
Defined.

Lemma elem_of_filtro {A} (q : option Z) (f : A → Z) (es : list A) (e : A) :
  e ∈ (if verdadeiro q then filter (λ x, Some (f x) = q) es else es)
  ↔ e ∈ es ∧ (∀ z, q = Some z → z ≠ 0 → f e = z).
Proof.
  destruct q as [z|]; simpl.
  - destruct (Z.eqb_spec z 0) as [->|Hz]; simpl.
    + split; [intros He; split; [done|]; intros z [= <-]; done|by intros [He _]].
    + rewrite list_elem_of_filter. split.
      * intros [[= <-] He]. split; [done|]. by intros z [= <-].
      * intros [He Hf]. split; [|done]. f_equal. by apply Hf.
  - split; [intros He; split; [done|]; by intros z|by intros [He _]].
Qed.

Lemma sublist_filtro {A} (q : option Z) (f : A → Z) (es : list A) :
  (if verdadeiro q then filter (λ x, Some (f x) = q) es else es) `sublist_of` es.
Proof. destruct (verdadeiro q); [apply sublist_filter|done]. Qed.

(** X9.  GET /emprestimos/filtrar/ writes nothing and answers, in the
    order of the file, exactly the loaded loans that meet each criterion
    given; a criterion that is absent or is 0 selects nothing out. *)
Theorem filtrar_emprestimos_criterios amb jq aq d :
  ∃ l,
    filtrar_emprestimos amb jq aq d = (Ok l, d)
    ∧ l `sublist_of` carregados amb (T := Emprestimo) emprestimos d
    ∧ (∀ e, e ∈ l ↔
         e ∈ carregados amb (T := Emprestimo) emprestimos d
         ∧ (∀ j, jq = Some j → j ≠ 0 → jogo_id e = j)
         ∧ (∀ a, aq = Some a → a ≠ 0 → amigo_id e = a)).
Proof.
  unfold filtrar_emprestimos, carregar_emprestimos, mbind, M_bind, bind.
  rewrite carregar_entidades_eq. unfold ret. eexists. split; [done|].
  split.
  - etrans; [apply (sublist_filtro aq amigo_id)|]. apply (sublist_filtro jq jogo_id).
  - intros e. rewrite (elem_of_filtro aq amigo_id), (elem_of_filtro jq jogo_id).
    tauto.
Qed.

Lemma filtrar_emprestimos_criterios_witness :
  ∃ l,
    filtrar_emprestimos amb0 (Some 2) (Some 0) d_dois_emprestimos
    = (Ok l, d_dois_emprestimos)
    ∧ emprestimo 2 2 7 ∈ l
    ∧ emprestimo 1 1 7 ∉ l.
Proof.
  destruct (filtrar_emprestimos_criterios amb0 (Some 2) (Some 0) d_dois_emprestimos)
    as (l & Hl & _ & Hm).
  exists l. split; [exact Hl|]. split.
  - apply Hm. split; [decidir|]. split.
    + intros j [= <-] _. reflexivity.
    + intros a [= <-] Ha. by destruct Ha.
  - intros [_ [Hj _]]%Hm. specialize (Hj 2 eq_refl ltac:(done)). discriminate.
Defined.

(** The filter cannot select the loans of game 0. *)
Example filtrar_emprestimos_zero amb aq d :
  filtrar_emprestimos amb (Some 0) aq d = filtrar_emprestimos amb None aq d.
Proof. reflexivity. Qed.

(** X10.  DELETE /emprestimos/{id} on a loans file whose records are
    rectangular and carry an id: it answers 404 and writes nothing when no
    loaded loan has the id, and 204 when one has; after a 204 the same
    request answers 404. *)
Theorem remover_emprestimo_resposta amb i d :
  retangular (campos_de emprestimos) (arq_emprestimos d) →
  ids_ok (arq_emprestimos d) →
  let nao_encontrado :=
    HTTPException 404 ("Empréstimo com ID " +:+ str_int i +:+ " não encontrado") in
  (next_id i (carregados amb (T := Emprestimo) emprestimos d) = None →
   remover_emprestimo amb i d = (nao_encontrado, d))
  ∧ (is_Some (next_id i (carregados amb (T := Emprestimo) emprestimos d)) →
     ∃ d',
       remover_emprestimo amb i d = (Resposta 204 tt, d')
       ∧ remover_emprestimo amb i d' = (nao_encontrado, d')).
Proof.
  intros Hret Hids nao_encontrado.
  assert (∀ d0, next_id i (carregados amb (T := Emprestimo) emprestimos d0) = None →
                remover_emprestimo amb i d0 = (nao_encontrado, d0)) as Hnone.
  { intros d0 Hn. unfold remover_emprestimo. rewrite deletar_emprestimo_eq. by rewrite Hn. }
  split; [apply Hnone|].
  intros [[n e] He]. unfold remover_emprestimo at 1.
  rewrite deletar_emprestimo_eq, He. cbv zeta.
  assert (i ∈ ids (arq_emprestimos d)) as Hi.
  { apply next_id_Some in He as [He1 <-].
    apply (JogosProps.carregado_id_em_ids amb emprestimos d e Hids).
    by eapply list_elem_of_lookup_2. }
  set (d1 := match next_id (jogo_id e) _ with Some _ => _ | None => _ end).
  assert (arq_emprestimos d1 = arq_emprestimos d) as Hd1.
  { unfold d1. by destruct (next_id (jogo_id e) _) as [[k jogo]|]. }
  rewrite deletar_entidade_eq by (simpl; by rewrite Hd1).
  simpl arquivo. rewrite Hd1. rewrite bool_decide_eq_true_2 by done.
  eexists. split; [done|]. apply Hnone.
  rewrite <- Hd1.
  rewrite (carregados_deletar amb emprestimos i d1 d1) by (simpl; by rewrite Hd1).
  apply next_id_filter_ne.
Qed.

Lemma remover_emprestimo_resposta_witness :
  remover_emprestimo amb0 9 d_emprestado
  = (HTTPException 404 ("Empréstimo com ID " +:+ str_int 9 +:+ " não encontrado"),
     d_emprestado)
  ∧ ∃ d',
      remover_emprestimo amb0 1 d_emprestado = (Resposta 204 tt, d')
      ∧ remover_emprestimo amb0 1 d'
        = (HTTPException 404 ("Empréstimo com ID " +:+ str_int 1 +:+ " não encontrado"), d').
Proof.
  split.
  - apply (remover_emprestimo_resposta amb0 9 d_emprestado); [decidir|decidir|].
    vm_compute; reflexivity.
  - apply (remover_emprestimo_resposta amb0 1 d_emprestado); [decidir|decidir|].
    exists (0%nat, emprestimo 1 1 7). vm_compute; reflexivity.
Defined.

(** X11.  POST /emprestimos/ on a loans file whose records are
    rectangular and carry an id: it answers 201 with the loan exactly when
    the game is loaded and available, the friend is loaded and no stored
    loan has the id of the new one; every refusal is a 400, also when the
    game or the friend does not exist. *)
Theorem criar_emprestimo_resposta amb e d :
  retangular (campos_de emprestimos) (arq_emprestimos d) →
  ids_ok (arq_emprestimos d) →
  let aceito :=
    (∃ k jogo,
       next_id (jogo_id e) (carregados amb (T := Jogo) jogos d) = Some (k, jogo)
       ∧ disponivel jogo = true)
    ∧ Exists (λ a : Amigo, id_de a = amigo_id e) (carregados amb (T := Amigo) amigos d)
    ∧ emprestimo_id_ e ∉ ids (arq_emprestimos d) in
  (aceito → ∃ d', Rotas.criar_emprestimo amb e d = (Resposta 201 e, d'))
  ∧ (¬ aceito → ∃ m d', Rotas.criar_emprestimo amb e d = (HTTPException 400 m, d')).
Proof.
  intros Hret Hids aceito. unfold Rotas.criar_emprestimo.
  rewrite criar_emprestimo_eq. cbv zeta.
  destruct (next_id (jogo_id e) _) as [[k jogo]|] eqn:En.
  - case_bool_decide as Ha.
    + destruct (disponivel jogo) eqn:Ed.
      * rewrite (criar_entidade_eq (T := Emprestimo)) by done.
        simpl arquivo. case_bool_decide as Hi.
        -- split; [|by eauto]. intros (_ & _ & Hn). by destruct Hn.
        -- split; [by eauto|]. intros Hn. destruct Hn. unfold aceito. eauto 6.
      * split; [|by eauto]. intros ((k' & j' & [= <- <-] & Hd) & _). congruence.
    + split; [|by eauto]. by intros (_ & Ha' & _).
  - split; [|by eauto]. by intros ((k' & j' & ? & _) & _).
Qed.

Lemma criar_emprestimo_resposta_witness :
  (∃ d', Rotas.criar_emprestimo amb0 (emprestimo 2 2 7) d_emprestado
         = (Resposta 201 (emprestimo 2 2 7), d'))
  ∧ (∃ m d', Rotas.criar_emprestimo amb0 (emprestimo 2 4 7) d_emprestado
             = (HTTPException 400 m, d')).
Proof.
  split.
  - apply (criar_emprestimo_resposta amb0 (emprestimo 2 2 7) d_emprestado);
      [decidir|decidir|].
    split; [|split; decidir]. exists 1%nat, (doom true). split; vm_compute; reflexivity.
  - apply (criar_emprestimo_resposta amb0 (emprestimo 2 4 7) d_emprestado);
      [decidir|decidir|].
    intros ((k & j & Hn & _) & _). vm_compute in Hn. discriminate.
Defined.

(** X12.  [atualizar_emprestimo] checks no reference when the game is
    kept: over a loans file whose records have exactly the columns of the
    model and carry an integer id, for a stored loan and a new record with
    the same id and the same game, it succeeds whatever friend id and dates
    the record carries; it rewrites the loans file only, and neither the
    games nor the friends file is written. *)
Theorem atualizar_emprestimo_mesmo_jogo amb i e d n antigo :
  retangular (campos_de emprestimos) (arq_emprestimos d) →
  ids_ok (arq_emprestimos d) →
  next_id i (carregados amb (T := Emprestimo) emprestimos d) = Some (n, antigo) →
  jogo_id e = jogo_id antigo →
  emprestimo_id_ e = i →
  ∃ d',
    Database.atualizar_emprestimo amb i e d = (Ok (Some e), d')
    ∧ arq_jogos d' = arq_jogos d
    ∧ arq_amigos d' = arq_amigos d
    ∧ escritas d' = escritas d ++ [emprestimos].
Proof.
  intros Hret Hids He Hj Hi.
  assert (i ∈ ids (arq_emprestimos d)) as Hin.
  { apply next_id_Some in He as [He1 <-].
    apply (JogosProps.carregado_id_em_ids amb emprestimos d antigo Hids).
    by eapply list_elem_of_lookup_2. }
  rewrite atualizar_emprestimo_eq, He.
  rewrite bool_decide_eq_false_2 by (intros Hne; by apply Hne).
  rewrite (atualizar_entidade_eq (T := Emprestimo)) by done.
  rewrite bool_decide_eq_false_2 by (intros [Hne _]; by apply Hne).
  rewrite bool_decide_eq_true_2 by done.
  eexists. split; [done|]. done.
Qed.

Lemma atualizar_emprestimo_mesmo_jogo_witness :
  ∃ d',
    Database.atualizar_emprestimo amb0 1 (emprestimo 1 1 99) d_emprestado
    = (Ok (Some (emprestimo 1 1 99)), d')
    ∧ arq_jogos d' = arq_jogos d_emprestado
    ∧ arq_amigos d' = arq_amigos d_emprestado
    ∧ escritas d' = escritas d_emprestado ++ [emprestimos].
Proof.
  apply (atualizar_emprestimo_mesmo_jogo amb0 1 (emprestimo 1 1 99) d_emprestado
           0%nat (emprestimo 1 1 7)).
  - decidir.
  - decidir.
  - vm_compute; reflexivity.
  - reflexivity.
  - reflexivity.
Defined.








(** X14.  Writing back what was read changes no reading: after
    [escrever_csv] stored the records that [ler_csv] returned from a
    rectangular file, [ler_csv] returns the same records. *)
Theorem ler_escrever_estavel ent d :
  retangular (campos_de ent) (arquivo ent d) →
  ∃ dados d',
    ler_csv ent d = (Ok dados, d)
    ∧ escrever_csv ent dados (campos_de ent) d = (Ok tt, d')
    ∧ ler_csv ent d' = (Ok dados, d').
Proof.
  intros Hret. eexists _, _. split; [done|]. split.
  - apply escrever_csv_ok. by apply retangular_dom_lidos.
  - unfold ler_csv. rewrite arquivo_gravar. do 2 f_equal.
    change (ler <$> (escrever (campos_de ent) <$> (ler <$> arquivo ent d))
            = ler <$> arquivo ent d).
    rewrite <- (list_fmap_compose ler (escrever (campos_de ent))).
    exact (ler_rescritos (campos_de ent) _ Hret).
Qed.

Lemma ler_escrever_estavel_witness :
  ∃ dados d',
    ler_csv jogos d_emprestado = (Ok dados, d_emprestado)
    ∧ escrever_csv jogos dados (campos_de jogos) d_emprestado = (Ok tt, d')
    ∧ ler_csv jogos d' = (Ok dados, d').
Proof. apply (ler_escrever_estavel jogos d_emprestado). decidir. Defined.

End JogosExtras.

(** ** Further properties of the blog *)

Module ComentariosExtras.
Import Py Blog BlogCasos Comentarios ComentariosCasos.

Lemma proximo_id_maior (l : list Z) : Forall (λ z, z < proximo_id l) l.
Proof.
  unfold proximo_id. induction l as [|a r IH]; [done|]. simpl. constructor; [lia|].
  eapply Forall_impl; [exact IH|]. simpl. lia.
Qed.

Lemma executar_c_triplos st op :
  sem_texto_vazio op → triplos_unicos st → triplos_unicos (executar_c st op).
Proof.
  unfold triplos_unicos. intros Hop Hst.
  destruct op as [agora c|i|i u|i]; simpl.
  - unfold create_comment.
    destruct (get_post _ _); [|done]. destruct (get_user _ _); [|done].
    destruct (list_find _ _) as [[k c']|] eqn:E; [done|]. simpl.
    rewrite fmap_app. apply NoDup_app. split; [done|]. split; [|apply NoDup_singleton].
    intros t [c' [Hc' Hin]]%list_elem_of_fmap. csimpl.
    rewrite list_elem_of_singleton. intros ->.
    apply list_find_None in E. rewrite Forall_forall in E.
    apply (E c' Hin). unfold triplo in Hc'. simpl in Hc'. by injection Hc' as <- <- <-.
  - unfold read_comment. by destruct (list_find _ _) as [[k c]|].
  - unfold update_comment. destruct (list_find _ _) as [[k c]|] eqn:E; [|done].
    apply list_find_Some in E as (Hk & _). simpl in Hop.
    destruct u as [[[nc|]|]]; simpl.
    + case_bool_decide as Hnc.
      * destruct (list_find _ _) as [[k' c']|] eqn:E'; [done|]. simpl.
        apply list_find_None in E'. rewrite Forall_forall in E'.
        rewrite list_fmap_insert. rewrite insert_take_drop
          by (rewrite length_fmap; by eapply lookup_lt_Some).
        rewrite <- (take_drop_middle _ k (triplo c)) in Hst
          by (by rewrite list_lookup_fmap, Hk).
        apply NoDup_app in Hst as (H1 & H2 & H3). apply NoDup_cons in H3 as [H3 H4].
        assert (∀ t, t ∈ triplo <$> comments st →
                     t ≠ (post_id c, author_id c, nc)) as Hnovo.
        { intros t [c' [-> Hin]]%list_elem_of_fmap [= Hp Ha Hc]. by apply (E' c' Hin). }
        apply NoDup_app. split; [done|]. split.
        -- intros t Ht. rewrite not_elem_of_cons. split.
           ++ apply Hnovo. eapply elem_of_sublist; [exact Ht|apply sublist_take].
           ++ intros Hd. apply (H2 t Ht). by right.
        -- apply NoDup_cons. split; [|done].
           intros Hd. eapply Hnovo; [|done].
           eapply elem_of_sublist; [exact Hd|apply sublist_drop].
      * simpl. assert (nc = content c) as ->.
        { destruct (decide (nc = content c)); [done|]. destruct Hnc. split; [|done].
          intros ->. by destruct Hop. }
        rewrite list_insert_id; [done|]. rewrite Hk. by destruct c.
    + done.
    + simpl. rewrite list_insert_id; [done|]. rewrite Hk. by destruct c.
  - unfold delete_comment. destruct (list_find _ _) as [[k c]|] eqn:E; [|done]. simpl.
    rewrite list_fmap_delete. eapply sublist_NoDup; [exact Hst | apply sublist_delete].
Qed.

(** X15.  No sequence of comment operations (create, read, update,
    delete) in which no update sets the content to the empty text, run on
    a table where no two comments have the same post, author and content,
    the empty table among them, leaves two such comments. *)
Theorem comentarios_sem_triplos_repetidos ops st :
  Forall sem_texto_vazio ops →
  triplos_unicos st →
  triplos_unicos (executar_todas_c ops st).
Proof.
  unfold executar_todas_c. revert st.
  induction ops as [|op ops IH]; intros st Hops Hst; simpl; [done|].
  apply Forall_cons in Hops as [Hop Hops].
  apply IH; [done|]. by apply executar_c_triplos.
Qed.

Lemma comentarios_sem_triplos_repetidos_witness :
  triplos_unicos
    (executar_todas_c
       [CriarC 30 (comentario "Bom!" 1 1); CriarC 31 (comentario "Bom!" 1 1);
        CriarC 32 (comentario "Otimo" 1 1); AtualizarC 2 (novo_texto "Bom!");
        ApagarC 1; AtualizarC 2 (novo_texto "Bom!")] st_blog).
Proof.
  apply comentarios_sem_triplos_repetidos.
  - repeat constructor; done.
  - constructor.
Defined.

(** An update that empties the content is not compared with the stored
    comments: two comments of the same author on the same post end up
    with the same content. *)
Example update_comment_texto_vazio :
  let st :=
    executar_todas_c
      [CriarC 30 (comentario "" 1 1); CriarC 31 (comentario "Bom!" 1 1)] st_blog in
  triplos_unicos st
  ∧ triplo <$> comments (executar_c st (AtualizarC 2 (novo_texto "")))
    = [(1, 1, ""); (1, 1, "")].
Proof. split; [decidir|vm_compute; reflexivity]. Qed.


(** X16.  [create_comment] looks up the post, then the author, then a
    stored comment of that author on that post with the same content: it
    answers 404 "Post not found", 404 "Author not found" or the 400 of the
    duplicate in that order and stores nothing; when it answers a comment,
    the comment carries the post, author and content of the request and an
    id that no stored comment had, it is added after the stored comments,
    no other table changes, and [read_comment] with its id returns it. *)
Theorem create_comment_resposta agora comment st :
  (get_post (tabelas st) (cc_post_id comment) = None →
   create_comment agora comment st = (Levanta (HTTPException 404 "Post not found"), st))
  ∧ (is_Some (get_post (tabelas st) (cc_post_id comment)) →
     get_user (tabelas st) (cc_author_id comment) = None →
     create_comment agora comment st
     = (Levanta (HTTPException 404 "Author not found"), st))
  ∧ (∀ c,
       is_Some (get_post (tabelas st) (cc_post_id comment)) →
       is_Some (get_user (tabelas st) (cc_author_id comment)) →
       c ∈ comments st →
       triplo c = (cc_post_id comment, cc_author_id comment, cc_content comment) →
       create_comment agora comment st = (Levanta (HTTPException 400 msg_duplicado), st))
  ∧ (∀ r st',
       create_comment agora comment st = (Retorna r, st') →
       triplo r = (cc_post_id comment, cc_author_id comment, cc_content comment)
       ∧ created_at r = agora
       ∧ (comment_id_ r ∉ comment_id_ <$> comments st)
       ∧ comments st' = comments st ++ [r]
       ∧ tabelas st' = tabelas st
       ∧ read_comment (comment_id_ r) st' = (Retorna r, st')).
Proof.
  split; [|split; [|split]].
  - intros Hp. unfold create_comment. by rewrite Hp.
  - intros [p Hp] Hu. unfold create_comment. by rewrite Hp, Hu.
  - intros c [p Hp] [u Hu] Hc Ht. unfold create_comment. rewrite Hp, Hu.
    destruct (list_find _ (comments st)) as [[k c']|] eqn:E; [done|].
    apply list_find_None in E. rewrite Forall_forall in E.
    destruct (E c Hc). unfold triplo in Ht. by injection Ht as -> -> ->.
  - intros r st'. unfold create_comment.
    destruct (get_post _ _); [|done]. destruct (get_user _ _); [|done].
    destruct (list_find _ (comments st)) as [[k c']|] eqn:E; [done|].
    intros [= <- <-]. simpl.
    pose proof (proximo_id_maior (comment_id_ <$> comments st)) as Hm.
    assert (proximo_id (comment_id_ <$> comments st) ∉ comment_id_ <$> comments st) as Hn.
    { intros Hin. rewrite Forall_forall in Hm. specialize (Hm _ Hin). lia. }
    repeat split; try done.
    unfold read_comment. simpl. rewrite list_find_app_r.
    + simpl. by rewrite decide_True.
    + apply list_find_None, Forall_forall. intros c Hc Hid. apply Hn.
      apply list_elem_of_fmap. eauto.
Qed.

Lemma create_comment_resposta_witness :
  create_comment 30 (comentario "Bom!" 5 1) st_blog
  = (Levanta (HTTPException 404 "Post not found"), st_blog)
  ∧ create_comment 30 (comentario "Bom!" 1 2) st_blog
    = (Levanta (HTTPException 404 "Author not found"), st_blog)
  ∧ create_comment 31 (comentario "Bom!" 1 1)
      (create_comment 30 (comentario "Bom!" 1 1) st_blog).2
    = (Levanta (HTTPException 400 msg_duplicado),
       (create_comment 30 (comentario "Bom!" 1 1) st_blog).2)
  ∧ read_comment 1 (create_comment 30 (comentario "Bom!" 1 1) st_blog).2
    = (Retorna {| comment_id_ := 1; content := "Bom!"; created_at := 30;
                  post_id := 1; author_id := 1 |},
       (create_comment 30 (comentario "Bom!" 1 1) st_blog).2).
Proof.
  split; [|split; [|split]].
  - apply (proj1 (create_comment_resposta 30 (comentario "Bom!" 5 1) st_blog)).
    reflexivity.
  - apply (proj1 (proj2 (create_comment_resposta 30 (comentario "Bom!" 1 2) st_blog))).
    + by eexists.
    + reflexivity.
  - apply (proj1 (proj2 (proj2 (create_comment_resposta 31 (comentario "Bom!" 1 1)
                                  (create_comment 30 (comentario "Bom!" 1 1) st_blog).2)))
             {| comment_id_ := 1; content := "Bom!"; created_at := 30;
                post_id := 1; author_id := 1 |}).
    + by eexists.
    + by eexists.
    + decidir.
    + reflexivity.
  - apply (proj2 (proj2 (proj2 (create_comment_resposta 30 (comentario "Bom!" 1 1)
                                  st_blog)))
             {| comment_id_ := 1; content := "Bom!"; created_at := 30;
                post_id := 1; author_id := 1 |}).
    reflexivity.
Defined.

End ComentariosExtras.

Module PostagensExtras.
Import Py Blog BlogCasos Postagens PostagensCasos.

Lemma update_post_Retorna af pp i u db r db' :
  update_post af pp i u db = (Retorna r, db') →
  ∃ k post t c,
    list_find (λ p, post_id_ p = i) (posts db) = Some (k, post)
    ∧ setattr (pu_title u) (Some (title post)) = Some t
    ∧ setattr (pu_content u) (Some (content post)) = Some c
    ∧ let post' :=
        {| post_id_ := post_id_ post; title := t; content := c;
           post_created_at := post_created_at post;
           post_updated_at := setattr (pu_updated_at u) (post_updated_at post);
           author_id := author_id post |} in
      let ls :=
        match pu_category_ids u with
        | None => links db
        | Some ids =>
            filter (λ l, link_post_id l ≠ i) (links db)
            ++ ((λ c, {| link_post_id := i; link_category_id := c |}) <$> ids)
        end in
      db' = com_links ls (com_posts (<[k := post']> (posts db)) db)
      ∧ r = from_orm_with_categories db' post'
      ∧ match pu_category_ids u with
        | None => True
        | Some ids => ausentes ids db = ∅
        end.
Proof.
  unfold update_post.
  destruct (list_find _ (posts db)) as [[k post]|] eqn:E; [|done].
  destruct (setattr (pu_title u) _) as [t|] eqn:Et,
           (setattr (pu_content u) _) as [c|] eqn:Ec; simpl;
    destruct (pu_category_ids u) as [ids|] eqn:Ei; simpl;
    try (destruct af; simpl; try done);
    try (fold (ausentes ids db); case_bool_decide as Hm; [done|]);
    try (destruct (negb (bool_decide (NoDup _))); simpl; try done;
         try (destruct pp; done));
    try done;
    intros [= <- <-]; exists k, post, t, c; repeat split; try done;
    by apply dec_stable in Hm.
Qed.

(** X17.  After [update_post] succeeded, the categories of the answer
    are exactly the ids that the request gave, and the link rows of the
    post are those ids; a request that leaves [category_ids] out gives the
    empty list, so the post loses every category; only a request with
    [category_ids] null keeps the links.  The links of the other posts are
    never changed. *)
Theorem update_post_categorias af pp i u db r db' :
  update_post af pp i u db = (Retorna r, db') →
  pr_id r = i
  ∧ (pu_category_ids u = None → links db' = links db)
  ∧ (∀ ids, pu_category_ids u = Some ids →
       (∀ c, c ∈ pr_category_ids r ↔ c ∈ ids)
       ∧ (∀ l, l ∈ links db' → link_post_id l = i → link_category_id l ∈ ids))
  ∧ (∀ l, link_post_id l ≠ i → l ∈ links db' ↔ l ∈ links db).
Proof.
  intros (k & post & t & c & E & Et & Ec & Hdb & Hr & Hm)%update_post_Retorna.
  cbv zeta in Hdb, Hr. apply list_find_Some in E as (Hk & Hid & _).
  assert (∀ ids l,
    l ∈ filter (λ l, link_post_id l ≠ i) (links db)
        ++ ((λ c, {| link_post_id := i; link_category_id := c |}) <$> ids)
    ↔ (link_post_id l ≠ i ∧ l ∈ links db)
      ∨ (link_post_id l = i ∧ link_category_id l ∈ ids)) as Hls.
  { intros ids l. rewrite elem_of_app, list_elem_of_filter, list_elem_of_fmap. split.
    - intros [?|[c0 [-> Hc0]]]; [by left|by right].
    - intros [?|[Hl Hin]]; [by left|right]. exists (link_category_id l).
      split; [|done]. destruct l; simpl in *. by subst. }
  split; [by rewrite Hr|]. split; [|split].
  - intros Hn. rewrite Hn in Hdb. by rewrite Hdb.
  - intros ids Hids. rewrite Hids in Hdb, Hm. split.
    + intros c0. rewrite Hr. simpl. rewrite list_elem_of_fmap. split.
      * intros [cat [-> [Hl _]%list_elem_of_filter]]. rewrite Hdb in Hl. simpl in Hl.
        apply Hls in Hl as [[Hne _]|[_ Hin]]; [|done]. simpl in Hne. congruence.
      * intros Hin. destruct (decide (c0 ∈ category_id_ <$> categories db)) as [Hc|Hc].
        -- apply list_elem_of_fmap in Hc as [cat [-> Hcat]]. exists cat. split; [done|].
           apply list_elem_of_filter. rewrite Hdb. simpl. split; [|done].
           apply Hls. right. simpl. by rewrite Hid.
        -- assert (c0 ∈ ausentes ids db) as Ha by (by apply BlogProps.elem_of_ausentes).
           rewrite Hm in Ha. by apply elem_of_empty in Ha.
    + intros l. rewrite Hdb. simpl. intros [[Hne _]|[_ Hin]]%Hls Hl; done.
  - intros l Hne. rewrite Hdb. simpl. destruct (pu_category_ids u) as [ids|]; [|done].
    rewrite Hls. split; [intros [[_ ?]|[? _]]; done|intros ?; left; done].
Qed.

Lemma update_post_categorias_witness :
  ∃ r db',
    update_post true true 1 (so_titulo "Bolo de fuba") db_blog = (Retorna r, db')
    ∧ pr_id r = 1
    ∧ (∀ c, c ∈ pr_category_ids r ↔ c ∈ @nil Z)
    ∧ (∀ l, l ∈ links db' → link_post_id l = 1 → link_category_id l ∈ @nil Z).
Proof.
  eexists _, _. split; [vm_compute; reflexivity|].
  match goal with
  | |- pr_id ?r = _ ∧ _ =>
      destruct (update_post_categorias true true 1 (so_titulo "Bolo de fuba") db_blog
                  r _ ltac:(vm_compute; reflexivity)) as (H1 & _ & H3 & _)
  end.
  split; [exact H1|]. exact (H3 [] eq_refl).
Defined.

(** The post of [db_blog] loses its category when only its title is
    sent. *)
Example update_post_so_titulo :
  from_orm_with_categories db_blog bolo
  = {| pr_id := 1; pr_title := "Bolo"; pr_content := "Farinha e ovos.";
       pr_created_at := 20; pr_updated_at := None; pr_author_id := 1;
       pr_category_ids := [1] |}
  ∧ (update_post true true 1 (so_titulo "Bolo de fuba") db_blog).1
    = Retorna {| pr_id := 1; pr_title := "Bolo de fuba"; pr_content := "Farinha e ovos.";
                 pr_created_at := 20; pr_updated_at := None; pr_author_id := 1;
                 pr_category_ids := [] |}.
Proof. split; vm_compute; reflexivity. Qed.

Lemma update_post_Levanta af pp i u db f db' :
  update_post af pp i u db = (Levanta f, db') → db' = db.
Proof.
  unfold update_post.
  destruct (list_find _ (posts db)) as [[k post]|]; [|by intros [= _ <-]].
  unfold commit.
  repeat (first
    [ progress simpl
    | match goal with
      | |- context [match ?x with _ => _ end] => destruct x
      end ]);
    by intros [= <-].
Qed.

(** X18.  [update_post] changes nothing but the row of the post and its
    links: users, categories and likes are as before, the posts keep their
    ids and places, every post with another id keeps its row, and a
    request that raises leaves the whole database as it was. *)
Theorem update_post_quadro af pp i u db :
  let db' := (update_post af pp i u db).2 in
  users db' = users db
  ∧ categories db' = categories db
  ∧ likes db' = likes db
  ∧ post_id_ <$> posts db' = post_id_ <$> posts db
  ∧ (∀ k p, posts db !! k = Some p → post_id_ p ≠ i → posts db' !! k = Some p)
  ∧ (∀ f, (update_post af pp i u db).1 = Levanta f → db' = db).
Proof.
  intros db'. unfold db'.
  destruct (update_post af pp i u db) as [[r|f] db1] eqn:E; simpl.
  - apply update_post_Retorna in E
      as (k & post & t & c & E & Et & Ec & -> & _ & _).
    apply list_find_Some in E as (Hk & Hid & _). simpl.
    repeat split; try done.
    + rewrite list_fmap_insert. simpl. apply list_insert_id.
      by rewrite list_lookup_fmap, Hk.
    + intros k' p Hp Hne. rewrite list_lookup_insert_ne; [done|].
      intros <-. congruence.
  - apply update_post_Levanta in E as ->. repeat split; done.
Qed.

Lemma update_post_quadro_witness :
  (update_post true true 1 (so_categorias [9]) db_blog).2 = db_blog
  ∧ (update_post true true 5 (so_titulo "Pudim") db_blog).2 = db_blog.
Proof.
  split.
  - apply (proj2 (proj2 (proj2 (proj2 (proj2
             (update_post_quadro true true 1 (so_categorias [9]) db_blog)))))
             (HTTPException 404 "Categories not found: [9]")).
    vm_compute; reflexivity.
  - apply (proj2 (proj2 (proj2 (proj2 (proj2
             (update_post_quadro true true 5 (so_titulo "Pudim") db_blog)))))
             (HTTPException 404 "Post not found")).
    vm_compute; reflexivity.
Defined.

(** X19.  An update of a stored post that sets neither title nor
    content to null and whose category ids contain an id of no stored
    category answers the 404 that reports the missing ids: exactly the ids
    of the request that name no category, each once, in increasing order;
    nothing is persisted. *)
Theorem update_post_categorias_ausentes af pp i u db ids c :
  is_Some (get_post db i) →
  pu_title u ≠ Some None → pu_content u ≠ Some None →
  pu_category_ids u = Some ids →
  c ∈ ids → (c ∉ category_id_ <$> categories db) →
  ∃ faltam,
    update_post af pp i u db
    = (Levanta (HTTPException 404 ("Categories not found: " +:+ str_lista faltam)), db)
    ∧ Sorted Z.le faltam ∧ NoDup faltam
    ∧ ∀ x, x ∈ faltam ↔ x ∈ ids ∧ x ∉ category_id_ <$> categories db.
Proof.
  intros [p Hp] Ht Hc Hids Hin Hn.
  assert (ausentes ids db ≠ ∅) as Hne.
  { intros He. assert (c ∈ ausentes ids db) as Ha by (by apply BlogProps.elem_of_ausentes).
    rewrite He in Ha. by apply elem_of_empty in Ha. }
  exists (merge_sort Z.le (elements (ausentes ids db))). split; [|split; [|split]].
  - unfold update_post. unfold get_post in Hp.
    destruct (list_find _ (posts db)) as [[k post]|]; [|done].
    rewrite Hids.
    assert (nao_nulo (setattr (pu_title u) (Some (title post)))
                     (setattr (pu_content u) (Some (content post))) = None) as ->.
    { destruct (pu_title u) as [[?|]|], (pu_content u) as [[?|]|]; done. }
    destruct af; simpl; fold (ausentes ids db); by rewrite bool_decide_eq_true_2.
  - apply Sorted_merge_sort; apply _.
  - rewrite merge_sort_Permutation. apply NoDup_elements.
  - intros x. rewrite merge_sort_Permutation, elem_of_elements.
    apply BlogProps.elem_of_ausentes.
Qed.

Lemma update_post_categorias_ausentes_witness :
  ∃ faltam,
    update_post true true 1 (so_categorias [9; 1; 4; 9]) db_blog
    = (Levanta (HTTPException 404 ("Categories not found: " +:+ str_lista faltam)),
       db_blog)
    ∧ Sorted Z.le faltam ∧ NoDup faltam
    ∧ 4 ∈ faltam ∧ 9 ∈ faltam ∧ 1 ∉ faltam.
Proof.
  destruct (update_post_categorias_ausentes true true 1 (so_categorias [9; 1; 4; 9])
              db_blog [9; 1; 4; 9] 9 ltac:(by eexists) ltac:(done) ltac:(done)
              eq_refl ltac:(decidir) ltac:(decidir))
    as (faltam & Hr & Hs & Hd & Hm).
  exists faltam. repeat split; try done.
  - apply Hm. split; decidir.
  - apply Hm. split; decidir.
  - intros [_ H1]%Hm. apply H1. decidir.
Defined.

End PostagensExtras.

(** ** Updates, in both stores *)

Module AtualizacaoProps.
Import Py Models Database Leitura PyFacts DatabaseFacts Exemplos.





End AtualizacaoProps.
